(** * GeoPackage binary / WKB decoder of [provider/gpkg/gpkgFormat.go]

    A shallow embedding of the decoder and the properties of its
    specification.

    Conventions of the embedding.
    - A Go [[]byte] is a [buf]: the bytes in view, [len(s)] of them, and the
      bytes of the backing array that follow them up to the capacity.  An
      index expression [s[i]] is checked against the length and a slice
      expression [s[lo:hi]] against the capacity, as the Go run time does, so
      a slice expression can bring bytes past the length into view; both
      panic when out of range.  The scalar decoders only measure and index
      their window, so they are given its view, a [list byte].  The slices the
      decoder makes itself ([make]) are never resliced; they are lists.
    - [make] always succeeds: memory is not bounded in the model.
    - [uint8], [uint16], [uint32] and [int32] values are integers of [Z] with
      the wrap-around of each operation written out.  Go's [int] holds cursor
      positions and sizes, which never leave the range of a slice capacity; it
      is [Z] as well.
    - A [float64] is its IEEE-754 bit pattern: the decoder only moves bit
      patterns around ([math.Float64frombits]) and never computes with them.
    - logrus calls are recorded as events.  [log.Fatal] logs and then ends
      the process ([os.Exit(1)]): the computation stops with [Exit].  A Go
      run-time panic stops it with [Panic]. *)

From Stdlib Require Import Strings.String Strings.Byte.
From Stdlib Require Import ZArith List Lia Bool.
Import ListNotations.

Open Scope Z_scope.

(** ** Log events *)

Inductive level := Debug | Info | Warn | Error | Fatal.

(** One constructor per format string of the source, with its arguments. *)
Inductive message :=
| NeedUint32Bytes (received : Z)      (* "Need 4 bytes to convert to uint32, received %v" *)
| InvalidByteOrderFlag (flag : Z)     (* "Invalid byte order flag leading WKBGeometry: %v" *)
| NeedFloat64Bytes (received : Z)     (* "bytesToFloat64(): Need 8 bytes, received %v" *)
| PointNeedBytes (received : Z)       (* "WKBPoint.Init(): Need 16 bytes, received %v" *)
| RingNeedBytes (received : Z)        (* "WKBLinearRing.Init(): Need at least 4 bytes, received %v" *)
| ExpectedPolygonFlag (want got : Z)  (* "Expected WKBPolygon type flag %v, got %v" *)
| UnimplementedGeomType (code : Z)    (* "newWKBGeometry: Unimplemented or invalid geomType: %v" *)
| NilGeometry (code : Z)              (* "newWKBGeometry() returned nil for geomType %v" *)
| ReadingGeometries (len : Z)         (* "Reading WKBGeometries from data of length " *)
| ConsumedMismatch (consumed len : Z) (* "Bytes consumed from reading geometry (%v) doesn't match data length (%v)" *)
| ExpectingInt32Bytes (received : Z)  (* "Expecting 4 bytes, got %v" *)
| SrsIdLooksInvalid (srs order : Z)   (* "The decoded srs_id (%v) looks invalid decoded with byteOrder %v" *)
| SrsIdTryingAgain (order : Z)        (* "Trying again with byteOrder %v" *)
| SrsIdStillInvalid (srs : Z)         (* "Still looks invalid (%v), setting it to 0" *)
| SrsIdLooksValid (srs : Z)           (* "Looks valid (%v) with this encoding, but not the encoding detected." *)
| InvalidEnvelopeType (etype : Z)     (* "Invalid envelope type: %v" *)
| HeaderSizes (hsize blob : Z)        (* "GeoPackageBinaryHeader.Init() header size: %v, geom blob size: %v" *)
| NotInitialized (caller : string)    (* "%v: GeoPackageBinaryHeader not initialized" *)
| FlagsNotReady.                      (* "GeoPackageBinaryHeader.flags must be ready before calling this function" *)

Definition event : Type := level * message.

(** ** The decoder monad: a log writer that can stop *)

Inductive stop :=
| Exit        (* log.Fatal *)
| Panic       (* index or slice bounds out of range *)
| OutOfFuel.  (* the fuel of a loop of the model ran out; see [readGeometries_total] *)

Inductive res (A : Type) :=
| Ret (a : A)
| Stop (s : stop).
Arguments Ret {A} a.
Arguments Stop {A} s.

Definition M (A : Type) : Type := list event * res A.

Definition ret {A} (a : A) : M A := ([], Ret a).

Definition bind {A B} (m : M A) (k : A -> M B) : M B :=
  match m with
  | (l, Ret a) => let (l', r) := k a in (l ++ l', r)
  | (l, Stop s) => (l, Stop s)
  end.

Declare Scope go_scope.
Delimit Scope go_scope with go.
Notation "x <- m ;; k" := (bind m (fun x => k))
  (at level 61, m at next level, right associativity) : go_scope.
Notation "' p <- m ;; k" := (bind m (fun x => let p := x in k))
  (at level 61, p pattern, m at next level, right associativity) : go_scope.
Notation "m ;;; k" := (bind m (fun _ => k))
  (at level 61, right associativity) : go_scope.
Open Scope go_scope.

Definition logAt (l : level) (m : message) : M unit := ([(l, m)], Ret tt).
Definition log_Fatal {A} (m : message) : M A := ([(Fatal, m)], Stop Exit).
Definition panic {A} : M A := ([], Stop Panic).

(** What a computation logged, and what it returned if it did. *)
Definition logged {A} (m : M A) : list event := fst m.
Definition returned {A} (m : M A) : option A :=
  match snd m with Ret a => Some a | Stop _ => None end.

(** ** Bytes and slices *)

Definition b2z (b : byte) : Z := Z.of_N (Byte.to_N b).

Definition len {A} (s : list A) : Z := Z.of_nat (length s).

(** [s[i]] *)
Definition index {A} (s : list A) (i : Z) : M A :=
  if (0 <=? i) && (i <? len s)
  then match nth_error s (Z.to_nat i) with Some a => ret a | None => panic end
  else panic.

(** A [[]byte]: [view] holds the [len(s)] bytes in view and [spare] the
    bytes of the backing array between the length and the capacity. *)
Record buf := Buf { view : list byte; spare : list byte }.

Coercion view : buf >-> list.

(** [cap(s)], and the backing array from the start of the slice on. *)
Definition cap (s : buf) : Z := len (view s) + len (spare s).
Definition array (s : buf) : list byte := view s ++ spare s.

(** [s[lo:hi]], with [0 <= lo <= hi <= cap(s)] *)
Definition slice (s : buf) (lo hi : Z) : M buf :=
  if (0 <=? lo) && (lo <=? hi) && (hi <=? cap s)
  then ret (Buf (firstn (Z.to_nat (hi - lo)) (skipn (Z.to_nat lo) (array s)))
                (skipn (Z.to_nat hi) (array s)))
  else panic.

(** [s[lo:]], which is [s[lo:len(s)]] *)
Definition slice_from (s : buf) (lo : Z) : M buf :=
  slice s lo (len s).

(** Conversions to a fixed width. *)
Definition to_uint16 (z : Z) : Z := z mod 2 ^ 16.
Definition to_uint32 (z : Z) : Z := z mod 2 ^ 32.
Definition to_uint64 (z : Z) : Z := z mod 2 ^ 64.
Definition to_int32 (z : Z) : Z := (z + 2 ^ 31) mod 2 ^ 32 - 2 ^ 31.

(** ** Scalar codec *)

Definition wkbXDR : Z := 0. (* Big Endian *)
Definition wkbNDR : Z := 1. (* Little Endian *)

(** [encoding/binary]: the two byte orders of the Go standard library. *)
Inductive ByteOrder := BigEndian | LittleEndian.

Definition Uint32 (o : ByteOrder) (b : list byte) : M Z :=
  match b with
  | b0 :: b1 :: b2 :: b3 :: _ =>
    match o with
    | BigEndian =>
      ret (Z.lor (Z.lor (Z.lor (b2z b3) (Z.shiftl (b2z b2) 8))
                        (Z.shiftl (b2z b1) 16)) (Z.shiftl (b2z b0) 24))
    | LittleEndian =>
      ret (Z.lor (Z.lor (Z.lor (b2z b0) (Z.shiftl (b2z b1) 8))
                        (Z.shiftl (b2z b2) 16)) (Z.shiftl (b2z b3) 24))
    end
  | _ => panic
  end.

Definition Uint64 (o : ByteOrder) (b : list byte) : M Z :=
  match b with
  | b0 :: b1 :: b2 :: b3 :: b4 :: b5 :: b6 :: b7 :: _ =>
    let join a b c d e f g h :=
      Z.lor (Z.lor (Z.lor (Z.lor (Z.lor (Z.lor (Z.lor
        (b2z a) (Z.shiftl (b2z b) 8)) (Z.shiftl (b2z c) 16)) (Z.shiftl (b2z d) 24))
        (Z.shiftl (b2z e) 32)) (Z.shiftl (b2z f) 40)) (Z.shiftl (b2z g) 48))
        (Z.shiftl (b2z h) 56) in
    match o with
    | BigEndian => ret (join b7 b6 b5 b4 b3 b2 b1 b0)
    | LittleEndian => ret (join b0 b1 b2 b3 b4 b5 b6 b7)
    end
  | _ => panic
  end.

(** The [if / else if / else log.Fatal] that picks [bitConversion]. *)
Definition bitConversion (byteOrder : Z) : M ByteOrder :=
  if byteOrder =? wkbXDR then ret BigEndian
  else if byteOrder =? wkbNDR then ret LittleEndian
  else log_Fatal (InvalidByteOrderFlag byteOrder).

Definition bytesToUint32 (bytes : list byte) (byteOrder : Z) : M Z :=
  (if negb (len bytes =? 4) then log_Fatal (NeedUint32Bytes (len bytes)) else ret tt) ;;;
  o <- bitConversion byteOrder ;;
  Uint32 o bytes.

(** A [float64] as its bit pattern. *)
Record float64 := Float64frombits { Float64bits : Z }.

Definition bytesToFloat64 (bytes : list byte) (byteOrder : Z) : M float64 :=
  (if negb (len bytes =? 8) then log_Fatal (NeedFloat64Bytes (len bytes)) else ret tt) ;;;
  o <- bitConversion byteOrder ;;
  bits <- Uint64 o bytes ;;
  ret (Float64frombits bits).

(** [int32(b)], [v <<= 8] and [v |= w] on [int32]. *)
Definition shl8_int32 (v : Z) : Z := to_int32 (Z.shiftl v 8).
Definition or_int32 (v w : Z) : Z := to_int32 (Z.lor v w).

Definition bytesToInt32 (bytes : list byte) (byteOrder : Z) : M Z :=
  if negb (len bytes =? 4) then
    logAt Error (ExpectingInt32Bytes (len bytes)) ;;;
    ret (-1)
  else
    b0 <- index bytes 0 ;;
    b1 <- index bytes 1 ;;
    b2 <- index bytes 2 ;;
    b3 <- index bytes 3 ;;
    let valueLittleEndian :=
      or_int32 (shl8_int32 (or_int32 (shl8_int32 (or_int32 (shl8_int32
        (b2z b3)) (b2z b2))) (b2z b1))) (b2z b0) in
    let valueBigEndian :=
      or_int32 (shl8_int32 (or_int32 (shl8_int32 (or_int32 (shl8_int32
        (b2z b0)) (b2z b1))) (b2z b2))) (b2z b3) in
    ret (if byteOrder =? wkbNDR then valueLittleEndian
         else if byteOrder =? wkbXDR then valueBigEndian
         else 0).

(** ** Geometry decoder *)

(** [make([]T, n)], which always succeeds here, and [s[i] = v]. *)
Definition make {A} (zero : A) (n : Z) : list A := repeat zero (Z.to_nat n).

Fixpoint set_nth {A} (s : list A) (i : nat) (v : A) : list A :=
  match s, i with
  | [], _ => []
  | _ :: s', O => v :: s'
  | a :: s', S i' => a :: set_nth s' i' v
  end.

Definition store {A} (s : list A) (i : Z) (v : A) : M (list A) :=
  if (0 <=? i) && (i <? len s) then ret (set_nth s (Z.to_nat i) v) else panic.

Module WKBPoint.

Record t := mk { x : float64; y : float64 }.

Definition zero : t := mk (Float64frombits 0) (Float64frombits 0).

Definition set_x (v : float64) (p : t) : t := mk v (y p).
Definition set_y (v : float64) (p : t) : t := mk (x p) v.

(** Returns the number of bytes consumed. *)
Definition Init (p : t) (bytes : buf) (byteOrder : Z) : M (t * Z) :=
  (if negb (len bytes =? 16) then log_Fatal (PointNeedBytes (len bytes)) else ret tt) ;;;
  w <- slice bytes 0 8 ;;
  v <- bytesToFloat64 w byteOrder ;;
  let p := set_x v p in
  w <- slice bytes 8 16 ;;
  v <- bytesToFloat64 w byteOrder ;;
  let p := set_y v p in
  ret (p, 16).

End WKBPoint.

Module WKBLinearRing.

Record t := mk { numPoints : Z; points : list WKBPoint.t }.

Definition zero : t := mk 0 [].

Definition set_numPoints (v : Z) (lr : t) : t := mk v (points lr).
Definition set_points (v : list WKBPoint.t) (lr : t) : t := mk (numPoints lr) v.

(** [for p := uint32(0); p < lr.numPoints; p++]: [todo] counts the
    iterations left, [numPoints - p]. *)
Fixpoint Init_loop (bytes : buf) (byteOrder : Z) (todo : nat)
         (p i : Z) (lr : t) : M (t * Z) :=
  match todo with
  | O => ret (lr, i)
  | S todo' =>
    pt <- index (points lr) p ;;
    w <- slice bytes i (i + 16) ;;
    '(pt, _) <- WKBPoint.Init pt w byteOrder ;;
    pts <- store (points lr) p pt ;;
    Init_loop bytes byteOrder todo' (p + 1) (i + 16) (set_points pts lr)
  end.

(** Returns the number of bytes consumed. *)
Definition Init (lr : t) (bytes : buf) (byteOrder : Z) : M (t * Z) :=
  (if len bytes <? 4 then log_Fatal (RingNeedBytes (len bytes)) else ret tt) ;;;
  let i := 0 in
  w <- slice bytes i 4 ;;
  n <- bytesToUint32 w byteOrder ;;
  let lr := set_numPoints n lr in
  let lr := set_points (make WKBPoint.zero (numPoints lr)) lr in
  let i := i + 4 in
  Init_loop bytes byteOrder (Z.to_nat (numPoints lr)) 0 i lr.

End WKBLinearRing.

(** Map WKBGeometry flag for type to GoLang type.  A Go map read gives the
    zero value for a key that is absent. *)
Definition WKBTypeFlags : list (string * Z) :=
  [ ("Geometry", 0); ("Point", 1); ("LineString", 2); ("WKBPolygon", 3);
    ("MultiPoint", 4); ("MultiLineString", 5); ("MultiPolygon", 6);
    ("GeometryCollection", 7) ]%string.

Fixpoint map_get (m : list (string * Z)) (k : string) : Z :=
  match m with
  | [] => 0
  | (k', v) :: m' => if String.eqb k k' then v else map_get m' k
  end.

Module WKBPolygon.

Record t := mk
  { byteOrder : byte; wkbType : Z; numRings : Z; rings : list WKBLinearRing.t }.

(** [new(WKBPolygon)] *)
Definition zero : t := mk x00 0 0 [].

Definition set_byteOrder (v : byte) (p : t) : t :=
  mk v (wkbType p) (numRings p) (rings p).
Definition set_wkbType (v : Z) (p : t) : t :=
  mk (byteOrder p) v (numRings p) (rings p).
Definition set_rings (v : list WKBLinearRing.t) (p : t) : t :=
  mk (byteOrder p) (wkbType p) (numRings p) v.

(** [for j := uint32(0); j < numRings; j++] *)
Fixpoint Init_loop (bytes : buf) (order : Z) (todo : nat)
         (j i : Z) (p : t) : M (t * Z) :=
  match todo with
  | O => ret (p, i)
  | S todo' =>
    r <- index (rings p) j ;;
    w <- slice_from bytes i ;;
    '(r, bytesConsumed) <- WKBLinearRing.Init r w order ;;
    rs <- store (rings p) j r ;;
    Init_loop bytes order todo' (j + 1) (i + bytesConsumed) (set_rings rs p)
  end.

(** Returns the number of bytes consumed. *)
Definition Init (p : t) (bytes : buf) : M (t * Z) :=
  let i := 0 in
  b <- index bytes i ;;
  let i := i + 1 in
  let p := set_byteOrder b p in
  w <- slice bytes i (i + 4) ;;
  ty <- bytesToUint32 w (b2z b) ;;
  let polygonType := map_get WKBTypeFlags "WKBPolygon" in
  (if negb (ty =? polygonType)
   then log_Fatal (ExpectedPolygonFlag polygonType ty) else ret tt) ;;;
  let p := set_wkbType ty p in
  let i := i + 4 in
  w <- slice bytes i (i + 4) ;;
  n <- bytesToUint32 w (b2z b) ;;
  let p := set_rings (make WKBLinearRing.zero n) p in
  let i := i + 4 in
  Init_loop bytes (b2z b) (Z.to_nat n) 0 i p.

(** [Type()]; [Type] is reserved in Rocq. *)
Definition Type' (p : t) : Z := wkbType p.

End WKBPolygon.

(** The interface [WKBGeometry]: [*WKBPolygon] is its only implementation. *)
Class WKBGeometryMethods (G : Type) :=
  { geomInit : G -> buf -> M (G * Z);
    geomType : G -> Z }.

#[export] Instance WKBPolygon_methods : WKBGeometryMethods WKBPolygon.t :=
  { geomInit := WKBPolygon.Init; geomType := WKBPolygon.Type' }.

(** A non-nil interface value. *)
Inductive WKBGeometry :=
| IsPolygon (p : WKBPolygon.t).

#[export] Instance WKBGeometry_methods : WKBGeometryMethods WKBGeometry :=
  { geomInit g bytes :=
      match g with
      | IsPolygon p => '(p, n) <- geomInit p bytes ;; ret (IsPolygon p, n)
      end;
    geomType g := match g with IsPolygon p => geomType p end }.

(** [nil] is [None]. *)
Definition newWKBGeometry (geomType : Z) : M (option WKBGeometry) :=
  match geomType with
  | 3 => ret (Some (IsPolygon WKBPolygon.zero))
  | _ =>
    logAt Error (UnimplementedGeomType geomType) ;;;
    ret None
  end.

(** Returns number of bytes consumed. *)
Definition readNextGeometry (bytes : buf) : M (option WKBGeometry * Z) :=
  if len bytes =? 0 then ret (None, 0)
  else
    b <- index bytes 0 ;;
    w <- slice bytes 1 5 ;;
    geomType <- bytesToUint32 w (b2z b) ;;
    newGeom <- newWKBGeometry geomType ;;
    match newGeom with
    | None => log_Fatal (NilGeometry geomType)
    | Some g =>
      '(g, bytesConsumed) <- geomInit g bytes ;;
      ret (Some g, bytesConsumed)
    end.

(** [for i < byteCount]: the loop of [readGeometries], with fuel. *)
Fixpoint readGeometries_loop (fuel : nat) (bytes : buf) (byteCount i : Z)
         (geoms : list WKBGeometry) : M (list WKBGeometry * Z) :=
  if i <? byteCount then
    match fuel with
    | O => ([], Stop OutOfFuel)
    | S fuel' =>
      w <- slice_from bytes i ;;
      '(geom, bytesConsumed) <- readNextGeometry w ;;
      let i := i + bytesConsumed in
      let geoms := match geom with Some g => geoms ++ [g] | None => geoms end in
      readGeometries_loop fuel' bytes byteCount i geoms
    end
  else ret (geoms, i).

(** Returns an array of WKBGeometry instances and the number of bytes
    consumed.  The nil slice [geoms] starts as the empty list. *)
Definition readGeometries (bytes : buf) : M (list WKBGeometry * Z) :=
  let geoms := [] in
  let i := 0 in
  let byteCount := len bytes in
  logAt Info (ReadingGeometries (len bytes)) ;;;
  '(geoms, i) <- readGeometries_loop (S (length bytes)) bytes byteCount i geoms ;;
  (if negb (i =? byteCount)
   then logAt Warn (ConsumedMismatch i byteCount) else ret tt) ;;;
  ret (geoms, i).

(** ** Header parser *)

Module GeoPackageBinaryHeader.

(** See: http://www.geopackage.org/spec/
    The slice [envelope] is [None] while it is nil. *)
Record t := mk
  { initialized : bool;
    magic : Z;       (* should be 0x4750 (18256) *)
    version : Z;
    flags : Z;
    flagsReady : bool;
    srs_id : Z;
    envelope : option (list float64);
    headerSize : Z   (* total bytes in header *) }.

(** [new(GeoPackageBinaryHeader)] or [var h GeoPackageBinaryHeader]. *)
Definition zero : t := mk false 0 0 0 false 0 None 0.

Definition set_initialized (v : bool) (h : t) : t :=
  mk v (magic h) (version h) (flags h) (flagsReady h) (srs_id h) (envelope h) (headerSize h).
Definition set_magic (v : Z) (h : t) : t :=
  mk (initialized h) v (version h) (flags h) (flagsReady h) (srs_id h) (envelope h) (headerSize h).
Definition set_version (v : Z) (h : t) : t :=
  mk (initialized h) (magic h) v (flags h) (flagsReady h) (srs_id h) (envelope h) (headerSize h).
Definition set_flags (v : Z) (h : t) : t :=
  mk (initialized h) (magic h) (version h) v (flagsReady h) (srs_id h) (envelope h) (headerSize h).
Definition set_flagsReady (v : bool) (h : t) : t :=
  mk (initialized h) (magic h) (version h) (flags h) v (srs_id h) (envelope h) (headerSize h).
Definition set_srs_id (v : Z) (h : t) : t :=
  mk (initialized h) (magic h) (version h) (flags h) (flagsReady h) v (envelope h) (headerSize h).
Definition set_envelope (v : option (list float64)) (h : t) : t :=
  mk (initialized h) (magic h) (version h) (flags h) (flagsReady h) (srs_id h) v (headerSize h).
Definition set_headerSize (v : Z) (h : t) : t :=
  mk (initialized h) (magic h) (version h) (flags h) (flagsReady h) (srs_id h) (envelope h) v.

Definition isInitialized (h : t) (caller : string) : M bool :=
  if negb (initialized h) then
    logAt Error (NotInitialized caller) ;;;
    ret false
  else ret true.

(**  0: no envelope (space saving slower indexing option), 0 bytes
     1: envelope is [minx, maxx, miny, maxy], 32 bytes
     2: envelope is [minx, maxx, miny, maxy, minz, maxz], 48 bytes
     3: envelope is [minx, maxx, miny, maxy, minm, maxm], 48 bytes
     4: envelope is [minx, maxx, miny, maxy, minz, maxz, minm, maxm], 64 bytes
     5-7: invalid *)
Definition EnvelopeType (h : t) : M Z :=
  if flagsReady h then ret (Z.shiftr (Z.land (flags h) 14) 1)
  else
    logAt Error FlagsNotReady ;;;
    ret 0.

(** [h.envelope[k] = bytesToFloat64(geom[lo:hi], order)] *)
Definition fill (geom : buf) (order : Z) (k lo hi : Z) (h : t) : M t :=
  w <- slice geom lo hi ;;
  v <- bytesToFloat64 w order ;;
  match envelope h with
  | None => panic
  | Some e => e' <- store e k v ;; ret (set_envelope (Some e') h)
  end.

Definition make_envelope (n : Z) : option (list float64) :=
  Some (make (Float64frombits 0) n).

(** [Init] is one function in the source; its three blocks are named here
    so that each can be stated on its own.  First block: the two magic
    bytes, read in an order picked by the header byte order. *)
Definition Init_magic (geom : buf) (headerByteOrder : Z) : M Z :=
  let littleEndian := 1 in
  if headerByteOrder =? littleEndian then
    g0 <- index geom 0 ;;
    let magic := to_uint16 (Z.shiftl (b2z g0) 8) in
    g1 <- index geom 1 ;;
    ret (Z.lor magic (b2z g1))
  else
    g1 <- index geom 1 ;;
    let magic := to_uint16 (Z.shiftl (b2z g1) 8) in
    g0 <- index geom 0 ;;
    ret (Z.lor magic (b2z g0)).

(** Second block: [srs_id], decoded with [wkbNDR] and decoded again when
    the value is outside 0..9999. *)
Definition Init_srs_id (h : t) (geom : buf) (headerByteOrder : Z) : M t :=
  let littleEndian := 1 in
  let bigEndian := 0 in
  w <- slice geom 4 8 ;;
  v <- bytesToInt32 w wkbNDR ;;
  let h := set_srs_id v h in
  if (srs_id h <? 0) || (srs_id h >? 9999) then
    let newByteOrder := littleEndian in
    let newByteOrder :=
      if newByteOrder =? headerByteOrder then bigEndian else newByteOrder in
    logAt Error (SrsIdLooksInvalid (srs_id h) headerByteOrder) ;;;
    logAt Error (SrsIdTryingAgain newByteOrder) ;;;
    w <- slice geom 4 8 ;;
    v <- bytesToInt32 w newByteOrder ;;
    let h := set_srs_id v h in
    if (srs_id h <? 0) || (srs_id h >? 9999) then
      logAt Error (SrsIdStillInvalid (srs_id h)) ;;;
      ret (set_srs_id 0 h)
    else
      logAt Error (SrsIdLooksValid (srs_id h)) ;;;
      ret h
  else ret h.

(** Third block: the [switch eType], which returns the header with its
    envelope and the header size [hSize]. *)
Definition Init_envelope (h : t) (geom : buf) (headerByteOrder eType : Z)
  : M (t * Z) :=
  let hSize := 8 in
  let float64size := 8 in
  match eType with
  | 0 =>
    ret (set_envelope (make_envelope 0) h, hSize)
  | 1 =>
    let h := set_envelope (make_envelope 4) h in
    let hSize := hSize + 4 * float64size in
    h <- fill geom headerByteOrder 0 8 16 h ;;
    h <- fill geom headerByteOrder 1 16 24 h ;;
    h <- fill geom headerByteOrder 2 24 32 h ;;
    h <- fill geom headerByteOrder 3 32 40 h ;;
    ret (h, hSize)
  | 2 =>
    let h := set_envelope (make_envelope 6) h in
    let hSize := hSize + 6 * float64size in
    h <- fill geom headerByteOrder 0 8 16 h ;;
    h <- fill geom headerByteOrder 1 16 24 h ;;
    h <- fill geom headerByteOrder 2 24 32 h ;;
    h <- fill geom headerByteOrder 3 32 40 h ;;
    h <- fill geom headerByteOrder 4 40 48 h ;;
    h <- fill geom headerByteOrder 5 48 56 h ;;
    ret (h, hSize)
  | 3 =>
    let h := set_envelope (make_envelope 6) h in
    let hSize := hSize + 6 * float64size in
    h <- fill geom headerByteOrder 0 8 16 h ;;
    h <- fill geom headerByteOrder 1 16 24 h ;;
    h <- fill geom headerByteOrder 2 24 32 h ;;
    h <- fill geom headerByteOrder 3 32 40 h ;;
    h <- fill geom headerByteOrder 4 40 48 h ;;
    h <- fill geom headerByteOrder 5 48 56 h ;;
    ret (h, hSize)
  | 4 =>
    let h := set_envelope (make_envelope 8) h in
    let hSize := hSize + 8 * float64size in
    h <- fill geom headerByteOrder 0 8 16 h ;;
    h <- fill geom headerByteOrder 1 16 24 h ;;
    h <- fill geom headerByteOrder 2 24 32 h ;;
    h <- fill geom headerByteOrder 3 32 40 h ;;
    h <- fill geom headerByteOrder 4 40 48 h ;;
    h <- fill geom headerByteOrder 5 48 56 h ;;
    h <- fill geom headerByteOrder 6 56 64 h ;;
    h <- fill geom headerByteOrder 7 64 72 h ;;
    ret (h, hSize)
  | _ =>
    logAt Error (InvalidEnvelopeType eType) ;;;
    ret (set_envelope (make_envelope 0) h, hSize)
  end.

Definition Init (h : t) (geom : buf) : M t :=
  b <- index geom 3 ;;
  let h := set_flags (b2z b) h in
  let h := set_flagsReady true h in
  let headerByteOrder := Z.land (flags h) 1 in
  magic <- Init_magic geom headerByteOrder ;;
  let h := set_magic magic h in
  g2 <- index geom 2 ;;
  let h := set_version (b2z g2) h in
  h <- Init_srs_id h geom headerByteOrder ;;
  eType <- EnvelopeType h ;;
  '(h, hSize) <- Init_envelope h geom headerByteOrder eType ;;
  let h := set_headerSize hSize h in
  logAt Debug (HeaderSizes hSize (len geom)) ;;;
  let h := set_initialized true h in
  ret h.

Definition Magic (h : t) : M Z :=
  ok <- isInitialized h "Magic()" ;;
  if ok then ret (magic h) else ret 0.

Definition Version (h : t) : M Z :=
  ok <- isInitialized h "Version()" ;;
  if ok then ret (version h) else ret 0.

Definition SRSId (h : t) : M Z :=
  ok <- isInitialized h "SRSId()" ;;
  if ok then ret (srs_id h) else ret (-1).

Definition Envelope (h : t) : M (option (list float64)) :=
  ok <- isInitialized h "Envelope()" ;;
  if ok then ret (envelope h) else ret None.

Definition Size (h : t) : M Z :=
  ok <- isInitialized h "Size()" ;;
  if ok then ret (headerSize h) else ret (-1).

End GeoPackageBinaryHeader.

(** * Definitions for the statements *)

(** ** Sample blobs *)

(** A ring of one point, (0, 1), and the polygon of that ring. *)
Definition one_point_ring : list byte :=
  [ x01; x00; x00; x00;
    x00; x00; x00; x00; x00; x00; x00; x00;  x00; x00; x00; x00; x00; x00; xf0; x3f ]%byte.

Definition one_ring_polygon : list byte :=
  [ x01;  x03; x00; x00; x00;  x01; x00; x00; x00 ]%byte ++ one_point_ring.

(** A header with envelope type 1, srs_id 3857 and envelope [0, 1, 0, 1]. *)
Definition header_type1 : list byte :=
  [ x47; x50; x00; x03;  x11; x0f; x00; x00;
    x00; x00; x00; x00; x00; x00; x00; x00;  x00; x00; x00; x00; x00; x00; xf0; x3f;
    x00; x00; x00; x00; x00; x00; x00; x00;  x00; x00; x00; x00; x00; x00; xf0; x3f ]%byte.

(** The header [header_type1] followed by a polygon with one ring of four
    points, the corners (0,0), (1,0), (1,1) and (0,1). *)
Definition unit_square_feature : list byte :=
  header_type1 ++
  [ x01;  x03; x00; x00; x00;  x01; x00; x00; x00;  x04; x00; x00; x00;
    x00; x00; x00; x00; x00; x00; x00; x00;  x00; x00; x00; x00; x00; x00; x00; x00;
    x00; x00; x00; x00; x00; x00; xf0; x3f;  x00; x00; x00; x00; x00; x00; x00; x00;
    x00; x00; x00; x00; x00; x00; xf0; x3f;  x00; x00; x00; x00; x00; x00; xf0; x3f;
    x00; x00; x00; x00; x00; x00; x00; x00;  x00; x00; x00; x00; x00; x00; xf0; x3f
  ]%byte.

(** ** What the scalar and header decoders compute *)

(** The value [bytesToInt32] computes from a window of four bytes. *)
Definition int32_of (b0 b1 b2 b3 : byte) (byteOrder : Z) : Z :=
  let le := or_int32 (shl8_int32 (or_int32 (shl8_int32 (or_int32 (shl8_int32
              (b2z b3)) (b2z b2))) (b2z b1))) (b2z b0) in
  let be := or_int32 (shl8_int32 (or_int32 (shl8_int32 (or_int32 (shl8_int32
              (b2z b0)) (b2z b1))) (b2z b2))) (b2z b3) in
  if byteOrder =? wkbNDR then le else if byteOrder =? wkbXDR then be else 0.

Module Import HeaderModel.

Import GeoPackageBinaryHeader.

(** What the three blocks of [Init] compute, as functions of the bytes. *)
Definition magic_of (g0 g1 : byte) (headerByteOrder : Z) : Z :=
  if headerByteOrder =? 1
  then Z.lor (to_uint16 (Z.shiftl (b2z g0) 8)) (b2z g1)
  else Z.lor (to_uint16 (Z.shiftl (b2z g1) 8)) (b2z g0).

Definition implausible (srs : Z) : bool := (srs <? 0) || (srs >? 9999).

Definition retry_order (headerByteOrder : Z) : Z :=
  if 1 =? headerByteOrder then 0 else 1.

Definition srs_of (s0 s1 s2 s3 : byte) (headerByteOrder : Z) : Z :=
  let first := int32_of s0 s1 s2 s3 wkbNDR in
  if implausible first then
    let second := int32_of s0 s1 s2 s3 (retry_order headerByteOrder) in
    if implausible second then 0 else second
  else first.

Definition envelope_count (eType : Z) : Z :=
  match eType with
  | 1 => 4
  | 2 | 3 => 6
  | 4 => 8
  | _ => 0
  end.

Definition eType_of (flagsByte : byte) : Z :=
  Z.shiftr (Z.land (b2z flagsByte) 14) 1.

(** What the [switch eType] logs. *)
Definition envelope_log (eType : Z) : list event :=
  if (0 <=? eType) && (eType <=? 4) then []
  else [(Error, InvalidEnvelopeType eType)].

(** A header that differs from [h0] in its envelope only, which holds [n]
    doubles. *)
Definition envelope_set (n : Z) (h0 h : t) : Prop :=
  exists e, h = set_envelope (Some e) h0 /\ len e = n.

(** The header [Init] leaves behind on a blob that is long enough. *)
Definition decoded (g0 g1 g2 g3 s0 s1 s2 s3 : byte) (e : list float64) : t :=
  let o := Z.land (b2z g3) 1 in
  mk true (magic_of g0 g1 o) (b2z g2) (b2z g3) true (srs_of s0 s1 s2 s3 o)
     (Some e) (8 + 8 * envelope_count (eType_of g3)).

End HeaderModel.

(** ** Well-formed polygon blobs *)

(** The layout of a single-polygon blob, in the words of the specification:
    a byte-order flag that is 0 or 1, the type code 3, the ring count, and
    for each ring its point count [m] and [16 * m] bytes of points; nothing
    else.  [ms] lists the point counts of the rings. *)
Inductive wf_rings (order : Z) : list Z -> list byte -> Prop :=
| wf_rings_nil : wf_rings order [] []
| wf_rings_cons (m : Z) (ms : list Z) (count pts rest : list byte) :
    bytesToUint32 count order = ret m ->
    len pts = 16 * m ->
    wf_rings order ms rest ->
    wf_rings order (m :: ms) (count ++ pts ++ rest).

Definition wf_polygon_blob (ms : list Z) (blob : list byte) : Prop :=
  exists (flag : byte) (ty cnt body : list byte),
    blob = flag :: ty ++ cnt ++ body /\
    (b2z flag = wkbXDR \/ b2z flag = wkbNDR) /\
    bytesToUint32 ty (b2z flag) = ret 3 /\
    bytesToUint32 cnt (b2z flag) = ret (len ms) /\
    wf_rings (b2z flag) ms body.

(** 9 + the sum of 4 + 16 * m over the rings. *)
Definition blob_size (ms : list Z) : Z :=
  9 + fold_right (fun m acc => 4 + 16 * m + acc) 0 ms.

(** The bytes of a uint32 in a byte order, and a blob written from the
    content of its rings. *)
Definition z2b (z : Z) : byte :=
  match Byte.of_N (Z.to_N (z mod 256)) with
  | Some b => b
  | None => x00
  end.

Definition put_uint32 (order n : Z) : list byte :=
  let b0 := z2b n in
  let b1 := z2b (n / 2 ^ 8) in
  let b2 := z2b (n / 2 ^ 16) in
  let b3 := z2b (n / 2 ^ 24) in
  if order =? wkbNDR then [b0; b1; b2; b3] else [b3; b2; b1; b0].

(** A ring from the bytes of its points, and a polygon from its rings. *)
Definition ring_bytes (order : Z) (payload : list byte) : list byte :=
  put_uint32 order (len payload / 16) ++ payload.

Definition polygon_blob (flag : byte) (payloads : list (list byte)) : list byte :=
  flag :: put_uint32 (b2z flag) 3
       ++ put_uint32 (b2z flag) (len payloads)
       ++ concat (map (ring_bytes (b2z flag)) payloads).

(** ** Windows of a backing array *)

(** The elements [lo .. hi] of a list, when the list has that many. *)
Definition window {A} (s : list A) (lo hi : Z) : option (list A) :=
  if (0 <=? lo) && (lo <=? hi) && (hi <=? len s)
  then Some (firstn (Z.to_nat (hi - lo)) (skipn (Z.to_nat lo) s))
  else None.

(** ** Writing points, rings and polygons *)

(** The eight bytes of a uint64 in a byte order. *)
Definition put_uint64 (order n : Z) : list byte :=
  let b k := z2b (n / 2 ^ (8 * k)) in
  if order =? wkbNDR
  then [b 0; b 1; b 2; b 3; b 4; b 5; b 6; b 7]
  else [b 7; b 6; b 5; b 4; b 3; b 2; b 1; b 0].

Definition put_float64 (order : Z) (v : float64) : list byte :=
  put_uint64 order (Float64bits v).

Definition put_point (order : Z) (p : WKBPoint.t) : list byte :=
  put_float64 order (WKBPoint.x p) ++ put_float64 order (WKBPoint.y p).

Definition put_ring (order : Z) (pts : list WKBPoint.t) : list byte :=
  put_uint32 order (len pts) ++ concat (map (put_point order) pts).

Definition put_polygon (flag : byte) (rings : list (list WKBPoint.t)) : list byte :=
  flag :: put_uint32 (b2z flag) 3
       ++ put_uint32 (b2z flag) (len rings)
       ++ concat (map (put_ring (b2z flag)) rings).

(** A float64 is 64 bits; the counts of a blob are uint32. *)
Definition float64_ok (v : float64) : Prop := 0 <= Float64bits v < 2 ^ 64.

Definition point_ok (p : WKBPoint.t) : Prop :=
  float64_ok (WKBPoint.x p) /\ float64_ok (WKBPoint.y p).

Definition ring_ok (pts : list WKBPoint.t) : Prop :=
  len pts < 2 ^ 32 /\ Forall point_ok pts.

Definition rings_ok (rings : list (list WKBPoint.t)) : Prop :=
  len rings < 2 ^ 32 /\ Forall ring_ok rings.

(** The ring and the polygon a decode builds from points. *)
Definition ring_of (pts : list WKBPoint.t) : WKBLinearRing.t :=
  WKBLinearRing.mk (len pts) pts.

Definition polygon_of (p0 : WKBPolygon.t) (flag : byte)
           (rings : list (list WKBPoint.t)) : WKBPolygon.t :=
  WKBPolygon.mk flag 3 (WKBPolygon.numRings p0) (map ring_of rings).

(** The point count of each of the rings lies within the first [n] bytes of
    a buffer in which the first of them starts at byte [i]. *)
Fixpoint counts_in_view (i : Z) (rings : list (list WKBPoint.t)) (n : Z) : Prop :=
  match rings with
  | [] => True
  | r :: rings' => i + 4 <= n /\ counts_in_view (i + (4 + 16 * len r)) rings' n
  end.

(** A stream of polygons, each with its own byte-order flag. *)
Definition polygon_ok (fp : byte * list (list WKBPoint.t)) : Prop :=
  (b2z (fst fp) = wkbXDR \/ b2z (fst fp) = wkbNDR) /\ rings_ok (snd fp).

Definition put_stream (polys : list (byte * list (list WKBPoint.t))) : list byte :=
  concat (map (fun fp => put_polygon (fst fp) (snd fp)) polys).

Definition geometries_of (polys : list (byte * list (list WKBPoint.t)))
  : list WKBGeometry :=
  map (fun fp => IsPolygon (polygon_of WKBPolygon.zero (fst fp) (snd fp))) polys.

(** ** The envelope of a header *)

(** The double a window decodes to, and the doubles of the windows of 8 bytes
    that follow the first 8 bytes of a blob. *)
Definition float64_of (order : Z) (w : list byte) : float64 :=
  match returned (bytesToFloat64 w order) with
  | Some v => v
  | None => Float64frombits 0
  end.

Definition envelope_of (geom : list byte) (order : Z) (count : nat) : list float64 :=
  map (fun k => float64_of order (firstn 8 (skipn (8 + 8 * k) geom))) (seq 0 count).

(** What the second block of [Init] logs. *)
Definition srs_log (s0 s1 s2 s3 : byte) (headerByteOrder : Z) : list event :=
  let first := int32_of s0 s1 s2 s3 wkbNDR in
  if implausible first then
    let second := int32_of s0 s1 s2 s3 (retry_order headerByteOrder) in
    [(Error, SrsIdLooksInvalid first headerByteOrder);
     (Error, SrsIdTryingAgain (retry_order headerByteOrder));
     (Error, if implausible second
             then SrsIdStillInvalid second else SrsIdLooksValid second)]
  else [].

(** ** Fuel *)

(** [OutOfFuel] belongs to the model of the loop of [readGeometries] alone:
    no other function of the decoder stops with it. *)
Definition fuel_free {A} (m : M A) : Prop := snd m <> Stop OutOfFuel.

(** * Properties *)

(** ** The monad *)

Lemma bind_ret_l {A B} (a : A) (k : A -> M B) : bind (ret a) k = k a.
Proof. unfold bind, ret. destruct (k a); reflexivity. Qed.

Lemma bind_Ret {A B} (l : list event) (a : A) (k : A -> M B) :
  bind (l, Ret a) k = (l ++ fst (k a), snd (k a)).
Proof. unfold bind. destruct (k a); reflexivity. Qed.

Lemma bind_Stop {A B} (l : list event) (s : stop) (k : A -> M B) :
  bind (l, Stop s) k = (l, Stop s).
Proof. reflexivity. Qed.

Lemma bind_Ret_inv {A B} (m : M A) (k : A -> M B) (l : list event) (b : B) :
  bind m k = (l, Ret b) ->
  exists l1 a l2, m = (l1, Ret a) /\ k a = (l2, Ret b) /\ l = l1 ++ l2.
Proof.
  destruct m as [l1 [a|s]]; simpl.
  - destruct (k a) as [l2 r] eqn:E. intros H. inversion H; subst.
    exists l1, a, l2. auto.
  - discriminate.
Qed.

Lemma ret_inv {A} (a b : A) (l : list event) : ret a = (l, Ret b) -> l = [] /\ a = b.
Proof. unfold ret. intros H. inversion H. auto. Qed.

(** ** Bytes and slices *)

Lemma b2z_range (b : byte) : 0 <= b2z b < 256.
Proof. unfold b2z. pose proof (Byte.to_N_bounded b). lia. Qed.

Lemma len_nonneg {A} (s : list A) : 0 <= len s.
Proof. unfold len. lia. Qed.

Lemma len_app {A} (s s' : list A) : len (s ++ s') = len s + len s'.
Proof. unfold len. rewrite length_app. lia. Qed.

Lemma len_cons {A} (a : A) (s : list A) : len (a :: s) = 1 + len s.
Proof. unfold len. simpl length. lia. Qed.

Lemma window_ok {A} (s : list A) (lo hi : Z) :
  0 <= lo <= hi -> hi <= len s ->
  window s lo hi = Some (firstn (Z.to_nat (hi - lo)) (skipn (Z.to_nat lo) s)).
Proof.
  intros H1 H2. unfold window.
  replace (0 <=? lo) with true by (symmetry; apply Z.leb_le; lia).
  replace (lo <=? hi) with true by (symmetry; apply Z.leb_le; lia).
  replace (hi <=? len s) with true by (symmetry; apply Z.leb_le; lia).
  reflexivity.
Qed.

Lemma window_inv {A} (s : list A) (lo hi : Z) (w : list A) :
  window s lo hi = Some w ->
  0 <= lo <= hi /\ hi <= len s /\
  w = firstn (Z.to_nat (hi - lo)) (skipn (Z.to_nat lo) s) /\ len w = hi - lo.
Proof.
  unfold window.
  destruct (0 <=? lo) eqn:E1; [|discriminate].
  destruct (lo <=? hi) eqn:E2; [|discriminate].
  destruct (hi <=? len s) eqn:E3; [|discriminate].
  simpl. intros H. injection H as <-.
  apply Z.leb_le in E1, E2, E3.
  repeat split; try lia.
  unfold len in *. rewrite length_firstn, length_skipn. lia.
Qed.

Lemma window_app_l {A} (s s' : list A) :
  window (s ++ s') 0 (len s) = Some s.
Proof.
  rewrite window_ok by (rewrite ?len_app; pose proof (len_nonneg s); pose proof (len_nonneg s'); lia).
  unfold len. rewrite Z.sub_0_r, Nat2Z.id. simpl skipn.
  rewrite firstn_app, firstn_all, Nat.sub_diag. simpl. rewrite app_nil_r. reflexivity.
Qed.

Lemma window_app_mid {A} (s0 s s' : list A) (lo hi : Z) :
  lo = len s0 -> hi = len s0 + len s ->
  window (s0 ++ s ++ s') lo hi = Some s.
Proof.
  intros -> ->.
  rewrite window_ok by (rewrite ?len_app; pose proof (len_nonneg s0);
    pose proof (len_nonneg s); pose proof (len_nonneg s'); lia).
  unfold len. replace (Z.of_nat (length s0) + Z.of_nat (length s) - Z.of_nat (length s0))
    with (Z.of_nat (length s)) by lia.
  rewrite !Nat2Z.id, skipn_app, skipn_all, Nat.sub_diag. simpl.
  rewrite firstn_app, firstn_all, Nat.sub_diag. simpl. rewrite app_nil_r. reflexivity.
Qed.

Lemma skipn_app_mid {A} (s0 s s' : list A) :
  skipn (Z.to_nat (len s0 + len s)) (s0 ++ s ++ s') = s'.
Proof.
  unfold len. rewrite app_assoc.
  replace (Z.to_nat (Z.of_nat (length s0) + Z.of_nat (length s)))
    with (length (s0 ++ s)) by (rewrite length_app; lia).
  rewrite skipn_app, skipn_all, Nat.sub_diag. reflexivity.
Qed.

Lemma cap_array (s : buf) : cap s = len (array s).
Proof. unfold cap, array. rewrite len_app. reflexivity. Qed.

Lemma len_le_cap (s : buf) : len s <= cap s.
Proof. unfold cap. pose proof (len_nonneg (spare s)). lia. Qed.

(** A slice expression takes a window of the backing array. *)
Lemma slice_window (s : buf) (lo hi : Z) (w : list byte) :
  window (array s) lo hi = Some w ->
  slice s lo hi = ret (Buf w (skipn (Z.to_nat hi) (array s))).
Proof.
  unfold window, slice. rewrite cap_array.
  destruct ((0 <=? lo) && (lo <=? hi) && (hi <=? len (array s))); [|discriminate].
  intros H. injection H as <-. reflexivity.
Qed.

Lemma slice_ok (s : buf) (lo hi : Z) :
  0 <= lo <= hi -> hi <= cap s ->
  slice s lo hi = ret (Buf (firstn (Z.to_nat (hi - lo)) (skipn (Z.to_nat lo) (array s)))
                           (skipn (Z.to_nat hi) (array s))).
Proof.
  intros H1 H2. apply slice_window. apply window_ok; [assumption|].
  rewrite <- cap_array. assumption.
Qed.

Lemma slice_inv (s : buf) (lo hi : Z) (l : list event) (w : buf) :
  slice s lo hi = (l, Ret w) ->
  l = [] /\ 0 <= lo <= hi /\ hi <= cap s /\
  window (array s) lo hi = Some (view w) /\
  spare w = skipn (Z.to_nat hi) (array s) /\ len w = hi - lo.
Proof.
  unfold slice.
  destruct ((0 <=? lo) && (lo <=? hi) && (hi <=? cap s)) eqn:B; [|discriminate].
  intros H. apply ret_inv in H. destruct H as [-> <-]. cbn [view spare].
  assert (W : window (array s) lo hi
              = Some (firstn (Z.to_nat (hi - lo)) (skipn (Z.to_nat lo) (array s)))).
  { unfold window. rewrite <- cap_array, B. reflexivity. }
  destruct (window_inv _ _ _ _ W) as (H1 & H2 & _ & H3).
  rewrite cap_array.
  split; [reflexivity|]. split; [assumption|]. split; [assumption|].
  split; [exact W|]. split; [reflexivity|exact H3].
Qed.

(** The slice of a buffer whose backing array is laid out as [s0 ++ w ++ s']. *)
Lemma slice_array (s : buf) (s0 w s' : list byte) (lo hi : Z) :
  array s = s0 ++ w ++ s' -> lo = len s0 -> hi = len s0 + len w ->
  slice s lo hi = ret (Buf w s').
Proof.
  intros Ha -> ->. rewrite (slice_window s _ _ w).
  - rewrite Ha, skipn_app_mid. reflexivity.
  - rewrite Ha. apply window_app_mid; reflexivity.
Qed.

(** [s[lo:]] keeps the spare bytes and drops [lo] bytes of the view. *)
Lemma slice_from_ok (s : buf) (s0 v : list byte) (lo : Z) :
  view s = s0 ++ v -> lo = len s0 ->
  slice_from s lo = ret (Buf v (spare s)).
Proof.
  intros Hv ->. unfold slice_from.
  apply (slice_array s s0 v (spare s));
    [unfold array; rewrite Hv, <- app_assoc; reflexivity|reflexivity|].
  rewrite Hv, len_app. reflexivity.
Qed.

Lemma slice_from_inv (s : buf) (lo : Z) (l : list event) (w : buf) :
  slice_from s lo = (l, Ret w) ->
  l = [] /\ 0 <= lo <= len s /\
  view w = skipn (Z.to_nat lo) (view s) /\ spare w = spare s /\
  array w = skipn (Z.to_nat lo) (array s) /\
  len w = len s - lo /\ cap w = cap s - lo.
Proof.
  unfold slice_from. intros H. apply slice_inv in H.
  destruct H as (-> & Hlo & _ & Hw & Hs & Hl).
  apply window_inv in Hw. destruct Hw as (_ & _ & Hw & _).
  assert (Hview : view w = skipn (Z.to_nat lo) (view s)).
  { rewrite Hw. unfold array. rewrite skipn_app, firstn_app.
    replace (Z.to_nat (len s - lo) - length (skipn (Z.to_nat lo) (view s)))%nat
      with 0%nat by (rewrite length_skipn; unfold len; lia).
    rewrite firstn_O, app_nil_r. apply firstn_all2.
    rewrite length_skipn. unfold len. lia. }
  assert (Hspare : spare w = spare s).
  { rewrite Hs. unfold array, len. rewrite Nat2Z.id, skipn_app, skipn_all, Nat.sub_diag.
    reflexivity. }
  split; [reflexivity|]. split; [assumption|]. split; [assumption|].
  split; [assumption|]. split; [|split; [assumption|]].
  - unfold array. rewrite Hview, Hspare, skipn_app.
    replace (Z.to_nat lo - length (view s))%nat with 0%nat by (unfold len in *; lia).
    reflexivity.
  - unfold cap. rewrite Hspare, Hl. lia.
Qed.

Lemma slice_panics (s : buf) (lo hi : Z) :
  cap s < hi -> slice s lo hi = panic.
Proof.
  intros H. unfold slice.
  replace (hi <=? cap s) with false by (symmetry; apply Z.leb_gt; lia).
  rewrite andb_false_r. reflexivity.
Qed.

Lemma index_ok {A} (s : list A) (i : Z) (a : A) :
  0 <= i -> nth_error s (Z.to_nat i) = Some a -> index s i = ret a.
Proof.
  intros Hi Hn. unfold index.
  assert (i < len s).
  { assert (Z.to_nat i < length s)%nat by (apply nth_error_Some; congruence).
    unfold len. lia. }
  replace (0 <=? i) with true by (symmetry; apply Z.leb_le; lia).
  replace (i <? len s) with true by (symmetry; apply Z.ltb_lt; lia).
  simpl. rewrite Hn. reflexivity.
Qed.

Lemma index_inv {A} (s : list A) (i : Z) (l : list event) (a : A) :
  index s i = (l, Ret a) ->
  l = [] /\ 0 <= i < len s /\ nth_error s (Z.to_nat i) = Some a.
Proof.
  unfold index.
  destruct (0 <=? i) eqn:E1; [|discriminate].
  destruct (i <? len s) eqn:E2; [|discriminate].
  simpl. destruct (nth_error s (Z.to_nat i)) eqn:E; [|discriminate].
  intros H. apply ret_inv in H. destruct H as [-> <-].
  apply Z.leb_le in E1. apply Z.ltb_lt in E2. auto.
Qed.

Lemma index_some {A} (s : list A) (i : Z) :
  0 <= i < len s -> exists a, index s i = ret a.
Proof.
  intros H. destruct (nth_error s (Z.to_nat i)) as [a|] eqn:E.
  - exists a. apply index_ok; [lia|assumption].
  - apply nth_error_None in E. unfold len in H. lia.
Qed.

Lemma nth_error_array (s : buf) (i : nat) (a : byte) :
  nth_error (view s) i = Some a -> nth_error (array s) i = Some a.
Proof.
  intros H. unfold array. rewrite nth_error_app1; [assumption|].
  apply nth_error_Some. congruence.
Qed.

(** An index expression reads the backing array, within the length. *)
Lemma index_array (s : buf) (i : Z) (a : byte) :
  0 <= i < len s -> nth_error (array s) (Z.to_nat i) = Some a -> index s i = ret a.
Proof.
  intros Hi Hn. apply index_ok; [lia|].
  unfold array in Hn. rewrite nth_error_app1 in Hn; [assumption|].
  unfold len in Hi. lia.
Qed.

Lemma index_array_inv (s : buf) (i : Z) (l : list event) (a : byte) :
  index s i = (l, Ret a) ->
  l = [] /\ 0 <= i < len s /\ nth_error (array s) (Z.to_nat i) = Some a.
Proof.
  intros H. apply index_inv in H. destruct H as (-> & Hi & Hn).
  split; [reflexivity|]. split; [assumption|]. apply nth_error_array. assumption.
Qed.

(** A prefix of the backing array that fits in the length is a prefix of the
    view. *)
Lemma view_split (s : buf) (s0 s1 : list byte) :
  array s = s0 ++ s1 -> len s0 <= len s ->
  exists v, view s = s0 ++ v /\ s1 = v ++ spare s.
Proof.
  unfold array, len. intros Ha Hl.
  exists (skipn (length s0) (view s)). split.
  - rewrite <- (firstn_skipn (length s0) (view s)) at 1. f_equal.
    assert (H : firstn (length s0) (view s ++ spare s) = firstn (length s0) (s0 ++ s1))
      by (rewrite Ha; reflexivity).
    rewrite !firstn_app, Nat.sub_diag, firstn_O, app_nil_r, firstn_all in H.
    replace (length s0 - length (view s))%nat with 0%nat in H by lia.
    rewrite firstn_O, app_nil_r in H. exact H.
  - assert (H : skipn (length s0) (view s ++ spare s) = skipn (length s0) (s0 ++ s1))
      by (rewrite Ha; reflexivity).
    rewrite !skipn_app, Nat.sub_diag, skipn_all in H.
    replace (length s0 - length (view s))%nat with 0%nat in H by lia.
    simpl in H. symmetry. exact H.
Qed.

(** ** Scalar codec *)

Lemma bitConversion_inv (byteOrder : Z) (l : list event) (o : ByteOrder) :
  bitConversion byteOrder = (l, Ret o) ->
  l = [] /\ (byteOrder = wkbXDR /\ o = BigEndian \/ byteOrder = wkbNDR /\ o = LittleEndian).
Proof.
  unfold bitConversion.
  destruct (byteOrder =? wkbXDR) eqn:E0.
  - intros H. apply ret_inv in H. apply Z.eqb_eq in E0. intuition.
  - destruct (byteOrder =? wkbNDR) eqn:E1; [|discriminate].
    intros H. apply ret_inv in H. apply Z.eqb_eq in E1. intuition.
Qed.

Lemma bytesToUint32_inv (bytes : list byte) (byteOrder : Z) (l : list event) (n : Z) :
  bytesToUint32 bytes byteOrder = (l, Ret n) ->
  l = [] /\ len bytes = 4 /\ (byteOrder = wkbXDR \/ byteOrder = wkbNDR).
Proof.
  unfold bytesToUint32. intros H.
  destruct (len bytes =? 4) eqn:E; [|discriminate].
  apply Z.eqb_eq in E. cbn [negb] in H. rewrite bind_ret_l in H.
  apply bind_Ret_inv in H. destruct H as (l1 & o & l2 & Ho & Hu & ->).
  apply bitConversion_inv in Ho. destruct Ho as [-> Ho].
  assert (l2 = []).
  { unfold Uint32 in Hu.
    destruct bytes as [|? [|? [|? [|? ?]]]]; try discriminate.
    destruct o; apply ret_inv in Hu; tauto. }
  subst. intuition.
Qed.

Lemma bytesToUint32_wrong_length (bytes : list byte) (byteOrder : Z) :
  len bytes <> 4 ->
  bytesToUint32 bytes byteOrder = ([(Fatal, NeedUint32Bytes (len bytes))], Stop Exit).
Proof.
  intros H. unfold bytesToUint32.
  destruct (len bytes =? 4) eqn:E; [apply Z.eqb_eq in E; lia|]. reflexivity.
Qed.

Lemma bytesToFloat64_wrong_length (bytes : list byte) (byteOrder : Z) :
  len bytes <> 8 ->
  bytesToFloat64 bytes byteOrder = ([(Fatal, NeedFloat64Bytes (len bytes))], Stop Exit).
Proof.
  intros H. unfold bytesToFloat64.
  destruct (len bytes =? 8) eqn:E; [apply Z.eqb_eq in E; lia|]. reflexivity.
Qed.

Lemma bytesToFloat64_ok (bytes : list byte) (byteOrder : Z) :
  len bytes = 8 -> byteOrder = wkbXDR \/ byteOrder = wkbNDR ->
  exists v, bytesToFloat64 bytes byteOrder = ret v.
Proof.
  intros Hl Ho. unfold bytesToFloat64.
  replace (len bytes =? 8) with true by (symmetry; apply Z.eqb_eq; lia).
  cbn [negb]. rewrite bind_ret_l.
  destruct bytes as [|? [|? [|? [|? [|? [|? [|? [|? [|? ?]]]]]]]]];
    try (exfalso; unfold len in Hl; simpl length in Hl; lia).
  destruct Ho as [-> | ->]; simpl; eexists; reflexivity.
Qed.

Lemma bytesToInt32_wrong_length (bytes : list byte) (byteOrder : Z) :
  len bytes <> 4 ->
  bytesToInt32 bytes byteOrder = ([(Error, ExpectingInt32Bytes (len bytes))], Ret (-1)).
Proof.
  intros H. unfold bytesToInt32.
  destruct (len bytes =? 4) eqn:E; [apply Z.eqb_eq in E; lia|]. reflexivity.
Qed.

Lemma bytesToInt32_four (b0 b1 b2 b3 : byte) (byteOrder : Z) :
  bytesToInt32 [b0; b1; b2; b3] byteOrder = ret (int32_of b0 b1 b2 b3 byteOrder).
Proof. reflexivity. Qed.

(** C4, as the specification states it, fails: a window of three bytes gives
    the in-band value -1 from [bytesToInt32], after an error-level log entry,
    where [bytesToUint32] ends the process. *)
Lemma C4_int32_wrong_length_counterexample :
  bytesToInt32 [x01; x02; x03]%byte wkbNDR
    = ([(Error, ExpectingInt32Bytes 3)], Ret (-1)) /\
  bytesToUint32 [x01; x02; x03]%byte wkbNDR
    = ([(Fatal, NeedUint32Bytes 3)], Stop Exit).
Proof. split; reflexivity. Qed.

(** C4 (amended): for every byte window whose length is not 4, bytesToInt32
    logs an error and returns the in-band value -1 without stopping the
    decode, where bytesToUint32 on the same window stops with a fatal log
    entry; and bytesToFloat64 stops with a fatal log entry on every window
    whose length is not 8, the windows of 4 bytes included. *)
Theorem C4_int32_wrong_length_returns_minus_one :
  forall (bytes : list byte) (byteOrder : Z),
    (len bytes <> 4 ->
     bytesToInt32 bytes byteOrder
       = ([(Error, ExpectingInt32Bytes (len bytes))], Ret (-1)) /\
     bytesToUint32 bytes byteOrder
       = ([(Fatal, NeedUint32Bytes (len bytes))], Stop Exit)) /\
    (len bytes <> 8 ->
     bytesToFloat64 bytes byteOrder
       = ([(Fatal, NeedFloat64Bytes (len bytes))], Stop Exit)).
Proof.
  intros bytes byteOrder. split.
  - intros H. split.
    + apply bytesToInt32_wrong_length; assumption.
    + apply bytesToUint32_wrong_length; assumption.
  - apply bytesToFloat64_wrong_length.
Qed.

Lemma C4_int32_wrong_length_witness :
  bytesToInt32 [x01; x02; x03]%byte wkbXDR
    = ([(Error, ExpectingInt32Bytes 3)], Ret (-1)) /\
  bytesToUint32 [x01; x02; x03]%byte wkbXDR
    = ([(Fatal, NeedUint32Bytes 3)], Stop Exit) /\
  bytesToFloat64 [x01; x02; x03; x04]%byte wkbXDR
    = ([(Fatal, NeedFloat64Bytes 4)], Stop Exit).
Proof.
  split; [|split].
  - apply (C4_int32_wrong_length_returns_minus_one [x01; x02; x03]%byte wkbXDR).
    vm_compute. discriminate.
  - apply (C4_int32_wrong_length_returns_minus_one [x01; x02; x03]%byte wkbXDR).
    vm_compute. discriminate.
  - apply (C4_int32_wrong_length_returns_minus_one [x01; x02; x03; x04]%byte wkbXDR).
    vm_compute. discriminate.
Defined.

(** ** Linear rings *)

(** C7: a window of at least 4 bytes whose leading uint32, in the given byte
    order, is 0 decodes to an empty ring, and WKBLinearRing.Init returns 4 as
    the number of bytes consumed, whatever the capacity of the window. *)
Theorem C7_empty_ring_consumes_four :
  forall (lr : WKBLinearRing.t) (bytes : buf) (byteOrder : Z),
    4 <= len bytes ->
    bytesToUint32 (firstn 4 bytes) byteOrder = ret 0 ->
    WKBLinearRing.Init lr bytes byteOrder = ret (WKBLinearRing.mk 0 [], 4).
Proof.
  intros lr bytes byteOrder Hlen H0.
  unfold WKBLinearRing.Init.
  replace (len bytes <? 4) with false by (symmetry; apply Z.ltb_ge; lia).
  rewrite bind_ret_l.
  rewrite slice_ok by (pose proof (len_le_cap bytes); lia). rewrite bind_ret_l.
  cbn [view]. change (Z.to_nat (4 - 0)) with 4%nat. change (Z.to_nat 0) with 0%nat.
  cbn [skipn]. unfold array.
  rewrite firstn_app.
  replace (4 - length (view bytes))%nat with 0%nat by (unfold len in Hlen; lia).
  rewrite firstn_O, app_nil_r.
  rewrite H0, bind_ret_l. reflexivity.
Qed.

Lemma C7_empty_ring_witness :
  WKBLinearRing.Init WKBLinearRing.zero
    (Buf [x00; x00; x00; x00; x2a]%byte [xff]%byte) wkbNDR
    = ret (WKBLinearRing.mk 0 [], 4).
Proof.
  apply (C7_empty_ring_consumes_four WKBLinearRing.zero
           (Buf [x00; x00; x00; x00; x2a]%byte [xff]%byte) wkbNDR).
  - vm_compute. discriminate.
  - reflexivity.
Defined.

(** ** Dispatch *)

Lemma newWKBGeometry_other (geomType : Z) :
  geomType <> 3 ->
  newWKBGeometry geomType = ([(Error, UnimplementedGeomType geomType)], Ret None).
Proof.
  intros H. unfold newWKBGeometry.
  destruct geomType as [|[[[]|[]|]|[[]|[]|]|]|]; try reflexivity. contradiction.
Qed.

Lemma bytesToUint32_window (w : list byte) (byteOrder n : Z) (l : list event) :
  bytesToUint32 w byteOrder = (l, Ret n) ->
  exists b1 b2 b3 b4, w = [b1; b2; b3; b4].
Proof.
  intros H. apply bytesToUint32_inv in H. destruct H as (_ & Hl & _).
  destruct w as [|b1 [|b2 [|b3 [|b4 [|? ?]]]]];
    try (exfalso; unfold len in Hl; simpl length in Hl; lia).
  eauto.
Qed.

(** C8, as the specification states it, fails: on a buffer with type code
    99 readNextGeometry does not return a count of zero bytes, it returns
    nothing: after the error entry of the dispatch it ends the process through
    log.Fatal. *)
Lemma C8_unimplemented_type_counterexample :
  let bytes := Buf [x01; x63; x00; x00; x00; x07; x07; x07]%byte [] in
  bytesToUint32 [x63; x00; x00; x00]%byte 1 = ret 99 /\
  readNextGeometry bytes
    = ([(Error, UnimplementedGeomType 99); (Fatal, NilGeometry 99)], Stop Exit) /\
  returned (readNextGeometry bytes) <> Some (None, 0).
Proof.
  cbv zeta. split; [reflexivity|]. split; [reflexivity|]. discriminate.
Qed.

(** C8 (amended): on a buffer that starts with a byte-order flag and a type
    code other than 3, dispatch builds no geometry and logs the offending
    code, and readNextGeometry ends the process through log.Fatal with an
    entry that carries the code.  It returns neither a geometry nor a byte
    count, and the outcome is the same whatever follows the five leading
    bytes, in the length or in the capacity: the body is never decoded. *)
Theorem C8_unimplemented_type_fails :
  forall (b : byte) (w body extra : list byte) (geomType : Z),
    bytesToUint32 w (b2z b) = ret geomType ->
    geomType <> 3 ->
    newWKBGeometry geomType
      = ([(Error, UnimplementedGeomType geomType)], Ret None) /\
    readNextGeometry (Buf (b :: w ++ body) extra)
      = ([(Error, UnimplementedGeomType geomType); (Fatal, NilGeometry geomType)],
         Stop Exit) /\
    returned (readNextGeometry (Buf (b :: w ++ body) extra)) = None /\
    readNextGeometry (Buf (b :: w ++ body) extra) = readNextGeometry (Buf (b :: w) []).
Proof.
  intros b w body extra geomType Hw Hne.
  assert (Hrun : forall rest sp,
    readNextGeometry (Buf (b :: w ++ rest) sp)
      = ([(Error, UnimplementedGeomType geomType); (Fatal, NilGeometry geomType)],
         Stop Exit)).
  { intros rest sp. unfold readNextGeometry. cbn [view].
    replace (len (b :: w ++ rest) =? 0) with false
      by (symmetry; apply Z.eqb_neq; rewrite len_cons;
          pose proof (len_nonneg (w ++ rest)); lia).
    rewrite (index_ok _ 0 b) by (reflexivity || lia). rewrite bind_ret_l.
    destruct (bytesToUint32_inv _ _ _ _ Hw) as (_ & Hl & _).
    rewrite (slice_array _ [b] w (rest ++ sp) 1 5)
      by (rewrite ?Hl; (reflexivity ||
          (unfold array; cbn [view spare app]; rewrite <- app_assoc; reflexivity))).
    rewrite bind_ret_l. cbn [view]. rewrite Hw, bind_ret_l.
    rewrite newWKBGeometry_other by assumption. reflexivity. }
  split; [apply newWKBGeometry_other; assumption|].
  split; [apply Hrun|].
  split.
  - rewrite Hrun. reflexivity.
  - rewrite Hrun, <- (Hrun [] []), app_nil_r. reflexivity.
Qed.

Lemma C8_unimplemented_type_witness :
  readNextGeometry (Buf (x01 :: [x63; x00; x00; x00] ++ [x07; x07; x07]) [x07])%byte
    = ([(Error, UnimplementedGeomType 99); (Fatal, NilGeometry 99)], Stop Exit).
Proof.
  apply (C8_unimplemented_type_fails x01 [x63; x00; x00; x00]%byte
           [x07; x07; x07]%byte [x07]%byte 99).
  - reflexivity.
  - discriminate.
Defined.

(** ** Stream reader *)

(** C10: on the empty buffer readGeometries returns the empty sequence and
    0 bytes consumed, logging only its info line (no consumed-bytes
    mismatch), and readNextGeometry returns no geometry and 0; and so on every
    buffer of length 0, whatever its capacity holds. *)
Theorem C10_empty_buffer :
  forall extra : list byte,
    readGeometries (Buf [] extra) = ([(Info, ReadingGeometries 0)], Ret ([], 0)) /\
    ~ In (Warn, ConsumedMismatch 0 0) (logged (readGeometries (Buf [] extra))) /\
    (forall m, ~ In (Warn, m) (logged (readGeometries (Buf [] extra)))) /\
    readNextGeometry (Buf [] extra) = ret (None, 0).
Proof.
  intros extra.
  split; [reflexivity|]. split; [|split].
  - simpl. intros [H|[]]. discriminate.
  - intros m. simpl. intros [H|[]]. discriminate.
  - reflexivity.
Qed.

(** ** Header accessors *)

(** C9: while [initialized] is false every accessor returns its sentinel,
    whatever the fields hold: Magic 0, Version 0, SRSId -1, Envelope nil and
    Size -1, each after logging that the header is not initialized. *)
Theorem C9_uninitialized_accessors :
  forall h : GeoPackageBinaryHeader.t,
    GeoPackageBinaryHeader.initialized h = false ->
    GeoPackageBinaryHeader.Magic h
      = ([(Error, NotInitialized "Magic()")], Ret 0) /\
    GeoPackageBinaryHeader.Version h
      = ([(Error, NotInitialized "Version()")], Ret 0) /\
    GeoPackageBinaryHeader.SRSId h
      = ([(Error, NotInitialized "SRSId()")], Ret (-1)) /\
    GeoPackageBinaryHeader.Envelope h
      = ([(Error, NotInitialized "Envelope()")], Ret None) /\
    GeoPackageBinaryHeader.Size h
      = ([(Error, NotInitialized "Size()")], Ret (-1)).
Proof.
  intros h Hi.
  unfold GeoPackageBinaryHeader.Magic, GeoPackageBinaryHeader.Version,
    GeoPackageBinaryHeader.SRSId, GeoPackageBinaryHeader.Envelope,
    GeoPackageBinaryHeader.Size, GeoPackageBinaryHeader.isInitialized.
  rewrite Hi. repeat split.
Qed.

Lemma C9_uninitialized_accessors_witness :
  GeoPackageBinaryHeader.SRSId
    (GeoPackageBinaryHeader.mk false 18256 0 1 true 4326 (Some []) 8)
  = ([(Error, NotInitialized "SRSId()")], Ret (-1)).
Proof.
  apply (C9_uninitialized_accessors
           (GeoPackageBinaryHeader.mk false 18256 0 1 true 4326 (Some []) 8)).
  reflexivity.
Defined.

Lemma accessors_initialized (h : GeoPackageBinaryHeader.t) :
  GeoPackageBinaryHeader.initialized h = true ->
  GeoPackageBinaryHeader.Magic h = ret (GeoPackageBinaryHeader.magic h) /\
  GeoPackageBinaryHeader.Version h = ret (GeoPackageBinaryHeader.version h) /\
  GeoPackageBinaryHeader.SRSId h = ret (GeoPackageBinaryHeader.srs_id h) /\
  GeoPackageBinaryHeader.Envelope h = ret (GeoPackageBinaryHeader.envelope h) /\
  GeoPackageBinaryHeader.Size h = ret (GeoPackageBinaryHeader.headerSize h).
Proof.
  intros Hi.
  unfold GeoPackageBinaryHeader.Magic, GeoPackageBinaryHeader.Version,
    GeoPackageBinaryHeader.SRSId, GeoPackageBinaryHeader.Envelope,
    GeoPackageBinaryHeader.Size, GeoPackageBinaryHeader.isInitialized.
  rewrite Hi. repeat split.
Qed.

(** ** Header parser *)

Module Import HeaderFacts.

Import GeoPackageBinaryHeader.

Ltac inv_bind H :=
  let l1 := fresh "l" in
  let a := fresh "a" in
  let l2 := fresh "l" in
  let Hm := fresh "Hm" in
  let Hl := fresh "Hl" in
  apply bind_Ret_inv in H; destruct H as (l1 & a & l2 & Hm & H & Hl).

Tactic Notation "inv_step" hyp(H) "as" ident(a) ident(Hm) :=
  apply bind_Ret_inv in H; destruct H as (? & a & ? & Hm & H & ?).

Lemma shape8 (geom : list byte) :
  8 <= len geom ->
  exists g0 g1 g2 g3 s0 s1 s2 s3 rest,
    geom = g0 :: g1 :: g2 :: g3 :: s0 :: s1 :: s2 :: s3 :: rest.
Proof.
  intros H.
  destruct geom as [|g0 [|g1 [|g2 [|g3 [|s0 [|s1 [|s2 [|s3 rest]]]]]]]];
    try (exfalso; unfold len in H; simpl length in H; lia).
  repeat eexists.
Qed.

Lemma Init_magic_ok (geom : buf) (g0 g1 : byte) (rest : list byte) (o : Z) :
  array geom = g0 :: g1 :: rest -> 2 <= len geom ->
  Init_magic geom o = ret (magic_of g0 g1 o).
Proof.
  intros Ha Hl. unfold Init_magic, magic_of.
  assert (H0 : index geom 0 = ret g0)
    by (apply index_array; [lia|rewrite Ha; reflexivity]).
  assert (H1 : index geom 1 = ret g1)
    by (apply index_array; [lia|rewrite Ha; reflexivity]).
  destruct (o =? 1); rewrite ?H0, ?H1, ?bind_ret_l; rewrite ?H0, ?H1, ?bind_ret_l;
    reflexivity.
Qed.

Lemma Init_magic_inv (geom : buf) (o : Z) (l : list event) (m : Z) :
  Init_magic geom o = (l, Ret m) -> l = [] /\ 2 <= len geom.
Proof.
  unfold Init_magic. intros H.
  destruct (o =? 1); inv_bind H; inv_bind H;
    apply index_inv in Hm, Hm0; apply ret_inv in H;
    destruct Hm as (-> & ? & _), Hm0 as (-> & ? & _), H as (-> & _); subst;
    split; try reflexivity; lia.
Qed.

Lemma slice_srs (geom : buf) (g0 g1 g2 g3 s0 s1 s2 s3 : byte) (rest : list byte) :
  array geom = g0 :: g1 :: g2 :: g3 :: s0 :: s1 :: s2 :: s3 :: rest ->
  slice geom 4 8 = ret (Buf [s0; s1; s2; s3] rest).
Proof.
  intros Ha.
  apply (slice_array geom [g0; g1; g2; g3] [s0; s1; s2; s3] rest);
    [exact Ha|reflexivity|reflexivity].
Qed.

Lemma Init_srs_id_ok (h : t) (geom : buf) (g0 g1 g2 g3 s0 s1 s2 s3 : byte)
      (rest : list byte) (o : Z) :
  array geom = g0 :: g1 :: g2 :: g3 :: s0 :: s1 :: s2 :: s3 :: rest ->
  exists l,
    Init_srs_id h geom o = (l, Ret (set_srs_id (srs_of s0 s1 s2 s3 o) h)).
Proof.
  intros Ha. unfold Init_srs_id, srs_of, implausible, retry_order.
  rewrite (slice_srs _ _ _ _ _ _ _ _ _ _ Ha), bind_ret_l. cbn [view].
  rewrite bytesToInt32_four, bind_ret_l.
  cbn [srs_id set_srs_id].
  destruct ((int32_of s0 s1 s2 s3 wkbNDR <? 0) || (int32_of s0 s1 s2 s3 wkbNDR >? 9999)).
  - unfold logAt. rewrite !bind_Ret. cbn [fst snd].
    rewrite !bind_ret_l. cbn [view]. rewrite bytesToInt32_four, !bind_ret_l.
    destruct ((int32_of s0 s1 s2 s3 (if 1 =? o then 0 else 1) <? 0)
              || (int32_of s0 s1 s2 s3 (if 1 =? o then 0 else 1) >? 9999));
      rewrite !bind_Ret; cbn [fst snd]; eexists; reflexivity.
  - eexists; reflexivity.
Qed.

Lemma Init_srs_id_inv (h : t) (geom : buf) (o : Z) (l : list event) (h' : t) :
  Init_srs_id h geom o = (l, Ret h') -> 8 <= cap geom.
Proof.
  unfold Init_srs_id. intros H. inv_bind H.
  apply slice_inv in Hm. lia.
Qed.

Lemma set_nth_length {A} (s : list A) (i : nat) (v : A) :
  length (set_nth s i v) = length s.
Proof.
  revert i. induction s as [|a s IH]; intros [|i]; simpl; try reflexivity.
  rewrite IH. reflexivity.
Qed.

Lemma store_ok {A} (s : list A) (i : Z) (v : A) :
  0 <= i < len s -> store s i v = ret (set_nth s (Z.to_nat i) v).
Proof.
  intros H. unfold store.
  replace (0 <=? i) with true by (symmetry; apply Z.leb_le; lia).
  replace (i <? len s) with true by (symmetry; apply Z.ltb_lt; lia).
  reflexivity.
Qed.

Lemma envelope_set_make (n : Z) (h0 : t) :
  0 <= n -> envelope_set n h0 (set_envelope (make_envelope n) h0).
Proof.
  intros H. eexists. split; [reflexivity|].
  unfold make, len. rewrite repeat_length. lia.
Qed.

Lemma fill_inv (geom : buf) (o k lo hi : Z) (h h' : t) (l : list event) :
  fill geom o k lo hi h = (l, Ret h') -> hi <= cap geom.
Proof.
  unfold fill. intros H. inv_bind H. apply slice_inv in Hm. lia.
Qed.

Lemma fill_ok (geom : buf) (o k lo : Z) (n : Z) (h0 h : t) :
  o = wkbXDR \/ o = wkbNDR -> 0 <= lo -> lo + 8 <= cap geom -> 0 <= k < n ->
  envelope_set n h0 h ->
  exists h', fill geom o k lo (lo + 8) h = ret h' /\ envelope_set n h0 h'.
Proof.
  intros Ho Hlo Hhi Hk (e & -> & He).
  unfold fill. rewrite slice_ok by lia. rewrite bind_ret_l. cbn [view].
  destruct (bytesToFloat64_ok
              (firstn (Z.to_nat (lo + 8 - lo)) (skipn (Z.to_nat lo) (array geom))) o)
    as [v Hv]; [|assumption|].
  { rewrite cap_array in Hhi.
    unfold len in *. rewrite length_firstn, length_skipn. lia. }
  rewrite Hv, bind_ret_l. cbn [envelope set_envelope].
  rewrite store_ok by lia. rewrite bind_ret_l.
  eexists. split; [reflexivity|].
  eexists. split; [reflexivity|].
  unfold len in *. rewrite set_nth_length. assumption.
Qed.

Lemma Init_envelope_inv (h h' : t) (geom : buf) (o eType sz : Z)
      (l : list event) :
  Init_envelope h geom o eType = (l, Ret (h', sz)) ->
  envelope_count eType = 0 \/ 8 + 8 * envelope_count eType <= cap geom.
Proof.
  unfold Init_envelope. intros H.
  destruct eType as [|[[[]|[]|]|[[]|[]|]|]|]; cbn [envelope_count];
    try (left; reflexivity); right;
    repeat (inv_bind H;
            match goal with
            | Hf : fill _ _ _ _ _ _ = _ |- _ => apply fill_inv in Hf
            end);
    lia.
Qed.

Ltac fill_step :=
  match goal with
  | He : envelope_set ?n ?h0 ?h
    |- context [fill ?geom ?o ?k ?lo ?hi ?h] =>
    let h' := fresh "h" in
    let Hf := fresh "Hf" in
    let He' := fresh "He" in
    destruct (fill_ok geom o k lo n h0 h) as (h' & Hf & He');
    [assumption | lia | lia | lia | exact He |];
    change (lo + 8) with hi in Hf;
    rewrite Hf, bind_ret_l; clear Hf He
  end.

Lemma Init_envelope_ok (h : t) (geom : buf) (o eType : Z) :
  o = wkbXDR \/ o = wkbNDR ->
  8 + 8 * envelope_count eType <= cap geom ->
  exists h',
    Init_envelope h geom o eType
      = (envelope_log eType, Ret (h', 8 + 8 * envelope_count eType)) /\
    envelope_set (envelope_count eType) h h'.
Proof.
  intros Ho Hlen. unfold Init_envelope.
  destruct eType as [|[[[]|[]|]|[[]|[]|]|]|]; cbn [envelope_count] in *;
    try (eexists; split; [reflexivity|apply envelope_set_make; lia]).
  all: match goal with
       | |- context [set_envelope (make_envelope ?n) ?h0] =>
         assert (He : envelope_set n h0 (set_envelope (make_envelope n) h0))
           by (apply envelope_set_make; lia)
       end;
       cbv zeta; repeat fill_step; eexists; split; [reflexivity|assumption].
Qed.

Lemma land_1_cases (z : Z) : Z.land z 1 = wkbXDR \/ Z.land z 1 = wkbNDR.
Proof.
  change 1 with (Z.ones 1). rewrite Z.land_ones by lia.
  unfold wkbXDR, wkbNDR. pose proof (Z.mod_pos_bound z (2 ^ 1) ltac:(lia)). lia.
Qed.

(** [Init] on a buffer whose backing array starts with the eight fixed bytes
    of a header: the flags byte has to lie within the length, the rest within
    the capacity. *)
Lemma Init_ok (h0 : t) (geom : buf) (g0 g1 g2 g3 s0 s1 s2 s3 : byte)
      (rest : list byte) :
  array geom = g0 :: g1 :: g2 :: g3 :: s0 :: s1 :: s2 :: s3 :: rest ->
  4 <= len geom ->
  let size := 8 + 8 * envelope_count (eType_of g3) in
  size <= cap geom ->
  exists l e,
    Init h0 geom
      = (l ++ envelope_log (eType_of g3) ++ [(Debug, HeaderSizes size (len geom))],
         Ret (decoded g0 g1 g2 g3 s0 s1 s2 s3 e)) /\
    len e = envelope_count (eType_of g3).
Proof.
  intros Ha H4 size Hlen. unfold Init.
  rewrite (index_array geom 3 g3) by (lia || (rewrite Ha; reflexivity)).
  rewrite bind_ret_l.
  cbn [flags set_flags set_flagsReady].
  rewrite (Init_magic_ok geom g0 g1 _ _ Ha) by lia. rewrite bind_ret_l.
  rewrite (index_array geom 2 g2) by (lia || (rewrite Ha; reflexivity)).
  rewrite bind_ret_l.
  match goal with
  | |- context [Init_srs_id ?h _ ?o] =>
    destruct (Init_srs_id_ok h geom g0 g1 g2 g3 s0 s1 s2 s3 rest o Ha) as [l Hs]
  end.
  rewrite Hs, bind_Ret. clear Hs.
  unfold EnvelopeType at 1 2.
  cbn [flagsReady set_srs_id set_version set_magic set_flagsReady set_flags flags].
  rewrite !bind_ret_l. fold (eType_of g3).
  match goal with
  | |- context [Init_envelope ?h _ ?o _] =>
    destruct (Init_envelope_ok h geom o (eType_of g3) (land_1_cases _) Hlen)
      as (h' & He & e & -> & Hlen_e)
  end.
  rewrite He. unfold logAt. rewrite !bind_Ret. cbn [fst snd].
  exists l, e. split; [|assumption]. reflexivity.
Qed.

Lemma Init_inv (h0 h : t) (geom : buf) (l : list event) :
  Init h0 geom = (l, Ret h) ->
  exists g0 g1 g2 g3 s0 s1 s2 s3 rest e,
    array geom = g0 :: g1 :: g2 :: g3 :: s0 :: s1 :: s2 :: s3 :: rest /\
    4 <= len geom /\
    8 + 8 * envelope_count (eType_of g3) <= cap geom /\
    h = decoded g0 g1 g2 g3 s0 s1 s2 s3 e /\
    len e = envelope_count (eType_of g3).
Proof.
  intros H. pose proof H as H'. unfold Init in H'.
  inv_step H' as b Hb. inv_step H' as m Hmagic. inv_step H' as b2 Hb2.
  inv_step H' as h1 Hsrs. inv_step H' as eType HeType.
  inv_step H' as r Henv. destruct r as [h2 sz].
  pose proof (Init_srs_id_inv _ _ _ _ _ Hsrs) as H8.
  destruct (shape8 (array geom) ltac:(rewrite <- cap_array; exact H8))
    as (g0 & g1 & g2 & g3 & s0 & s1 & s2 & s3 & rest & Ha).
  apply index_array_inv in Hb. destruct Hb as (_ & Hlen4 & Hb).
  rewrite Ha in Hb. simpl in Hb. injection Hb as <-.
  apply Init_envelope_inv in Henv.
  match type of Hsrs with
  | Init_srs_id ?h _ ?o = _ =>
    destruct (Init_srs_id_ok h geom g0 g1 g2 g3 s0 s1 s2 s3 rest o Ha) as [ls Hs];
    rewrite Hs in Hsrs; injection Hsrs as _ <-
  end.
  unfold EnvelopeType in HeType.
  cbn [flagsReady set_srs_id set_version set_magic set_flags set_flagsReady flags]
    in HeType.
  apply ret_inv in HeType. destruct HeType as [_ <-]. fold (eType_of g3) in Henv.
  assert (Hlen : 8 + 8 * envelope_count (eType_of g3) <= cap geom).
  { destruct Henv as [-> | ?]; [lia|assumption]. }
  destruct (Init_ok h0 geom g0 g1 g2 g3 s0 s1 s2 s3 rest Ha ltac:(lia) Hlen)
    as (l' & e & Hok & He).
  rewrite Hok in H. injection H as _ <-.
  exists g0, g1, g2, g3, s0, s1, s2, s3, rest, e.
  split; [assumption|]. split; [lia|]. auto.
Qed.

End HeaderFacts.

(** Joining [k] low bits below a multiple of [2 ^ k] is an addition, also when
    the multiple is negative. *)
Lemma lor_low_bits (q b k : Z) :
  0 <= k -> 0 <= b < 2 ^ k -> Z.lor (q * 2 ^ k) b = q * 2 ^ k + b.
Proof.
  intros Hk Hb.
  assert (Hland : Z.land (q * 2 ^ k) b = 0).
  { apply Z.bits_inj'. intros n Hn.
    rewrite Z.land_spec, Z.bits_0.
    rewrite <- Z.shiftl_mul_pow2 by lia.
    destruct (Z.ltb_spec n k).
    - rewrite Z.shiftl_spec_low by lia. reflexivity.
    - destruct (Z.eq_dec b 0) as [->|Hnz].
      + rewrite Z.bits_0. apply andb_false_r.
      + rewrite (Z.bits_above_log2 b n); [apply andb_false_r|lia|].
        assert (Z.log2 b < k) by (apply Z.log2_lt_pow2; lia). lia. }
  rewrite <- Z.lxor_lor by assumption.
  symmetry. apply Z.add_nocarry_lxor. assumption.
Qed.

Lemma lor_low_byte (q b : Z) :
  0 <= b < 256 -> Z.lor (q * 256) b = q * 256 + b.
Proof. intros Hb. apply (lor_low_bits q b 8); lia. Qed.

Lemma magic_of_little_endian (g0 g1 : byte) :
  magic_of g0 g1 1 = b2z g0 * 256 + b2z g1.
Proof.
  unfold magic_of. cbn [Z.eqb Pos.eqb].
  pose proof (b2z_range g0). pose proof (b2z_range g1).
  unfold to_uint16. rewrite Z.shiftl_mul_pow2 by lia. change (2 ^ 8) with 256.
  rewrite Z.mod_small by lia. apply lor_low_byte. assumption.
Qed.

(** C1, as the specification states it, fails: with the byte-order bit set and
    the leading bytes 0x50 0x47, Magic() is 0x5047.  The first byte of the
    blob is the high byte of the magic on a little-endian header. *)
Lemma C1_magic_little_endian_counterexample :
  let geom := Buf [x50; x47; x00; x01; x00; x00; x00; x00]%byte [] in
  Z.land (b2z x01) 1 = 1 /\
  firstn 2 geom = [x50; x47]%byte /\
  exists l h,
    GeoPackageBinaryHeader.Init GeoPackageBinaryHeader.zero geom = (l, Ret h) /\
    GeoPackageBinaryHeader.Magic h = ret 0x5047 /\
    GeoPackageBinaryHeader.Magic h <> ret 0x4750.
Proof.
  cbv zeta. split; [reflexivity|]. split; [reflexivity|].
  eexists. eexists. split; [reflexivity|]. split; [reflexivity|].
  vm_compute. discriminate.
Qed.

(** C1 (amended): on every header blob whose flags byte has the byte-order
    bit set, Magic() after Init is 256 * byte 0 + byte 1; so it returns 0x4750
    when the first two bytes are 0x47 0x50, the letters G and P.  The blob is
    the view of the buffer; what its capacity holds beyond does not matter. *)
Theorem C1_magic_little_endian :
  forall (h0 h : GeoPackageBinaryHeader.t) (g0 g1 version flagsByte : byte)
         (rest extra : list byte) (l : list event),
    Z.land (b2z flagsByte) 1 = 1 ->
    GeoPackageBinaryHeader.Init h0 (Buf (g0 :: g1 :: version :: flagsByte :: rest) extra)
      = (l, Ret h) ->
    GeoPackageBinaryHeader.Magic h = ret (b2z g0 * 256 + b2z g1) /\
    (g0 = x47 -> g1 = x50 -> GeoPackageBinaryHeader.Magic h = ret 0x4750).
Proof.
  intros h0 h g0 g1 version flagsByte rest extra l Hbit Hinit.
  apply Init_inv in Hinit.
  destruct Hinit as (g0' & g1' & g2' & g3' & s0 & s1 & s2 & s3 & rest' & e
                     & Hgeom & _ & _ & -> & _).
  injection Hgeom as <- <- <- <- _.
  assert (HM : GeoPackageBinaryHeader.Magic (decoded g0 g1 version flagsByte s0 s1 s2 s3 e)
               = ret (b2z g0 * 256 + b2z g1)).
  { destruct (accessors_initialized (decoded g0 g1 version flagsByte s0 s1 s2 s3 e))
      as (-> & _); [reflexivity|].
    cbn [decoded GeoPackageBinaryHeader.magic]. rewrite Hbit.
    rewrite magic_of_little_endian. reflexivity. }
  split; [exact HM|].
  intros -> ->. rewrite HM. reflexivity.
Qed.

Lemma C1_magic_little_endian_witness :
  exists l h,
    GeoPackageBinaryHeader.Init GeoPackageBinaryHeader.zero
      (Buf [x47; x50; x00; x01; xe6; x10; x00; x00]%byte []) = (l, Ret h) /\
    GeoPackageBinaryHeader.Magic h = ret 0x4750.
Proof.
  eexists. eexists. split; [reflexivity|].
  refine (proj2 (C1_magic_little_endian GeoPackageBinaryHeader.zero _
                   x47 x50 x00 x01 [xe6; x10; x00; x00]%byte [] _ _ _) _ _);
    reflexivity.
Defined.

(** [SRSId()] after [Init], by the header byte-order bit.  With the bit set
    the second decode is big-endian; with the bit clear [newByteOrder] stays
    [littleEndian] and the second decode repeats the first. *)
Lemma Init_SRSId (h0 h : GeoPackageBinaryHeader.t) (g0 g1 g2 g3 s0 s1 s2 s3 : byte)
      (rest extra : list byte) (l : list event) :
  GeoPackageBinaryHeader.Init h0
    (Buf (g0 :: g1 :: g2 :: g3 :: s0 :: s1 :: s2 :: s3 :: rest) extra)
    = (l, Ret h) ->
  GeoPackageBinaryHeader.SRSId h = ret (srs_of s0 s1 s2 s3 (Z.land (b2z g3) 1)).
Proof.
  intros Hinit. apply Init_inv in Hinit.
  destruct Hinit as (g0' & g1' & g2' & g3' & s0' & s1' & s2' & s3' & rest' & e
                     & Hgeom & _ & _ & -> & _).
  injection Hgeom as <- <- <- <- <- <- <- <- _.
  destruct (accessors_initialized (decoded g0 g1 g2 g3 s0 s1 s2 s3 e))
    as (_ & _ & -> & _); reflexivity.
Qed.

Lemma srs_of_little_endian_header (s0 s1 s2 s3 : byte) :
  srs_of s0 s1 s2 s3 1 =
  let le := int32_of s0 s1 s2 s3 wkbNDR in
  let be := int32_of s0 s1 s2 s3 wkbXDR in
  if implausible le then (if implausible be then 0 else be) else le.
Proof. reflexivity. Qed.

Lemma srs_of_big_endian_header (s0 s1 s2 s3 : byte) :
  srs_of s0 s1 s2 s3 0 =
  let le := int32_of s0 s1 s2 s3 wkbNDR in
  if implausible le then 0 else le.
Proof.
  unfold srs_of, retry_order. cbn [Z.eqb]. change wkbNDR with 1. cbv zeta.
  destruct (implausible (int32_of s0 s1 s2 s3 1)); reflexivity.
Qed.

(** C2 on the blob 47 50 00 00 00 00 10 E6, whose byte-order bit is clear:
    bytes 4..7 decode to -435159040 little-endian and to 4326 big-endian.
    Init decodes little-endian, announces byte order 1 for the second
    attempt, which is little-endian again, and resets srs_id: SRSId() is 0
    where the specification has 4326. *)
Theorem C2_srs_retry_repeats_little_endian :
  let geom := Buf [x47; x50; x00; x00; x00; x00; x10; xe6]%byte [] in
  bytesToInt32 [x00; x00; x10; xe6]%byte wkbNDR = ret (-435159040) /\
  bytesToInt32 [x00; x00; x10; xe6]%byte wkbXDR = ret 4326 /\
  exists h,
    GeoPackageBinaryHeader.Init GeoPackageBinaryHeader.zero geom
      = ([(Error, SrsIdLooksInvalid (-435159040) 0);
          (Error, SrsIdTryingAgain 1);
          (Error, SrsIdStillInvalid (-435159040));
          (Debug, HeaderSizes 8 8)], Ret h) /\
    GeoPackageBinaryHeader.SRSId h = ret 0.
Proof.
  cbv zeta. split; [reflexivity|]. split; [reflexivity|].
  eexists. split; reflexivity.
Qed.

(** C3, as the specification states it, fails: the flags byte 0x0B carries
    envelope-type code 5, and Init completes; the header is initialized, its
    envelope is empty and Size() is 8. *)
Lemma C3_invalid_envelope_type_counterexample :
  let geom := Buf [x47; x50; x00; x0b; xe6; x10; x00; x00]%byte [] in
  eType_of x0b = 5 /\
  exists l h,
    GeoPackageBinaryHeader.Init GeoPackageBinaryHeader.zero geom = (l, Ret h) /\
    GeoPackageBinaryHeader.initialized h = true /\
    GeoPackageBinaryHeader.Size h = ret 8 /\
    GeoPackageBinaryHeader.SRSId h = ret 4326.
Proof.
  cbv zeta. split; [reflexivity|].
  eexists. eexists. split; [reflexivity|]. repeat split.
Qed.

(** C3 (amended): on every header blob of at least 8 bytes whose flags byte
    carries envelope-type code 5, 6 or 7, Init logs "Invalid envelope type"
    with the code at error level and completes: the header is initialized,
    its envelope is empty and Size() returns 8. *)
Theorem C3_invalid_envelope_type_defaults :
  forall (h0 : GeoPackageBinaryHeader.t) (geom : buf) (flagsByte : byte),
    8 <= len geom ->
    nth_error geom 3 = Some flagsByte ->
    5 <= eType_of flagsByte <= 7 ->
    exists l h,
      GeoPackageBinaryHeader.Init h0 geom = (l, Ret h) /\
      In (Error, InvalidEnvelopeType (eType_of flagsByte)) l /\
      GeoPackageBinaryHeader.initialized h = true /\
      GeoPackageBinaryHeader.Envelope h = ret (Some []) /\
      GeoPackageBinaryHeader.Size h = ret 8.
Proof.
  intros h0 geom flagsByte Hlen Hflags Htype.
  pose proof (len_le_cap geom) as Hcap.
  destruct (shape8 (array geom) ltac:(rewrite <- cap_array; lia))
    as (g0 & g1 & g2 & g3 & s0 & s1 & s2 & s3 & rest & Ha).
  apply nth_error_array in Hflags. rewrite Ha in Hflags.
  simpl in Hflags. injection Hflags as ->.
  assert (Hcount : envelope_count (eType_of flagsByte) = 0).
  { assert (eType_of flagsByte = 5 \/ eType_of flagsByte = 6 \/ eType_of flagsByte = 7)
      as [-> | [-> | ->]] by lia; reflexivity. }
  destruct (Init_ok h0 geom g0 g1 g2 flagsByte s0 s1 s2 s3 rest Ha)
    as (l & e & Hok & He); [lia| |].
  { rewrite Hcount. lia. }
  rewrite Hcount in He, Hok.
  assert (e = []) as -> by (destruct e; [reflexivity|unfold len in He; simpl in He; lia]).
  eexists. eexists. split; [exact Hok|].
  split.
  - apply in_or_app. right. apply in_or_app. left.
    unfold envelope_log.
    replace (eType_of flagsByte <=? 4) with false by (symmetry; apply Z.leb_gt; lia).
    rewrite andb_false_r. left. reflexivity.
  - split; [reflexivity|].
    destruct (accessors_initialized (decoded g0 g1 g2 flagsByte s0 s1 s2 s3 []))
      as (_ & _ & _ & -> & ->); [reflexivity|].
    cbn [decoded GeoPackageBinaryHeader.envelope GeoPackageBinaryHeader.headerSize].
    rewrite Hcount. split; reflexivity.
Qed.

Lemma C3_invalid_envelope_type_witness :
  exists l h,
    GeoPackageBinaryHeader.Init GeoPackageBinaryHeader.zero
      (Buf [x47; x50; x00; x0f; xe6; x10; x00; x00; xaa]%byte []) = (l, Ret h) /\
    In (Error, InvalidEnvelopeType 7) l /\
    GeoPackageBinaryHeader.initialized h = true /\
    GeoPackageBinaryHeader.Envelope h = ret (Some []) /\
    GeoPackageBinaryHeader.Size h = ret 8.
Proof.
  apply (C3_invalid_envelope_type_defaults GeoPackageBinaryHeader.zero
           (Buf [x47; x50; x00; x0f; xe6; x10; x00; x00; xaa]%byte []) x0f).
  - vm_compute. discriminate.
  - reflexivity.
  - vm_compute. split; discriminate.
Defined.

Lemma envelope_count_nonneg (eType : Z) : 0 <= envelope_count eType.
Proof. destruct eType as [|[[[]|[]|]|[[]|[]|]|]|]; simpl; lia. Qed.

(** C5: whenever Init decodes a header blob, Size() is fixed by the
    envelope-type code of the blob, bits 1..3 of its flags byte (byte 3), which
    is also what EnvelopeType() reports: 8 for code 0, 40 for code 1, 56 for
    codes 2 and 3, 72 for code 4, which is 8 + 8 * the number of envelope
    doubles.  And Init does decode every blob that holds that many bytes. *)
Theorem C5_header_size_by_envelope_type :
  forall (h0 : GeoPackageBinaryHeader.t) (geom : buf),
    (forall l h,
        GeoPackageBinaryHeader.Init h0 geom = (l, Ret h) ->
        exists flagsByte eType e,
          nth_error geom 3 = Some flagsByte /\
          eType = Z.shiftr (Z.land (b2z flagsByte) 14) 1 /\
          GeoPackageBinaryHeader.EnvelopeType h = ret eType /\
          GeoPackageBinaryHeader.Envelope h = ret (Some e) /\
          GeoPackageBinaryHeader.Size h = ret (8 + 8 * len e) /\
          (eType = 0 -> GeoPackageBinaryHeader.Size h = ret 8) /\
          (eType = 1 -> GeoPackageBinaryHeader.Size h = ret 40) /\
          (eType = 2 \/ eType = 3 -> GeoPackageBinaryHeader.Size h = ret 56) /\
          (eType = 4 -> GeoPackageBinaryHeader.Size h = ret 72)) /\
    (forall flagsByte,
        nth_error geom 3 = Some flagsByte ->
        8 + 8 * envelope_count (Z.shiftr (Z.land (b2z flagsByte) 14) 1) <= len geom ->
        exists l h, GeoPackageBinaryHeader.Init h0 geom = (l, Ret h)).
Proof.
  intros h0 geom. split.
  - intros l h Hinit. apply Init_inv in Hinit.
    destruct Hinit as (g0 & g1 & g2 & g3 & s0 & s1 & s2 & s3 & rest & e
                       & Ha & H4 & _ & -> & He).
    exists g3, (eType_of g3), e.
    destruct (accessors_initialized (decoded g0 g1 g2 g3 s0 s1 s2 s3 e))
      as (_ & _ & _ & -> & ->); [reflexivity|].
    cbn [decoded GeoPackageBinaryHeader.envelope GeoPackageBinaryHeader.headerSize].
    split.
    { destruct (index_some (view geom) 3 ltac:(lia)) as [b Hb].
      apply index_array_inv in Hb. destruct Hb as (_ & _ & Hb).
      pose proof Hb as Hb'. rewrite Ha in Hb'. simpl in Hb'. injection Hb' as <-.
      unfold array in Hb. rewrite nth_error_app1 in Hb; [exact Hb|].
      unfold len in H4. simpl. lia. }
    split; [reflexivity|].
    split; [reflexivity|]. split; [reflexivity|].
    rewrite He. split; [reflexivity|].
    split; [|split; [|split]]; intros Ht; try destruct Ht as [Ht|Ht];
      rewrite Ht; reflexivity.
  - intros flagsByte Hflags Hlen.
    change (Z.shiftr (Z.land (b2z flagsByte) 14) 1) with (eType_of flagsByte) in Hlen.
    pose proof (envelope_count_nonneg (eType_of flagsByte)) as Hc.
    pose proof (len_le_cap geom) as Hcap.
    destruct (shape8 (array geom) ltac:(rewrite <- cap_array; lia))
      as (g0 & g1 & g2 & g3 & s0 & s1 & s2 & s3 & rest & Ha).
    apply nth_error_array in Hflags. rewrite Ha in Hflags.
    simpl in Hflags. injection Hflags as ->.
    destruct (Init_ok h0 geom g0 g1 g2 flagsByte s0 s1 s2 s3 rest Ha)
      as (l & e & Hok & _); [lia|lia|].
    eauto.
Qed.

Lemma C5_header_size_witness :
  exists l h,
    GeoPackageBinaryHeader.Init GeoPackageBinaryHeader.zero (Buf header_type1 [])
      = (l, Ret h) /\
    GeoPackageBinaryHeader.EnvelopeType h = ret 1 /\
    GeoPackageBinaryHeader.Size h = ret 40.
Proof.
  destruct (C5_header_size_by_envelope_type GeoPackageBinaryHeader.zero
              (Buf header_type1 []))
    as [Hsize Hruns].
  destruct (Hruns x03 eq_refl) as (l & h & Hinit).
  { vm_compute. discriminate. }
  exists l, h. split; [exact Hinit|].
  destruct (Hsize l h Hinit) as (g3 & eType & e & Hg3 & -> & Ht & _ & _ & _ & H40 & _).
  injection Hg3 as <-.
  split; [exact Ht|]. apply H40. reflexivity.
Defined.

(** ** Polygons *)

Lemma store_length {A} (s s' : list A) (i : Z) (v : A) (l : list event) :
  store s i v = (l, Ret s') -> len s' = len s.
Proof.
  unfold store. destruct ((0 <=? i) && (i <? len s)); [|discriminate].
  intros H. apply ret_inv in H. destruct H as [_ <-].
  unfold len. rewrite set_nth_length. reflexivity.
Qed.

Lemma WKBPoint_Init_ok (p : WKBPoint.t) (w : buf) (order : Z) :
  len w = 16 -> order = wkbXDR \/ order = wkbNDR ->
  exists p', WKBPoint.Init p w order = ret (p', 16).
Proof.
  intros Hl Ho. unfold WKBPoint.Init.
  pose proof (len_le_cap w) as Hcap. pose proof (cap_array w) as Harr.
  replace (len w =? 16) with true by (symmetry; apply Z.eqb_eq; assumption).
  cbn [negb]. rewrite bind_ret_l.
  rewrite (slice_ok w 0 8) by lia. rewrite bind_ret_l. cbn [view].
  destruct (bytesToFloat64_ok (firstn (Z.to_nat (8 - 0)) (skipn (Z.to_nat 0) (array w))) order)
    as [vx Hx]; [|assumption|].
  { unfold len in *. rewrite length_firstn, length_skipn. lia. }
  rewrite Hx, bind_ret_l.
  rewrite (slice_ok w 8 16) by lia. rewrite bind_ret_l. cbn [view].
  destruct (bytesToFloat64_ok (firstn (Z.to_nat (16 - 8)) (skipn (Z.to_nat 8) (array w))) order)
    as [vy Hy]; [|assumption|].
  { unfold len in *. rewrite length_firstn, length_skipn. lia. }
  rewrite Hy, bind_ret_l. eexists. reflexivity.
Qed.

(** The loop of [WKBLinearRing.Init] runs to its end when the points are all
    there, within the capacity, and consumes 16 bytes for each. *)
Lemma WKBLinearRing_Init_loop_ok (bytes : buf) (order : Z) (todo : nat) :
  order = wkbXDR \/ order = wkbNDR ->
  forall (p i : Z) (lr : WKBLinearRing.t),
    0 <= p -> 0 <= i ->
    p + Z.of_nat todo = len (WKBLinearRing.points lr) ->
    i + 16 * Z.of_nat todo <= cap bytes ->
    exists lr',
      WKBLinearRing.Init_loop bytes order todo p i lr
        = ret (lr', i + 16 * Z.of_nat todo) /\
      WKBLinearRing.numPoints lr' = WKBLinearRing.numPoints lr /\
      len (WKBLinearRing.points lr') = len (WKBLinearRing.points lr).
Proof.
  intros Ho. induction todo as [|todo IH]; intros p i lr Hp Hi Hpts Hbytes.
  - exists lr. simpl. rewrite Z.add_0_r. auto.
  - cbn [WKBLinearRing.Init_loop].
    destruct (index_some (WKBLinearRing.points lr) p) as [pt Hpt]; [lia|].
    rewrite Hpt, bind_ret_l.
    rewrite slice_ok by lia. rewrite bind_ret_l.
    match goal with
    | |- context [WKBPoint.Init pt ?w order] =>
      destruct (WKBPoint_Init_ok pt w order) as [pt' Hpt']; [|assumption|]
    end.
    { cbn [view]. rewrite cap_array in Hbytes.
      unfold len in *. rewrite length_firstn, length_skipn. lia. }
    rewrite Hpt', bind_ret_l. rewrite store_ok by lia. rewrite bind_ret_l.
    destruct (IH (p + 1) (i + 16)
                (WKBLinearRing.set_points
                   (set_nth (WKBLinearRing.points lr) (Z.to_nat p) pt') lr))
      as (lr' & Hrun & Hn & Hl).
    + lia.
    + lia.
    + cbn [WKBLinearRing.set_points WKBLinearRing.points].
      unfold len in *. rewrite set_nth_length. lia.
    + lia.
    + exists lr'. split; [|split].
      * replace (i + 16 * Z.of_nat (S todo)) with (i + 16 + 16 * Z.of_nat todo) by lia.
        exact Hrun.
      * rewrite Hn. reflexivity.
      * rewrite Hl. cbn [WKBLinearRing.set_points WKBLinearRing.points].
        unfold len. rewrite set_nth_length. reflexivity.
Qed.

(** A ring laid out in the backing array as its count, its points and
    whatever follows; the count has to lie within the length. *)
Lemma WKBLinearRing_Init_ok (lr : WKBLinearRing.t) (bytes : buf)
      (count pts rest : list byte) (order m : Z) :
  array bytes = count ++ pts ++ rest ->
  4 <= len bytes ->
  bytesToUint32 count order = ret m ->
  len pts = 16 * m ->
  exists lr',
    WKBLinearRing.Init lr bytes order = ret (lr', 4 + 16 * m) /\
    WKBLinearRing.numPoints lr' = m /\
    len (WKBLinearRing.points lr') = m.
Proof.
  intros Ha H4 Hcount Hpts.
  destruct (bytesToUint32_inv _ _ _ _ Hcount) as (_ & Hl4 & Ho).
  pose proof (len_nonneg pts) as Hm.
  pose proof (len_nonneg rest) as Hr.
  unfold WKBLinearRing.Init.
  replace (len bytes <? 4) with false by (symmetry; apply Z.ltb_ge; lia).
  rewrite bind_ret_l. cbv zeta.
  rewrite (slice_array bytes [] count (pts ++ rest) 0 4)
    by (assumption || reflexivity || (rewrite Hl4; reflexivity)).
  rewrite bind_ret_l. cbn [view]. rewrite Hcount, bind_ret_l.
  cbn [WKBLinearRing.set_numPoints WKBLinearRing.set_points
       WKBLinearRing.numPoints WKBLinearRing.points].
  destruct (WKBLinearRing_Init_loop_ok bytes order (Z.to_nat m) Ho
              0 (0 + 4) (WKBLinearRing.mk m (make WKBPoint.zero m)))
    as (lr' & Hrun & Hn & Hl); try lia.
  - cbn [WKBLinearRing.points]. unfold make, len. rewrite repeat_length. lia.
  - rewrite cap_array, Ha, !len_app. lia.
  - exists lr'. split; [|split].
    + replace (4 + 16 * m) with (0 + 4 + 16 * Z.of_nat (Z.to_nat m)) by lia.
      exact Hrun.
    + rewrite Hn. reflexivity.
    + rewrite Hl. cbn [WKBLinearRing.points]. unfold make, len.
      rewrite repeat_length. lia.
Qed.

Lemma wf_rings_len (order : Z) (ms : list Z) (body : list byte) :
  wf_rings order ms body ->
  len body = fold_right (fun m acc => 4 + 16 * m + acc) 0 ms.
Proof.
  induction 1 as [|m ms count pts rest Hc Hp _ IH]; [reflexivity|].
  destruct (bytesToUint32_inv _ _ _ _ Hc) as (_ & Hl4 & _).
  rewrite !len_app. cbn [fold_right]. lia.
Qed.

Lemma wf_polygon_blob_len (ms : list Z) (blob : list byte) :
  wf_polygon_blob ms blob -> len blob = blob_size ms.
Proof.
  intros (flag & ty & cnt & body & -> & _ & Hty & Hcnt & Hrings).
  destruct (bytesToUint32_inv _ _ _ _ Hty) as (_ & Hl1 & _).
  destruct (bytesToUint32_inv _ _ _ _ Hcnt) as (_ & Hl2 & _).
  rewrite len_cons, !len_app, (wf_rings_len _ _ _ Hrings).
  unfold blob_size. lia.
Qed.

(** The loop of [WKBPolygon.Init] over well-formed rings that lie within the
    length of the buffer ends after the last of them. *)
Lemma WKBPolygon_Init_loop_ok (order : Z) (ms : list Z) (body : list byte) :
  wf_rings order ms body ->
  forall (bytes : buf) (prefix rest : list byte) (j : Z) (p : WKBPolygon.t),
    array bytes = prefix ++ body ++ rest ->
    len prefix + len body <= len bytes ->
    0 <= j ->
    j + len ms = len (WKBPolygon.rings p) ->
    exists p',
      WKBPolygon.Init_loop bytes order (length ms) j (len prefix) p
        = ret (p', len prefix + len body) /\
      WKBPolygon.byteOrder p' = WKBPolygon.byteOrder p /\
      WKBPolygon.wkbType p' = WKBPolygon.wkbType p /\
      len (WKBPolygon.rings p') = len (WKBPolygon.rings p).
Proof.
  induction 1 as [|m ms count pts rest0 Hc Hp Hw IH];
    intros bytes prefix rest j p Ha Hfit Hj Hrings.
  - exists p. simpl. change (len (@nil byte)) with 0. rewrite Z.add_0_r. auto.
  - cbn [length WKBPolygon.Init_loop].
    rewrite len_cons in Hrings. pose proof (len_nonneg ms).
    destruct (bytesToUint32_inv _ _ _ _ Hc) as (_ & Hl4 & _).
    pose proof (len_nonneg pts). pose proof (len_nonneg rest0).
    rewrite !len_app in Hfit.
    destruct (index_some (WKBPolygon.rings p) j) as [r Hr]; [lia|].
    rewrite Hr, bind_ret_l.
    destruct (view_split bytes prefix ((count ++ pts ++ rest0) ++ rest) Ha ltac:(lia))
      as (v & Hv & Hvs).
    rewrite (slice_from_ok bytes prefix v) by (assumption || reflexivity).
    rewrite bind_ret_l.
    assert (Hlv : len v = len bytes - len prefix).
    { rewrite Hv, len_app. lia. }
    destruct (WKBLinearRing_Init_ok r (Buf v (spare bytes)) count pts (rest0 ++ rest)
                order m) as (r' & Hinit & _ & _).
    + unfold array. cbn [view spare]. rewrite <- Hvs, <- !app_assoc. reflexivity.
    + cbn [view]. lia.
    + assumption.
    + assumption.
    + rewrite Hinit, bind_ret_l. rewrite store_ok by lia. rewrite bind_ret_l.
      destruct (IH bytes (prefix ++ count ++ pts) rest (j + 1)
                  (WKBPolygon.set_rings
                     (set_nth (WKBPolygon.rings p) (Z.to_nat j) r') p))
        as (p' & Hrun & Hb & Ht & Hl).
      * rewrite Ha, <- !app_assoc. reflexivity.
      * rewrite !len_app. lia.
      * lia.
      * cbn [WKBPolygon.set_rings WKBPolygon.rings]. unfold len in *.
        rewrite set_nth_length. lia.
      * exists p'.
        replace (len prefix + (4 + 16 * m)) with (len (prefix ++ count ++ pts))
          by (rewrite !len_app; lia).
        replace (len prefix + len (count ++ pts ++ rest0))
          with (len (prefix ++ count ++ pts) + len rest0)
          by (rewrite !len_app; lia).
        split; [exact Hrun|].
        rewrite Hb, Ht, Hl. cbn [WKBPolygon.set_rings WKBPolygon.rings
                                 WKBPolygon.byteOrder WKBPolygon.wkbType].
        unfold len. rewrite set_nth_length. auto.
Qed.

Lemma WKBPolygon_Init_ok (p : WKBPolygon.t) (ms : list Z) (blob : buf) :
  wf_polygon_blob ms blob ->
  exists p',
    WKBPolygon.Init p blob = ret (p', len blob) /\
    WKBPolygon.Type' p' = 3 /\
    len (WKBPolygon.rings p') = len ms.
Proof.
  intros (flag & ty & cnt & body & Hblob & Hflag & Hty & Hcnt & Hrings).
  destruct (bytesToUint32_inv _ _ _ _ Hty) as (_ & Hl1 & _).
  destruct (bytesToUint32_inv _ _ _ _ Hcnt) as (_ & Hl2 & _).
  assert (Ha : array blob = flag :: ty ++ cnt ++ body ++ spare blob).
  { unfold array. rewrite Hblob. cbn [app]. rewrite <- !app_assoc. reflexivity. }
  assert (Hlen : len blob = 9 + len body).
  { rewrite Hblob, len_cons, !len_app. lia. }
  pose proof (len_nonneg body) as Hnb.
  unfold WKBPolygon.Init. cbv zeta.
  rewrite (index_array blob 0 flag) by (lia || (rewrite Ha; reflexivity)).
  rewrite bind_ret_l.
  rewrite (slice_array blob [flag] ty (cnt ++ body ++ spare blob) (0 + 1) (0 + 1 + 4))
    by (assumption || reflexivity || (rewrite Hl1; reflexivity)).
  rewrite bind_ret_l. cbn [view]. rewrite Hty, bind_ret_l.
  change (map_get WKBTypeFlags "WKBPolygon") with 3.
  change (negb (3 =? 3)) with false. cbv iota. rewrite bind_ret_l.
  rewrite (slice_array blob (flag :: ty) cnt (body ++ spare blob)
             (0 + 1 + 4) (0 + 1 + 4 + 4))
    by (assumption || (rewrite len_cons, Hl1, ?Hl2; reflexivity)).
  rewrite bind_ret_l. cbn [view]. rewrite Hcnt, bind_ret_l.
  destruct (WKBPolygon_Init_loop_ok (b2z flag) ms body Hrings blob (flag :: ty ++ cnt)
              (spare blob) 0
              (WKBPolygon.set_rings (make WKBLinearRing.zero (len ms))
                 (WKBPolygon.set_wkbType 3 (WKBPolygon.set_byteOrder flag p))))
    as (p' & Hrun & _ & Ht & Hl).
  - rewrite Ha. cbn [app]. rewrite <- !app_assoc. reflexivity.
  - rewrite len_cons, len_app. lia.
  - lia.
  - cbn [WKBPolygon.set_rings WKBPolygon.rings]. unfold make, len.
    rewrite repeat_length. lia.
  - exists p'.
    replace (len (flag :: ty ++ cnt)) with (0 + 1 + 4 + 4) in Hrun
      by (rewrite len_cons, len_app; lia).
    replace (0 + 1 + 4 + 4 + len body) with (len blob) in Hrun by lia.
    replace (Z.to_nat (len ms)) with (length ms)
      by (unfold len; rewrite Nat2Z.id; reflexivity).
    split; [exact Hrun|]. split.
    + unfold WKBPolygon.Type'. rewrite Ht. reflexivity.
    + rewrite Hl. cbn [WKBPolygon.set_rings WKBPolygon.rings]. unfold make, len.
      rewrite repeat_length. lia.
Qed.

Lemma readNextGeometry_polygon (blob : buf) (ms : list Z) (p : WKBPolygon.t) :
  wf_polygon_blob ms blob ->
  WKBPolygon.Init WKBPolygon.zero blob = ret (p, len blob) ->
  readNextGeometry blob = ret (Some (IsPolygon p), len blob).
Proof.
  intros (flag & ty & cnt & body & Hblob & Hflag & Hty & Hcnt & Hrings) Hinit.
  destruct (bytesToUint32_inv _ _ _ _ Hty) as (_ & Hl1 & _).
  assert (Ha : array blob = flag :: ty ++ cnt ++ body ++ spare blob).
  { unfold array. rewrite Hblob. cbn [app]. rewrite <- !app_assoc. reflexivity. }
  assert (Hlen : 1 <= len blob).
  { rewrite Hblob, len_cons. pose proof (len_nonneg (ty ++ cnt ++ body)). lia. }
  unfold readNextGeometry.
  replace (len blob =? 0) with false by (symmetry; apply Z.eqb_neq; lia).
  rewrite (index_array blob 0 flag) by (lia || (rewrite Ha; reflexivity)).
  rewrite bind_ret_l.
  rewrite (slice_array blob [flag] ty (cnt ++ body ++ spare blob) 1 5)
    by (assumption || reflexivity || (rewrite Hl1; reflexivity)).
  rewrite bind_ret_l. cbn [view]. rewrite Hty, bind_ret_l.
  change (newWKBGeometry 3) with (ret (Some (IsPolygon WKBPolygon.zero))).
  rewrite bind_ret_l.
  cbn [geomInit WKBGeometry_methods WKBPolygon_methods].
  rewrite Hinit, !bind_ret_l. reflexivity.
Qed.

(** C6: on every well-formed single-polygon blob (byte-order flag 0 or 1, type
    code 3, a ring count, and for each ring its point count m and 16 * m bytes
    of points, so 9 + the sum of 4 + 16 * m bytes in all), the polygon decode
    returns, and the byte count it reports is the length of the blob, from
    WKBPolygon.Init and from readNextGeometry alike, whatever the capacity of
    the buffer holds after the blob. *)
Theorem C6_polygon_consumes_whole_blob :
  forall (ms : list Z) (blob : buf),
    wf_polygon_blob ms blob ->
    len blob = blob_size ms /\
    (forall p0, exists p, WKBPolygon.Init p0 blob = ret (p, len blob)) /\
    exists p,
      readNextGeometry blob = ret (Some (IsPolygon p), len blob) /\
      len (WKBPolygon.rings p) = len ms.
Proof.
  intros ms blob Hwf. split; [apply wf_polygon_blob_len; assumption|]. split.
  - intros p0. destruct (WKBPolygon_Init_ok p0 ms blob Hwf) as (p & Hinit & _).
    eauto.
  - destruct (WKBPolygon_Init_ok WKBPolygon.zero ms blob Hwf) as (p & Hinit & _ & Hl).
    exists p. split; [|assumption].
    apply (readNextGeometry_polygon blob ms); assumption.
Qed.

Lemma one_ring_polygon_wf : wf_polygon_blob [1] one_ring_polygon.
Proof.
  exists x01, [x03; x00; x00; x00]%byte, [x01; x00; x00; x00]%byte, one_point_ring.
  split; [reflexivity|]. split; [right; reflexivity|].
  split; [reflexivity|]. split; [reflexivity|].
  apply (wf_rings_cons _ 1 [] [x01; x00; x00; x00]%byte
           [x00; x00; x00; x00; x00; x00; x00; x00;
            x00; x00; x00; x00; x00; x00; xf0; x3f]%byte []).
  - reflexivity.
  - reflexivity.
  - constructor.
Qed.

Lemma C6_polygon_consumes_whole_blob_witness :
  len one_ring_polygon = 29 /\
  exists p, readNextGeometry (Buf one_ring_polygon [x07]%byte)
            = ret (Some (IsPolygon p), 29).
Proof.
  destruct (C6_polygon_consumes_whole_blob [1] (Buf one_ring_polygon [x07]%byte)
              one_ring_polygon_wf)
    as (Hlen & _ & p & Hp & _).
  split; [exact Hlen|]. exists p. rewrite Hp. f_equal.
Defined.

(** ** Consumed counts stay inside the capacity, and the stream reader ends *)

Lemma WKBLinearRing_Init_loop_inv (bytes : buf) (order : Z) (todo : nat) :
  forall (p i n : Z) (lr lr' : WKBLinearRing.t) (l : list event),
    WKBLinearRing.Init_loop bytes order todo p i lr = (l, Ret (lr', n)) ->
    i <= cap bytes -> i <= n <= cap bytes.
Proof.
  induction todo as [|todo IH]; intros p i n lr lr' l H Hi.
  - apply ret_inv in H. destruct H as [_ H]. injection H as _ <-. lia.
  - cbn [WKBLinearRing.Init_loop] in H.
    inv_step H as pt Hpt. inv_step H as w Hw. inv_step H as r Hr.
    destruct r as [pt' c]. inv_step H as pts Hpts.
    apply slice_inv in Hw. apply IH in H; lia.
Qed.

Lemma WKBLinearRing_Init_inv (lr lr' : WKBLinearRing.t) (bytes : buf)
      (order n : Z) (l : list event) :
  WKBLinearRing.Init lr bytes order = (l, Ret (lr', n)) ->
  4 <= len bytes /\ 4 <= n <= cap bytes.
Proof.
  unfold WKBLinearRing.Init. intros H. cbv zeta in H.
  destruct (len bytes <? 4) eqn:E; [discriminate|]. apply Z.ltb_ge in E.
  rewrite bind_ret_l in H.
  inv_step H as w Hw. inv_step H as c Hc.
  apply slice_inv in Hw.
  apply WKBLinearRing_Init_loop_inv in H; lia.
Qed.

Lemma WKBPolygon_Init_loop_inv (bytes : buf) (order : Z) (todo : nat) :
  forall (j i n : Z) (p p' : WKBPolygon.t) (l : list event),
    WKBPolygon.Init_loop bytes order todo j i p = (l, Ret (p', n)) ->
    i <= cap bytes -> i <= n <= cap bytes.
Proof.
  induction todo as [|todo IH]; intros j i n p p' l H Hi.
  - apply ret_inv in H. destruct H as [_ H]. injection H as _ <-. lia.
  - cbn [WKBPolygon.Init_loop] in H.
    inv_step H as r Hr. inv_step H as w Hw. inv_step H as rc Hrc.
    destruct rc as [r' c]. inv_step H as rs Hrs.
    apply slice_from_inv in Hw. apply WKBLinearRing_Init_inv in Hrc.
    apply IH in H; lia.
Qed.

Lemma WKBPolygon_Init_inv (p p' : WKBPolygon.t) (bytes : buf) (n : Z)
      (l : list event) :
  WKBPolygon.Init p bytes = (l, Ret (p', n)) -> 1 <= len bytes /\ 9 <= n <= cap bytes.
Proof.
  unfold WKBPolygon.Init. intros H. cbv zeta in H.
  inv_step H as b Hb. inv_step H as w Hw. inv_step H as ty Hty.
  inv_step H as u Hu. inv_step H as w' Hw'. inv_step H as c Hc.
  apply index_inv in Hb.
  apply slice_inv in Hw'.
  apply WKBPolygon_Init_loop_inv in H; lia.
Qed.

Lemma readNextGeometry_inv (bytes : buf) (g : option WKBGeometry) (n : Z)
      (l : list event) :
  readNextGeometry bytes = (l, Ret (g, n)) ->
  len bytes = 0 /\ n = 0 /\ g = None \/ 9 <= n <= cap bytes /\ g <> None.
Proof.
  unfold readNextGeometry. intros H.
  destruct (len bytes =? 0) eqn:E.
  - apply Z.eqb_eq in E. apply ret_inv in H. destruct H as [_ H].
    injection H as <- <-. auto.
  - right. inv_step H as b Hb. inv_step H as w Hw. inv_step H as ty Hty.
    inv_step H as ng Hng. destruct ng as [[p]|]; [|discriminate].
    inv_step H as r Hr. destruct r as [g' c].
    apply ret_inv in H. destruct H as [_ H]. injection H as <- <-.
    cbn [geomInit WKBGeometry_methods WKBPolygon_methods] in Hr.
    inv_step Hr as r Hp. destruct r as [p' c'].
    apply ret_inv in Hr. destruct Hr as [_ Hr]. injection Hr as _ <-.
    apply WKBPolygon_Init_inv in Hp. split; [lia|discriminate].
Qed.

Lemma fuel_free_ret {A} (a : A) : fuel_free (ret a).
Proof. discriminate. Qed.

Lemma fuel_free_panic {A} : fuel_free (@panic A).
Proof. discriminate. Qed.

Lemma fuel_free_Fatal {A} (m : message) : fuel_free (@log_Fatal A m).
Proof. discriminate. Qed.

Lemma fuel_free_logAt (lv : level) (m : message) : fuel_free (logAt lv m).
Proof. discriminate. Qed.

Lemma fuel_free_bind {A B} (m : M A) (k : A -> M B) :
  fuel_free m -> (forall a, fuel_free (k a)) -> fuel_free (bind m k).
Proof.
  destruct m as [l [a|s]]; intros Hm Hk.
  - unfold fuel_free. rewrite bind_Ret. apply Hk.
  - unfold fuel_free in *. rewrite bind_Stop. cbn [snd] in *.
    intros H. apply Hm. injection H as ->. reflexivity.
Qed.

Create HintDb nofuel.
#[local] Hint Resolve fuel_free_ret fuel_free_panic fuel_free_Fatal fuel_free_logAt
  : nofuel.

Ltac nofuel :=
  repeat first
    [ solve [auto with nofuel]
    | apply fuel_free_bind; [|intros ?]
    | match goal with
      | |- fuel_free (if ?c then _ else _) => destruct c
      | |- fuel_free (match ?x with _ => _ end) => destruct x
      | |- fuel_free (let (_, _) := ?x in _) => destruct x
      end ].

Lemma fuel_free_index {A} (s : list A) (i : Z) : fuel_free (index s i).
Proof. unfold index. nofuel. Qed.

Lemma fuel_free_slice (s : buf) (lo hi : Z) : fuel_free (slice s lo hi).
Proof. unfold slice. nofuel. Qed.

Lemma fuel_free_store {A} (s : list A) (i : Z) (v : A) : fuel_free (store s i v).
Proof. unfold store. nofuel. Qed.

#[local] Hint Resolve fuel_free_index fuel_free_slice fuel_free_store : nofuel.

Lemma fuel_free_bytesToUint32 (bytes : list byte) (order : Z) :
  fuel_free (bytesToUint32 bytes order).
Proof. unfold bytesToUint32, bitConversion, Uint32. nofuel. Qed.

Lemma fuel_free_bytesToFloat64 (bytes : list byte) (order : Z) :
  fuel_free (bytesToFloat64 bytes order).
Proof. unfold bytesToFloat64, bitConversion, Uint64. nofuel. Qed.

#[local] Hint Resolve fuel_free_bytesToUint32 fuel_free_bytesToFloat64 : nofuel.

Lemma fuel_free_WKBPoint_Init (p : WKBPoint.t) (bytes : buf) (order : Z) :
  fuel_free (WKBPoint.Init p bytes order).
Proof. unfold WKBPoint.Init. nofuel. Qed.

#[local] Hint Resolve fuel_free_WKBPoint_Init : nofuel.

Lemma fuel_free_WKBLinearRing_Init_loop (bytes : buf) (order : Z) (todo : nat) :
  forall p i lr, fuel_free (WKBLinearRing.Init_loop bytes order todo p i lr).
Proof.
  induction todo as [|todo IH]; intros p i lr; cbn [WKBLinearRing.Init_loop]; nofuel.
Qed.

#[local] Hint Resolve fuel_free_WKBLinearRing_Init_loop : nofuel.

Lemma fuel_free_WKBLinearRing_Init (lr : WKBLinearRing.t) (bytes : buf)
      (order : Z) :
  fuel_free (WKBLinearRing.Init lr bytes order).
Proof. unfold WKBLinearRing.Init. nofuel. Qed.

#[local] Hint Resolve fuel_free_WKBLinearRing_Init : nofuel.

Lemma fuel_free_WKBPolygon_Init_loop (bytes : buf) (order : Z) (todo : nat) :
  forall j i p, fuel_free (WKBPolygon.Init_loop bytes order todo j i p).
Proof.
  induction todo as [|todo IH]; intros j i p; cbn [WKBPolygon.Init_loop];
    unfold slice_from; nofuel.
Qed.

#[local] Hint Resolve fuel_free_WKBPolygon_Init_loop : nofuel.

Lemma fuel_free_WKBPolygon_Init (p : WKBPolygon.t) (bytes : buf) :
  fuel_free (WKBPolygon.Init p bytes).
Proof. unfold WKBPolygon.Init. nofuel. Qed.

#[local] Hint Resolve fuel_free_WKBPolygon_Init : nofuel.

Lemma fuel_free_readNextGeometry (bytes : buf) :
  fuel_free (readNextGeometry bytes).
Proof.
  unfold readNextGeometry, newWKBGeometry.
  cbn [geomInit WKBGeometry_methods WKBPolygon_methods]. nofuel.
Qed.

(** With more fuel than bytes left in the length the loop never runs out of
    fuel, and when it returns the cursor is at the end of the length or past
    it, within the capacity. *)
Lemma readGeometries_loop_runs (bytes : buf) (fuel : nat) :
  forall (i : Z) (geoms : list WKBGeometry),
    0 <= i <= cap bytes ->
    len bytes - i < Z.of_nat fuel ->
    match snd (readGeometries_loop fuel bytes (len bytes) i geoms) with
    | Ret (_, n) => len bytes <= n <= cap bytes
    | Stop s => s <> OutOfFuel
    end.
Proof.
  induction fuel as [|fuel IH]; intros i geoms Hi Hfuel;
    cbn [readGeometries_loop];
    destruct (Z.ltb_spec i (len bytes)) as [Hlt|Hge]; try (simpl; lia).
  destruct (slice_from bytes i) as [lw [w|s]] eqn:Hw.
  - pose proof (slice_from_inv _ _ _ _ Hw) as (-> & _ & _ & _ & _ & Hlw & Hcw).
    change (@nil event, Ret w) with (ret w). rewrite bind_ret_l.
    destruct (readNextGeometry w) as [lr [[g n]|s]] eqn:Hr.
    + rewrite bind_Ret. cbn [snd].
      apply readNextGeometry_inv in Hr.
      destruct Hr as [(? & _ & _) | (Hn & _)]; [lia|].
      apply IH; lia.
    + rewrite bind_Stop. cbn [snd].
      pose proof (fuel_free_readNextGeometry w) as Hf.
      unfold fuel_free in Hf. rewrite Hr in Hf. cbn [snd] in Hf. congruence.
  - rewrite bind_Stop. cbn [snd].
    pose proof (fuel_free_slice bytes i (len bytes)) as Hf.
    unfold fuel_free, slice_from in *. rewrite Hw in Hf. cbn [snd] in Hf. congruence.
Qed.

(** The fuel [readGeometries] gives its loop is enough: it returns, or stops
    as the Go code does.  A count it returns is at least the length of the
    buffer and at most its capacity. *)
Theorem readGeometries_total (bytes : buf) :
  fuel_free (readGeometries bytes) /\
  (forall l geoms n,
      readGeometries bytes = (l, Ret (geoms, n)) -> len bytes <= n <= cap bytes).
Proof.
  pose proof (readGeometries_loop_runs bytes (S (length bytes)) 0 []) as Hloop.
  pose proof (len_le_cap bytes) as Hcap. pose proof (len_nonneg bytes) as Hnn.
  unfold readGeometries. cbv zeta. unfold logAt at 1. rewrite bind_Ret. cbn [fst snd].
  destruct (readGeometries_loop (S (length bytes)) bytes (len bytes) 0 [])
    as [ll [[geoms n]|s]] eqn:E; cbn [snd] in Hloop.
  - assert (Hn : len bytes <= n <= cap bytes).
    { apply Hloop; unfold len in *; lia. }
    rewrite bind_Ret. split.
    + unfold fuel_free. cbn [snd]. destruct (negb (n =? len bytes)); discriminate.
    + intros l geoms' n'. destruct (negb (n =? len bytes)); cbn; intros H;
        injection H as _ _ <-; exact Hn.
  - rewrite bind_Stop. cbn [fst snd]. split.
    + unfold fuel_free. cbn [snd]. intros H. injection H as ->.
      apply Hloop; [unfold len in *; lia|unfold len; lia|reflexivity].
    + discriminate.
Qed.

(** ** The two decodes of an srs_id window *)

Lemma to_int32_small (z : Z) : - 2 ^ 31 <= z < 2 ^ 31 -> to_int32 z = z.
Proof. intros H. unfold to_int32. rewrite Z.mod_small; lia. Qed.

Lemma to_int32_range (z : Z) : - 2 ^ 31 <= to_int32 z < 2 ^ 31.
Proof.
  unfold to_int32. pose proof (Z.mod_pos_bound (z + 2 ^ 31) (2 ^ 32) ltac:(lia)). lia.
Qed.

(** The three shifts and joins of [bytesToInt32], from the high byte [a] down
    to the low byte [d]. *)
Lemma int32_join (a b c d : byte) :
  or_int32 (shl8_int32 (or_int32 (shl8_int32 (or_int32 (shl8_int32
    (b2z a)) (b2z b))) (b2z c))) (b2z d)
  = to_int32 (b2z a * 2 ^ 24 + b2z b * 2 ^ 16 + b2z c * 2 ^ 8 + b2z d).
Proof.
  pose proof (b2z_range a). pose proof (b2z_range b).
  pose proof (b2z_range c). pose proof (b2z_range d).
  unfold shl8_int32, or_int32.
  rewrite !Z.shiftl_mul_pow2 by lia. change (2 ^ 8) with 256.
  rewrite (to_int32_small (b2z a * 256)) by lia.
  rewrite (lor_low_byte (b2z a)) by lia.
  rewrite (to_int32_small (b2z a * 256 + b2z b)) by lia.
  rewrite (to_int32_small ((b2z a * 256 + b2z b) * 256)) by lia.
  rewrite (lor_low_byte (b2z a * 256 + b2z b)) by lia.
  rewrite (to_int32_small ((b2z a * 256 + b2z b) * 256 + b2z c)) by lia.
  set (X := (b2z a * 256 + b2z b) * 256 + b2z c).
  assert (HX : 0 <= X < 2 ^ 24) by (unfold X; lia).
  assert (Hq : exists q, to_int32 (X * 256) = q * 256 /\
                         (q = X \/ q = X - 2 ^ 24) /\ - 2 ^ 23 <= q < 2 ^ 23).
  { destruct (Z.lt_ge_cases X (2 ^ 23)).
    - exists X. rewrite to_int32_small by lia. lia.
    - exists (X - 2 ^ 24). split; [|lia].
      unfold to_int32.
      replace (X * 256 + 2 ^ 31) with (X * 256 - 2 ^ 31 + 1 * 2 ^ 32) by lia.
      rewrite Z.mod_add by lia. rewrite Z.mod_small by lia. lia. }
  destruct Hq as (q & Hq & Hcase & Hrange).
  rewrite Hq, lor_low_byte by lia.
  rewrite to_int32_small by lia.
  replace (b2z a * 2 ^ 24 + b2z b * 2 ^ 16 + b2z c * 256 + b2z d)
    with (X * 256 + b2z d) by (unfold X; lia).
  destruct Hcase as [-> | ->].
  - rewrite to_int32_small by lia. reflexivity.
  - unfold to_int32.
    replace (X * 256 + b2z d + 2 ^ 31)
      with (X * 256 + b2z d - 2 ^ 31 + 1 * 2 ^ 32) by lia.
    rewrite Z.mod_add by lia. rewrite Z.mod_small by lia. lia.
Qed.

Lemma int32_of_little_endian (s0 s1 s2 s3 : byte) :
  int32_of s0 s1 s2 s3 wkbNDR
  = to_int32 (b2z s3 * 2 ^ 24 + b2z s2 * 2 ^ 16 + b2z s1 * 2 ^ 8 + b2z s0).
Proof. unfold int32_of. cbn [Z.eqb wkbNDR Pos.eqb]. apply int32_join. Qed.

Lemma int32_of_big_endian (s0 s1 s2 s3 : byte) :
  int32_of s0 s1 s2 s3 wkbXDR
  = to_int32 (b2z s0 * 2 ^ 24 + b2z s1 * 2 ^ 16 + b2z s2 * 2 ^ 8 + b2z s3).
Proof. unfold int32_of. cbn [Z.eqb wkbNDR wkbXDR]. apply int32_join. Qed.

(** No four bytes read -5 little-endian and 4326 big-endian: the bytes of -5
    are FB FF FF FF, which read -67108865 big-endian. *)
Lemma minus5_little_endian_not_4326_big_endian (s0 s1 s2 s3 : byte) :
  int32_of s0 s1 s2 s3 wkbNDR = -5 ->
  int32_of s0 s1 s2 s3 wkbXDR = -67108865.
Proof.
  rewrite int32_of_little_endian, int32_of_big_endian.
  pose proof (b2z_range s0). pose proof (b2z_range s1).
  pose proof (b2z_range s2). pose proof (b2z_range s3).
  intros H5.
  set (v := b2z s3 * 2 ^ 24 + b2z s2 * 2 ^ 16 + b2z s1 * 2 ^ 8 + b2z s0) in *.
  assert (Hv : 0 <= v < 2 ^ 32) by (unfold v; lia).
  assert (Hsum : v = 2 ^ 32 - 5).
  { clearbody v. unfold to_int32 in H5.
    change (2 ^ 31) with 2147483648 in *. change (2 ^ 32) with 4294967296 in *.
    Z.div_mod_to_equations. lia. }
  unfold v in Hsum.
  assert (b2z s3 = 255 /\ b2z s2 = 255 /\ b2z s1 = 255 /\ b2z s0 = 251)
    as (-> & -> & -> & ->) by lia.
  reflexivity.
Qed.

(** ** Writing a polygon blob *)

Lemma b2z_z2b (z : Z) : b2z (z2b z) = z mod 256.
Proof.
  unfold z2b, b2z. pose proof (Z.mod_pos_bound z 256 ltac:(lia)).
  destruct (Byte.of_N (Z.to_N (z mod 256))) as [b|] eqn:E.
  - apply Byte.to_of_N in E. rewrite E. lia.
  - apply Byte.of_N_None_iff in E. lia.
Qed.

Lemma bytesToUint32_put (order n : Z) :
  order = wkbXDR \/ order = wkbNDR -> 0 <= n < 2 ^ 32 ->
  bytesToUint32 (put_uint32 order n) order = ret n.
Proof.
  intros Ho Hn.
  assert (Hjoin :
    Z.lor (Z.lor (Z.lor (b2z (z2b n)) (Z.shiftl (b2z (z2b (n / 2 ^ 8))) 8))
                 (Z.shiftl (b2z (z2b (n / 2 ^ 16))) 16))
          (Z.shiftl (b2z (z2b (n / 2 ^ 24))) 24) = n).
  { rewrite !b2z_z2b, !Z.shiftl_mul_pow2 by lia.
    pose proof (Z.mod_pos_bound n 256 ltac:(lia)).
    pose proof (Z.mod_pos_bound (n / 2 ^ 8) 256 ltac:(lia)).
    pose proof (Z.mod_pos_bound (n / 2 ^ 16) 256 ltac:(lia)).
    pose proof (Z.mod_pos_bound (n / 2 ^ 24) 256 ltac:(lia)).
    rewrite (Z.lor_comm (n mod 256)), lor_low_bits by lia.
    rewrite (Z.lor_comm _ ((n / 2 ^ 16) mod 256 * 2 ^ 16)), lor_low_bits by lia.
    rewrite (Z.lor_comm _ ((n / 2 ^ 24) mod 256 * 2 ^ 24)), lor_low_bits by lia.
    change (2 ^ 8) with 256. change (2 ^ 16) with 65536.
    change (2 ^ 24) with 16777216. change (2 ^ 32) with 4294967296 in Hn.
    Z.div_mod_to_equations. lia. }
  unfold bytesToUint32, put_uint32.
  destruct Ho as [-> | ->]; cbn [Z.eqb wkbXDR wkbNDR Pos.eqb];
    change (negb (len _ =? 4)) with false; cbv iota;
    rewrite bind_ret_l; unfold bitConversion; cbn [Z.eqb wkbXDR wkbNDR Pos.eqb];
    rewrite bind_ret_l; unfold Uint32; rewrite Hjoin; reflexivity.
Qed.

Lemma ring_payloads_wf (order : Z) (payloads : list (list byte)) :
  order = wkbXDR \/ order = wkbNDR ->
  Forall (fun pl => len pl mod 16 = 0 /\ len pl / 16 < 2 ^ 32) payloads ->
  wf_rings order (map (fun pl => len pl / 16) payloads)
           (concat (map (ring_bytes order) payloads)).
Proof.
  intros Ho. induction 1 as [|pl pls [Hmod Hlt] _ IH]; [constructor|].
  cbn [map concat]. unfold ring_bytes at 1. rewrite <- app_assoc.
  pose proof (len_nonneg pl).
  constructor; [|apply Z.div_exact in Hmod; lia|assumption].
  apply bytesToUint32_put; [assumption|].
  split; [apply Z.div_pos; lia|assumption].
Qed.

(** Well-formed blobs exist for every byte order, ring count and point
    counts below 2 ^ 32: the written blob of any rings is one. *)
Lemma polygon_blob_wf (flag : byte) (payloads : list (list byte)) :
  b2z flag = wkbXDR \/ b2z flag = wkbNDR ->
  len payloads < 2 ^ 32 ->
  Forall (fun pl => len pl mod 16 = 0 /\ len pl / 16 < 2 ^ 32) payloads ->
  wf_polygon_blob (map (fun pl => len pl / 16) payloads) (polygon_blob flag payloads).
Proof.
  intros Ho Hn Hpl. unfold polygon_blob.
  eexists _, _, _, _. split; [reflexivity|]. split; [assumption|].
  split; [apply bytesToUint32_put; [assumption|lia]|].
  split.
  - replace (len (map (fun pl => len pl / 16) payloads)) with (len payloads)
      by (unfold len; rewrite length_map; reflexivity).
    apply bytesToUint32_put; [assumption|]. pose proof (len_nonneg payloads). lia.
  - apply ring_payloads_wf; assumption.
Qed.

(** ** A whole feature *)

Example unit_square_feature_decodes :
  let zero := Float64frombits 0 in
  let one := Float64frombits 0x3ff0000000000000 in
  exists h,
    returned (GeoPackageBinaryHeader.Init GeoPackageBinaryHeader.zero
                (Buf unit_square_feature []))
      = Some h /\
    GeoPackageBinaryHeader.Magic h = ret 0x4750 /\
    GeoPackageBinaryHeader.EnvelopeType h = ret 1 /\
    GeoPackageBinaryHeader.SRSId h = ret 3857 /\
    GeoPackageBinaryHeader.Envelope h = ret (Some [zero; one; zero; one]) /\
    GeoPackageBinaryHeader.Size h = ret 40 /\
    returned (w <- slice_from (Buf unit_square_feature []) 40 ;; readGeometries w)
      = Some ([IsPolygon
                 (WKBPolygon.mk x01 3 0
                    [WKBLinearRing.mk 4
                       [WKBPoint.mk zero zero; WKBPoint.mk one zero;
                        WKBPoint.mk one one; WKBPoint.mk zero one]])], 77).
Proof.
  cbv zeta. eexists. split; [reflexivity|]. repeat split.
Qed.

(** * Further properties of the decoder *)

(** ** Scalars: values, ranges and round trips *)

Lemma uint32_join (a b c d : Z) :
  0 <= a < 256 -> 0 <= b < 256 -> 0 <= c < 256 -> 0 <= d < 256 ->
  Z.lor (Z.lor (Z.lor a (Z.shiftl b 8)) (Z.shiftl c 16)) (Z.shiftl d 24)
  = a + b * 2 ^ 8 + c * 2 ^ 16 + d * 2 ^ 24.
Proof.
  intros Ha Hb Hc Hd. rewrite !Z.shiftl_mul_pow2 by lia.
  rewrite (Z.lor_comm a), lor_low_bits by lia.
  rewrite (Z.lor_comm _ (c * 2 ^ 16)), lor_low_bits by lia.
  rewrite (Z.lor_comm _ (d * 2 ^ 24)), lor_low_bits by lia.
  lia.
Qed.

(** The unsigned value of a window of four bytes in a byte order. *)
Lemma bytesToUint32_four (b0 b1 b2 b3 : byte) (order : Z) :
  order = wkbXDR \/ order = wkbNDR ->
  bytesToUint32 [b0; b1; b2; b3] order
  = ret (if order =? wkbNDR
         then b2z b0 + b2z b1 * 2 ^ 8 + b2z b2 * 2 ^ 16 + b2z b3 * 2 ^ 24
         else b2z b3 + b2z b2 * 2 ^ 8 + b2z b1 * 2 ^ 16 + b2z b0 * 2 ^ 24).
Proof.
  pose proof (b2z_range b0). pose proof (b2z_range b1).
  pose proof (b2z_range b2). pose proof (b2z_range b3).
  intros [-> | ->]; unfold bytesToUint32; change (negb (len _ =? 4)) with false;
    cbv iota; rewrite bind_ret_l; unfold bitConversion;
    cbn [Z.eqb wkbXDR wkbNDR Pos.eqb]; rewrite bind_ret_l; unfold Uint32;
    rewrite uint32_join by assumption; reflexivity.
Qed.

Lemma z2b_b2z_mod (z : Z) (b : byte) : z mod 256 = b2z b -> z2b z = b.
Proof.
  intros H. unfold z2b. rewrite H. unfold b2z. rewrite N2Z.id.
  rewrite Byte.of_to_N. reflexivity.
Qed.

Lemma bytesToUint32_facts (w : list byte) (order n : Z) :
  bytesToUint32 w order = ret n ->
  0 <= n < 2 ^ 32 /\
  put_uint32 order n = w /\
  bytesToInt32 w order = ret (to_int32 n).
Proof.
  intros H.
  destruct (bytesToUint32_inv _ _ _ _ H) as (_ & _ & Ho).
  destruct (bytesToUint32_window _ _ _ _ H) as (b0 & b1 & b2 & b3 & ->).
  rewrite bytesToUint32_four in H by assumption.
  apply ret_inv in H. destruct H as [_ H].
  pose proof (b2z_range b0). pose proof (b2z_range b1).
  pose proof (b2z_range b2). pose proof (b2z_range b3).
  change (2 ^ 8) with 256 in *. change (2 ^ 16) with 65536 in *.
  change (2 ^ 24) with 16777216 in *. change (2 ^ 32) with 4294967296.
  rewrite bytesToInt32_four.
  destruct Ho as [-> | ->]; cbn [Z.eqb wkbXDR wkbNDR Pos.eqb] in H; subst n.
  - split; [lia|]. split.
    + unfold put_uint32. cbn [Z.eqb wkbXDR wkbNDR].
      change (2 ^ 8) with 256. change (2 ^ 16) with 65536.
      change (2 ^ 24) with 16777216.
      f_equal; [|f_equal; [|f_equal; [|f_equal]]]; apply z2b_b2z_mod;
        Z.div_mod_to_equations; lia.
    + rewrite int32_of_big_endian. do 2 f_equal.
      change (2 ^ 8) with 256. change (2 ^ 16) with 65536.
      change (2 ^ 24) with 16777216. lia.
  - split; [lia|]. split.
    + unfold put_uint32. cbn [Z.eqb wkbXDR wkbNDR Pos.eqb].
      change (2 ^ 8) with 256. change (2 ^ 16) with 65536.
      change (2 ^ 24) with 16777216.
      f_equal; [|f_equal; [|f_equal; [|f_equal]]]; apply z2b_b2z_mod;
        Z.div_mod_to_equations; lia.
    + rewrite int32_of_little_endian. do 2 f_equal.
      change (2 ^ 8) with 256. change (2 ^ 16) with 65536.
      change (2 ^ 24) with 16777216. lia.
Qed.

(** X1: a uint32 that bytesToUint32 returns lies in 0 .. 2^32 - 1, writing it
    back in the same byte order gives the window it was read from, and
    bytesToInt32 on that window returns the same 32 bits read as a signed
    number. *)
Theorem bytesToUint32_value_round_trip :
  forall (w : list byte) (order n : Z),
    bytesToUint32 w order = ret n ->
    0 <= n < 2 ^ 32 /\
    put_uint32 order n = w /\
    bytesToInt32 w order = ret (to_int32 n).
Proof. intros w order n. apply bytesToUint32_facts. Qed.

Lemma bytesToUint32_value_round_trip_witness :
  put_uint32 wkbXDR 4326 = [x00; x00; x10; xe6]%byte /\
  bytesToInt32 [x00; x00; x10; xe6]%byte wkbXDR = ret (to_int32 4326).
Proof.
  apply (bytesToUint32_value_round_trip [x00; x00; x10; xe6]%byte wkbXDR 4326).
  reflexivity.
Defined.

(** X2: bytesToInt32 returns on every window and for every byte-order value;
    it never stops the decode, and what it returns is an int32 (-1 for a
    wrong length, 0 for an order that is neither 0 nor 1). *)
Theorem bytesToInt32_always_returns :
  forall (bytes : list byte) (order : Z),
    exists l v,
      bytesToInt32 bytes order = (l, Ret v) /\
      - 2 ^ 31 <= v < 2 ^ 31 /\
      (len bytes <> 4 -> v = -1) /\
      (len bytes = 4 -> order <> wkbXDR -> order <> wkbNDR -> v = 0 /\ l = []).
Proof.
  intros bytes order.
  destruct (Z.eq_dec (len bytes) 4) as [H4|H4].
  - destruct bytes as [|b0 [|b1 [|b2 [|b3 [|? ?]]]]];
      try (exfalso; unfold len in H4; simpl length in H4; lia).
    rewrite bytesToInt32_four. exists [], (int32_of b0 b1 b2 b3 order).
    split; [reflexivity|]. split; [|split; [contradiction|]].
    + unfold int32_of.
      destruct (order =? wkbNDR); [apply to_int32_range|].
      destruct (order =? wkbXDR); [apply to_int32_range|lia].
    + intros _ Hx Hn. unfold int32_of.
      destruct (Z.eqb_spec order wkbNDR); [contradiction|].
      destruct (Z.eqb_spec order wkbXDR); [contradiction|]. auto.
  - rewrite bytesToInt32_wrong_length by assumption.
    eexists _, _. split; [reflexivity|]. split; [lia|]. split; [reflexivity|].
    contradiction.
Qed.

Lemma uint64_join (a b c d e f g h : Z) :
  0 <= a < 256 -> 0 <= b < 256 -> 0 <= c < 256 -> 0 <= d < 256 ->
  0 <= e < 256 -> 0 <= f < 256 -> 0 <= g < 256 -> 0 <= h < 256 ->
  Z.lor (Z.lor (Z.lor (Z.lor (Z.lor (Z.lor (Z.lor
    a (Z.shiftl b 8)) (Z.shiftl c 16)) (Z.shiftl d 24))
    (Z.shiftl e 32)) (Z.shiftl f 40)) (Z.shiftl g 48)) (Z.shiftl h 56)
  = a + b * 2 ^ 8 + c * 2 ^ 16 + d * 2 ^ 24
    + e * 2 ^ 32 + f * 2 ^ 40 + g * 2 ^ 48 + h * 2 ^ 56.
Proof.
  intros Ha Hb Hc Hd He Hf Hg Hh. rewrite !Z.shiftl_mul_pow2 by lia.
  rewrite (Z.lor_comm a), lor_low_bits by lia.
  rewrite (Z.lor_comm _ (c * 2 ^ 16)), lor_low_bits by lia.
  rewrite (Z.lor_comm _ (d * 2 ^ 24)), lor_low_bits by lia.
  rewrite (Z.lor_comm _ (e * 2 ^ 32)), lor_low_bits by lia.
  rewrite (Z.lor_comm _ (f * 2 ^ 40)), lor_low_bits by lia.
  rewrite (Z.lor_comm _ (g * 2 ^ 48)), lor_low_bits by lia.
  rewrite (Z.lor_comm _ (h * 2 ^ 56)), lor_low_bits by lia.
  lia.
Qed.

(** The base-256 digits of a number below 2^64 add up to it. *)
Lemma digits64 (n : Z) :
  0 <= n < 2 ^ 64 ->
  n mod 256 + (n / 2 ^ 8) mod 256 * 2 ^ 8 + (n / 2 ^ 16) mod 256 * 2 ^ 16
  + (n / 2 ^ 24) mod 256 * 2 ^ 24 + (n / 2 ^ 32) mod 256 * 2 ^ 32
  + (n / 2 ^ 40) mod 256 * 2 ^ 40 + (n / 2 ^ 48) mod 256 * 2 ^ 48
  + (n / 2 ^ 56) mod 256 * 2 ^ 56 = n.
Proof.
  intros Hn.
  assert (Hstep : forall k, 0 <= k ->
            n / 2 ^ k = (n / 2 ^ k) mod 256 + n / 2 ^ (k + 8) * 256).
  { intros k Hk. rewrite Z.pow_add_r by lia. change (2 ^ 8) with 256.
    rewrite <- Z.div_div by lia.
    pose proof (Z.div_mod (n / 2 ^ k) 256 ltac:(lia)). lia. }
  pose proof (Hstep 0 ltac:(lia)) as H0. rewrite Z.pow_0_r, Z.div_1_r in H0.
  pose proof (Hstep 8 ltac:(lia)) as H1.
  pose proof (Hstep 16 ltac:(lia)) as H2.
  pose proof (Hstep 24 ltac:(lia)) as H3.
  pose proof (Hstep 32 ltac:(lia)) as H4.
  pose proof (Hstep 40 ltac:(lia)) as H5.
  pose proof (Hstep 48 ltac:(lia)) as H6.
  pose proof (Hstep 56 ltac:(lia)) as H7.
  cbn [Z.add Pos.add Pos.succ] in *.
  assert (H8 : n / 2 ^ 64 = 0) by (apply Z.div_small; lia).
  rewrite H8 in H7.
  change (2 ^ 8) with 256 in *. change (2 ^ 16) with (256 * 256) in *.
  lia.
Qed.

Lemma len_put_uint64 (order n : Z) : len (put_uint64 order n) = 8.
Proof. unfold put_uint64. destruct (order =? wkbNDR); reflexivity. Qed.

Lemma len_put_uint32 (order n : Z) : len (put_uint32 order n) = 4.
Proof. unfold put_uint32. destruct (order =? wkbNDR); reflexivity. Qed.

Lemma bytesToFloat64_put (order : Z) (v : float64) :
  order = wkbXDR \/ order = wkbNDR -> float64_ok v ->
  bytesToFloat64 (put_float64 order v) order = ret v.
Proof.
  intros Ho Hv. destruct v as [n]. unfold float64_ok in Hv. cbn [Float64bits] in Hv.
  unfold put_float64. cbn [Float64bits].
  assert (Hb : forall k, 0 <= b2z (z2b (n / 2 ^ k)) < 256) by (intros; apply b2z_range).
  assert (Hjoin :
    Z.lor (Z.lor (Z.lor (Z.lor (Z.lor (Z.lor (Z.lor
      (b2z (z2b (n / 2 ^ (8 * 0)))) (Z.shiftl (b2z (z2b (n / 2 ^ (8 * 1)))) 8))
      (Z.shiftl (b2z (z2b (n / 2 ^ (8 * 2)))) 16))
      (Z.shiftl (b2z (z2b (n / 2 ^ (8 * 3)))) 24))
      (Z.shiftl (b2z (z2b (n / 2 ^ (8 * 4)))) 32))
      (Z.shiftl (b2z (z2b (n / 2 ^ (8 * 5)))) 40))
      (Z.shiftl (b2z (z2b (n / 2 ^ (8 * 6)))) 48))
      (Z.shiftl (b2z (z2b (n / 2 ^ (8 * 7)))) 56) = n).
  { rewrite uint64_join by apply Hb. rewrite !b2z_z2b.
    cbn [Z.mul Pos.mul]. rewrite Z.pow_0_r, Z.div_1_r.
    apply digits64. assumption. }
  unfold bytesToFloat64. rewrite len_put_uint64. cbn [Z.eqb Pos.eqb negb].
  rewrite bind_ret_l. unfold put_uint64, bitConversion.
  destruct Ho as [-> | ->]; cbn [Z.eqb wkbXDR wkbNDR Pos.eqb];
    rewrite bind_ret_l; unfold Uint64; cbv zeta; rewrite Hjoin, bind_ret_l;
    reflexivity.
Qed.

Lemma len_put_point (order : Z) (p : WKBPoint.t) : len (put_point order p) = 16.
Proof.
  unfold put_point, put_float64. rewrite len_app, !len_put_uint64. reflexivity.
Qed.

Lemma WKBPoint_Init_put (p0 p : WKBPoint.t) (order : Z) (extra : list byte) :
  order = wkbXDR \/ order = wkbNDR ->
  point_ok p ->
  WKBPoint.Init p0 (Buf (put_point order p) extra) order = ret (p, 16).
Proof.
  intros Ho [Hx Hy].
  unfold WKBPoint.Init. cbn [view]. rewrite len_put_point. cbn [Z.eqb Pos.eqb negb].
  rewrite bind_ret_l.
  rewrite (slice_array _ [] (put_float64 order (WKBPoint.x p))
             (put_float64 order (WKBPoint.y p) ++ extra) 0 8)
    by first [ reflexivity
             | unfold put_float64; rewrite len_put_uint64; reflexivity
             | unfold array, put_point; cbn [view spare app];
               rewrite <- app_assoc; reflexivity ].
  rewrite bind_ret_l. cbn [view]. rewrite bytesToFloat64_put, bind_ret_l by assumption.
  rewrite (slice_array _ (put_float64 order (WKBPoint.x p))
             (put_float64 order (WKBPoint.y p)) extra 8 16)
    by first [ unfold put_float64; rewrite !len_put_uint64; reflexivity
             | unfold array, put_point; cbn [view spare];
               rewrite <- app_assoc; reflexivity ].
  rewrite bind_ret_l. cbn [view]. rewrite bytesToFloat64_put, bind_ret_l by assumption.
  destruct p. reflexivity.
Qed.

(** X3: a point written as two float64 in a byte order and decoded in that
    order by WKBPoint.Init comes back bit for bit, with 16 bytes consumed,
    for both byte orders, whatever the receiver held and whatever the
    capacity of the window holds after the point. *)
Theorem WKBPoint_round_trip :
  forall (p0 p : WKBPoint.t) (order : Z) (extra : list byte),
    order = wkbXDR \/ order = wkbNDR ->
    point_ok p ->
    WKBPoint.Init p0 (Buf (put_point order p) extra) order = ret (p, 16).
Proof. intros p0 p order extra. apply WKBPoint_Init_put. Qed.

Lemma WKBPoint_round_trip_witness :
  WKBPoint.Init WKBPoint.zero
    (Buf (put_point wkbXDR (WKBPoint.mk (Float64frombits 0x3ff0000000000000)
                                        (Float64frombits 0xc000000000000000)))
         [xff]%byte) wkbXDR
  = ret (WKBPoint.mk (Float64frombits 0x3ff0000000000000)
                     (Float64frombits 0xc000000000000000), 16).
Proof.
  apply (WKBPoint_round_trip WKBPoint.zero
           (WKBPoint.mk (Float64frombits 0x3ff0000000000000)
                        (Float64frombits 0xc000000000000000)) wkbXDR [xff]%byte).
  - left. reflexivity.
  - split; unfold float64_ok; cbn [WKBPoint.x WKBPoint.y Float64bits]; lia.
Defined.

(** ** Rings and polygons: round trip *)

Lemma set_nth_app {A} (done rest : list A) (old v : A) :
  set_nth (done ++ old :: rest) (length done) v = done ++ v :: rest.
Proof. induction done as [|a done IH]; simpl; [reflexivity|]. rewrite IH. reflexivity. Qed.

Lemma index_app {A} (done rest : list A) (a : A) :
  index (done ++ a :: rest) (len done) = ret a.
Proof.
  apply index_ok; [apply len_nonneg|].
  unfold len. rewrite Nat2Z.id, nth_error_app2, Nat.sub_diag by reflexivity.
  reflexivity.
Qed.

Lemma store_app {A} (done rest : list A) (old v : A) :
  store (done ++ old :: rest) (len done) v = ret (done ++ v :: rest).
Proof.
  rewrite store_ok.
  - unfold len. rewrite Nat2Z.id, set_nth_app. reflexivity.
  - pose proof (len_nonneg done). pose proof (len_nonneg rest).
    rewrite len_app, len_cons. lia.
Qed.

Lemma len_points (order : Z) (pts : list WKBPoint.t) :
  len (concat (map (put_point order) pts)) = 16 * len pts.
Proof.
  induction pts as [|p pts IH]; [reflexivity|].
  cbn [map concat]. rewrite len_app, len_put_point, IH, len_cons. lia.
Qed.

Lemma len_put_ring (order : Z) (pts : list WKBPoint.t) :
  len (put_ring order pts) = 4 + 16 * len pts.
Proof. unfold put_ring. rewrite len_app, len_put_uint32, len_points. reflexivity. Qed.

Lemma WKBLinearRing_Init_loop_put (order : Z) (remaining : list WKBPoint.t) :
  order = wkbXDR \/ order = wkbNDR ->
  Forall point_ok remaining ->
  forall (done : list WKBPoint.t) (bytes : buf) (prefix rest : list byte)
         (lr : WKBLinearRing.t),
    array bytes = prefix ++ concat (map (put_point order) remaining) ++ rest ->
    WKBLinearRing.points lr = done ++ repeat WKBPoint.zero (length remaining) ->
    WKBLinearRing.Init_loop bytes order (length remaining) (len done) (len prefix) lr
    = ret (WKBLinearRing.set_points (done ++ remaining) lr,
           len prefix + 16 * len remaining).
Proof.
  intros Ho. induction 1 as [|pt rem Hpt _ IH]; intros done bytes prefix rest lr Ha Hpts.
  - cbn [length WKBLinearRing.Init_loop]. simpl repeat in Hpts.
    rewrite <- Hpts. destruct lr. cbn. f_equal. f_equal. unfold len. simpl. lia.
  - cbn [length WKBLinearRing.Init_loop map concat repeat] in *.
    rewrite Hpts, index_app, bind_ret_l.
    rewrite <- app_assoc in Ha.
    rewrite (slice_array bytes prefix (put_point order pt)
               (concat (map (put_point order) rem) ++ rest))
      by (assumption || reflexivity || (rewrite len_put_point; reflexivity)).
    rewrite bind_ret_l, WKBPoint_Init_put, bind_ret_l by assumption.
    rewrite store_app, bind_ret_l.
    replace (len done + 1) with (len (done ++ [pt])) by (rewrite len_app; reflexivity).
    replace (len prefix + 16) with (len (prefix ++ put_point order pt))
      by (rewrite len_app, len_put_point; reflexivity).
    rewrite (IH (done ++ [pt]) bytes (prefix ++ put_point order pt) rest).
    + cbn [WKBLinearRing.set_points WKBLinearRing.numPoints].
      rewrite <- app_assoc. cbn [app]. f_equal. f_equal.
      rewrite len_app, len_put_point, len_cons. lia.
    + rewrite Ha, <- app_assoc. reflexivity.
    + cbn [WKBLinearRing.set_points WKBLinearRing.points].
      rewrite <- app_assoc. reflexivity.
Qed.

(** A written ring at the start of the backing array, its count within the
    length. *)
Lemma WKBLinearRing_Init_put (lr0 : WKBLinearRing.t) (bytes : buf) (order : Z)
      (pts : list WKBPoint.t) (rest : list byte) :
  array bytes = put_ring order pts ++ rest ->
  4 <= len bytes ->
  order = wkbXDR \/ order = wkbNDR ->
  ring_ok pts ->
  WKBLinearRing.Init lr0 bytes order = ret (ring_of pts, 4 + 16 * len pts).
Proof.
  intros Ha H4 Ho [Hn Hpts]. pose proof (len_nonneg pts). pose proof (len_nonneg rest).
  unfold WKBLinearRing.Init.
  replace (len bytes <? 4) with false by (symmetry; apply Z.ltb_ge; lia).
  rewrite bind_ret_l. cbv zeta. unfold put_ring in Ha. rewrite <- app_assoc in Ha.
  rewrite (slice_array bytes [] (put_uint32 order (len pts))
             (concat (map (put_point order) pts) ++ rest) 0 4)
    by (assumption || reflexivity || (rewrite len_put_uint32; reflexivity)).
  rewrite bind_ret_l. cbn [view].
  rewrite bytesToUint32_put, bind_ret_l by (assumption || lia).
  cbn [WKBLinearRing.set_numPoints WKBLinearRing.set_points
       WKBLinearRing.numPoints WKBLinearRing.points].
  replace (Z.to_nat (len pts)) with (length pts) by (unfold len; lia).
  change 0 with (len (@nil WKBPoint.t)) at 1.
  replace (0 + 4) with (len (put_uint32 order (len pts)))
    by (rewrite len_put_uint32; reflexivity).
  rewrite (WKBLinearRing_Init_loop_put order pts Ho Hpts [] bytes
             (put_uint32 order (len pts)) rest).
  - rewrite len_put_uint32. reflexivity.
  - assumption.
  - cbn [WKBLinearRing.points]. unfold make.
    replace (Z.to_nat (len pts)) with (length pts) by (unfold len; lia). reflexivity.
Qed.

Lemma len_rings (order : Z) (rings : list (list WKBPoint.t)) :
  len (concat (map (put_ring order) rings))
  = fold_right (fun m acc => 4 + 16 * m + acc) 0 (map len rings).
Proof.
  induction rings as [|r rings IH]; [reflexivity|].
  cbn [map concat fold_right]. rewrite len_app, len_put_ring, IH. reflexivity.
Qed.

Lemma len_put_polygon (flag : byte) (rings : list (list WKBPoint.t)) :
  len (put_polygon flag rings) = blob_size (map len rings).
Proof.
  unfold put_polygon, blob_size.
  rewrite len_cons, !len_app, !len_put_uint32, len_rings. lia.
Qed.

Lemma counts_in_view_whole (order : Z) (rings : list (list WKBPoint.t)) :
  forall i n : Z,
    i + len (concat (map (put_ring order) rings)) <= n ->
    counts_in_view i rings n.
Proof.
  induction rings as [|r rings IH]; intros i n H; [exact I|].
  cbn [map concat counts_in_view] in *. rewrite len_app, len_put_ring in H.
  pose proof (len_nonneg r). pose proof (len_nonneg (concat (map (put_ring order) rings))).
  split; [lia|]. apply IH. lia.
Qed.

Lemma counts_in_view_mono (rings : list (list WKBPoint.t)) :
  forall i n n' : Z, n <= n' -> counts_in_view i rings n -> counts_in_view i rings n'.
Proof.
  induction rings as [|r rings IH]; intros i n n' Hn H; [exact I|].
  cbn [counts_in_view] in *. destruct H as [H1 H2].
  split; [lia|]. apply (IH _ n); assumption.
Qed.

Lemma WKBPolygon_Init_loop_put (order : Z) (remaining : list (list WKBPoint.t)) :
  order = wkbXDR \/ order = wkbNDR ->
  Forall ring_ok remaining ->
  forall (done : list WKBLinearRing.t) (bytes : buf) (prefix rest : list byte)
         (p : WKBPolygon.t),
    array bytes = prefix ++ concat (map (put_ring order) remaining) ++ rest ->
    counts_in_view (len prefix) remaining (len bytes) ->
    WKBPolygon.rings p = done ++ repeat WKBLinearRing.zero (length remaining) ->
    WKBPolygon.Init_loop bytes order (length remaining) (len done) (len prefix) p
    = ret (WKBPolygon.set_rings (done ++ map ring_of remaining) p,
           len prefix + len (concat (map (put_ring order) remaining))).
Proof.
  intros Ho. induction 1 as [|r rem Hr _ IH];
    intros done bytes prefix rest p Ha Hview Hrings.
  - cbn [length WKBPolygon.Init_loop map concat]. simpl repeat in Hrings.
    rewrite <- Hrings. destruct p. cbn. f_equal. f_equal. unfold len. simpl. lia.
  - cbn [length WKBPolygon.Init_loop map concat repeat counts_in_view] in *.
    destruct Hview as [Hcount Hview].
    rewrite Hrings, index_app, bind_ret_l.
    rewrite <- app_assoc in Ha.
    destruct (view_split bytes prefix _ Ha ltac:(lia)) as (v & Hv & Hvs).
    rewrite (slice_from_ok bytes prefix v) by (assumption || reflexivity).
    rewrite bind_ret_l.
    rewrite (WKBLinearRing_Init_put _ (Buf v (spare bytes)) order r
               (concat (map (put_ring order) rem) ++ rest)); try assumption.
    + rewrite bind_ret_l, store_app, bind_ret_l.
      replace (len done + 1) with (len (done ++ [ring_of r]))
        by (rewrite len_app; reflexivity).
      replace (len prefix + (4 + 16 * len r)) with (len (prefix ++ put_ring order r))
        by (rewrite len_app, len_put_ring; reflexivity).
      rewrite (IH (done ++ [ring_of r]) bytes (prefix ++ put_ring order r) rest).
      * cbn [WKBPolygon.set_rings WKBPolygon.byteOrder WKBPolygon.wkbType
             WKBPolygon.numRings].
        rewrite <- app_assoc. cbn [app]. f_equal. f_equal.
        rewrite !len_app. lia.
      * rewrite Ha, <- app_assoc. reflexivity.
      * rewrite len_app, len_put_ring. exact Hview.
      * cbn [WKBPolygon.set_rings WKBPolygon.rings].
        rewrite <- app_assoc. reflexivity.
    + unfold array. cbn [view spare]. symmetry. exact Hvs.
    + cbn [view]. rewrite Hv, len_app in Hcount. lia.
Qed.

(** A written polygon at the start of the backing array: the byte-order flag
    and the count of every ring have to lie within the length, the rest
    within the capacity. *)
Lemma WKBPolygon_Init_put (p0 : WKBPolygon.t) (bytes : buf) (flag : byte)
      (rings : list (list WKBPoint.t)) (rest : list byte) :
  array bytes = put_polygon flag rings ++ rest ->
  1 <= len bytes ->
  counts_in_view 9 rings (len bytes) ->
  b2z flag = wkbXDR \/ b2z flag = wkbNDR ->
  rings_ok rings ->
  WKBPolygon.Init p0 bytes
  = ret (polygon_of p0 flag rings, len (put_polygon flag rings)).
Proof.
  intros Ha H1 Hview Ho [Hn Hrings]. pose proof (len_nonneg rings).
  unfold WKBPolygon.Init. cbv zeta. unfold put_polygon in Ha.
  cbn [app] in Ha. rewrite <- !app_assoc in Ha.
  set (body := concat (map (put_ring (b2z flag)) rings)) in *.
  rewrite (index_array bytes 0 flag) by (lia || (rewrite Ha; reflexivity)).
  rewrite bind_ret_l.
  rewrite (slice_array bytes [flag] (put_uint32 (b2z flag) 3)
             (put_uint32 (b2z flag) (len rings) ++ body ++ rest) (0 + 1) (0 + 1 + 4))
    by (assumption || reflexivity || (rewrite len_put_uint32; reflexivity)).
  rewrite bind_ret_l. cbn [view].
  rewrite bytesToUint32_put, bind_ret_l by (assumption || lia).
  change (map_get WKBTypeFlags "WKBPolygon") with 3.
  change (negb (3 =? 3)) with false. cbv iota. rewrite bind_ret_l.
  rewrite (slice_array bytes (flag :: put_uint32 (b2z flag) 3)
             (put_uint32 (b2z flag) (len rings)) (body ++ rest)
             (0 + 1 + 4) (0 + 1 + 4 + 4))
    by (assumption || (rewrite len_cons, !len_put_uint32; reflexivity)).
  rewrite bind_ret_l. cbn [view].
  rewrite bytesToUint32_put, bind_ret_l by (assumption || lia).
  replace (Z.to_nat (len rings)) with (length rings) by (unfold len; lia).
  change 0 with (len (@nil WKBLinearRing.t)) at 1.
  replace (0 + 1 + 4 + 4)
    with (len (flag :: put_uint32 (b2z flag) 3 ++ put_uint32 (b2z flag) (len rings)))
    by (rewrite len_cons, len_app, !len_put_uint32; reflexivity).
  unfold body.
  rewrite (WKBPolygon_Init_loop_put (b2z flag) rings Ho Hrings [] bytes
             (flag :: put_uint32 (b2z flag) 3 ++ put_uint32 (b2z flag) (len rings))
             rest).
  - cbn [app]. unfold polygon_of, put_polygon.
    cbn [WKBPolygon.set_rings WKBPolygon.set_wkbType WKBPolygon.set_byteOrder
         WKBPolygon.byteOrder WKBPolygon.wkbType WKBPolygon.numRings].
    f_equal. f_equal. rewrite !len_cons, !len_app, !len_put_uint32. lia.
  - rewrite Ha. cbn [app]. rewrite <- !app_assoc. reflexivity.
  - rewrite len_cons, len_app, !len_put_uint32. exact Hview.
  - cbn [WKBPolygon.set_rings WKBPolygon.rings]. unfold make.
    replace (Z.to_nat (len rings)) with (length rings) by (unfold len; lia).
    reflexivity.
Qed.

(** X4: a ring written as its count and its points, followed by any bytes,
    decodes to that count and those points, bit for bit, and
    WKBLinearRing.Init reports 4 + 16 * count bytes: it stops at the end of
    the ring and reads nothing of what follows, in the length or in the
    capacity. *)
Theorem WKBLinearRing_round_trip :
  forall (lr0 : WKBLinearRing.t) (order : Z) (pts : list WKBPoint.t)
         (rest extra : list byte),
    order = wkbXDR \/ order = wkbNDR ->
    ring_ok pts ->
    WKBLinearRing.Init lr0 (Buf (put_ring order pts ++ rest) extra) order
    = ret (WKBLinearRing.mk (len pts) pts, 4 + 16 * len pts).
Proof.
  intros lr0 order pts rest extra Ho Hok.
  apply (WKBLinearRing_Init_put lr0 _ order pts (rest ++ extra)); try assumption.
  - unfold array. cbn [view spare]. rewrite <- app_assoc. reflexivity.
  - cbn [view]. rewrite len_app, len_put_ring.
    pose proof (len_nonneg pts). pose proof (len_nonneg rest). lia.
Qed.

Lemma WKBLinearRing_round_trip_witness :
  WKBLinearRing.Init WKBLinearRing.zero
    (Buf (put_ring wkbNDR [WKBPoint.mk (Float64frombits 1) (Float64frombits 2);
                           WKBPoint.zero] ++ [xff; xff]%byte) [xff]%byte) wkbNDR
  = ret (WKBLinearRing.mk 2 [WKBPoint.mk (Float64frombits 1) (Float64frombits 2);
                             WKBPoint.zero], 36).
Proof.
  apply (WKBLinearRing_round_trip WKBLinearRing.zero wkbNDR
           [WKBPoint.mk (Float64frombits 1) (Float64frombits 2); WKBPoint.zero]
           [xff; xff]%byte [xff]%byte).
  - right. reflexivity.
  - split; [vm_compute; reflexivity|].
    repeat constructor; unfold float64_ok; cbn; lia.
Defined.

(** X5: a polygon written from its rings, followed by any bytes, decodes to
    those rings in order, with the byte-order flag and type code 3 stored,
    and WKBPolygon.Init reports the length of the written polygon.  The
    field numRings is not assigned: it keeps the receiver's value. *)
Theorem WKBPolygon_round_trip :
  forall (p0 : WKBPolygon.t) (flag : byte) (rings : list (list WKBPoint.t))
         (rest extra : list byte),
    b2z flag = wkbXDR \/ b2z flag = wkbNDR ->
    rings_ok rings ->
    WKBPolygon.Init p0 (Buf (put_polygon flag rings ++ rest) extra)
    = ret (WKBPolygon.mk flag 3 (WKBPolygon.numRings p0)
             (map (fun pts => WKBLinearRing.mk (len pts) pts) rings),
           len (put_polygon flag rings)).
Proof.
  intros p0 flag rings rest extra Ho Hok.
  pose proof (len_nonneg rest) as Hr.
  assert (Hlen : len (put_polygon flag rings)
                 = 9 + len (concat (map (put_ring (b2z flag)) rings))).
  { unfold put_polygon. rewrite len_cons, !len_app, !len_put_uint32. lia. }
  pose proof (len_nonneg (concat (map (put_ring (b2z flag)) rings))).
  apply (WKBPolygon_Init_put p0 _ flag rings (rest ++ extra)); try assumption.
  - unfold array. cbn [view spare]. rewrite <- app_assoc. reflexivity.
  - cbn [view]. rewrite len_app. lia.
  - apply (counts_in_view_whole (b2z flag)). cbn [view]. rewrite len_app. lia.
Qed.

Lemma WKBPolygon_round_trip_witness :
  WKBPolygon.Init WKBPolygon.zero
    (Buf (put_polygon x00 [[WKBPoint.zero]; []] ++ [x2a]%byte) [x2a]%byte)
  = ret (WKBPolygon.mk x00 3 0
           [WKBLinearRing.mk 1 [WKBPoint.zero]; WKBLinearRing.mk 0 []], 33).
Proof.
  apply (WKBPolygon_round_trip WKBPolygon.zero x00 [[WKBPoint.zero]; []]
           [x2a]%byte [x2a]%byte).
  - left. reflexivity.
  - split; [vm_compute; reflexivity|].
    repeat constructor; unfold float64_ok; cbn; lia.
Defined.

(** ** The stream reader on written polygons *)

Lemma len_put_polygon_pos (flag : byte) (rings : list (list WKBPoint.t)) :
  9 <= len (put_polygon flag rings).
Proof.
  unfold put_polygon. rewrite len_cons, !len_app, !len_put_uint32.
  pose proof (len_nonneg (concat (map (put_ring (b2z flag)) rings))). lia.
Qed.

Lemma len_put_polygon_body (flag : byte) (rings : list (list WKBPoint.t)) :
  len (put_polygon flag rings) = 9 + len (concat (map (put_ring (b2z flag)) rings)).
Proof. unfold put_polygon. rewrite len_cons, !len_app, !len_put_uint32. lia. Qed.

Lemma readNextGeometry_put (bytes : buf) (flag : byte)
      (rings : list (list WKBPoint.t)) (rest : list byte) :
  array bytes = put_polygon flag rings ++ rest ->
  1 <= len bytes ->
  counts_in_view 9 rings (len bytes) ->
  b2z flag = wkbXDR \/ b2z flag = wkbNDR ->
  rings_ok rings ->
  readNextGeometry bytes
  = ret (Some (IsPolygon (polygon_of WKBPolygon.zero flag rings)),
         len (put_polygon flag rings)).
Proof.
  intros Ha H1 Hview Ho Hok.
  pose proof (WKBPolygon_Init_put WKBPolygon.zero bytes flag rings rest
                Ha H1 Hview Ho Hok) as Hinit.
  unfold readNextGeometry.
  replace (len bytes =? 0) with false by (symmetry; apply Z.eqb_neq; lia).
  unfold put_polygon in Ha. cbn [app] in Ha. rewrite <- !app_assoc in Ha.
  rewrite (index_array bytes 0 flag) by (lia || (rewrite Ha; reflexivity)).
  rewrite bind_ret_l.
  match type of Ha with
  | _ = flag :: ?ty ++ ?tl =>
    rewrite (slice_array bytes [flag] ty tl 1 5)
      by (assumption || reflexivity || (rewrite len_put_uint32; reflexivity))
  end.
  rewrite bind_ret_l. cbn [view].
  rewrite bytesToUint32_put, bind_ret_l by (assumption || lia).
  change (newWKBGeometry 3) with (ret (Some (IsPolygon WKBPolygon.zero))).
  rewrite bind_ret_l.
  cbn [geomInit WKBGeometry_methods WKBPolygon_methods].
  rewrite Hinit, !bind_ret_l. reflexivity.
Qed.

Lemma readGeometries_loop_put (remaining : list (byte * list (list WKBPoint.t))) :
  Forall polygon_ok remaining ->
  forall (fuel : nat) (bytes : buf) (prefix : list byte) (geoms : list WKBGeometry),
    (length remaining <= fuel)%nat ->
    view bytes = prefix ++ put_stream remaining ->
    readGeometries_loop fuel bytes (len bytes) (len prefix) geoms
    = ret (geoms ++ geometries_of remaining, len bytes).
Proof.
  induction 1 as [|[flag rings] rem [Ho Hok] _ IH];
    intros fuel bytes prefix geoms Hfuel Hv.
  - unfold put_stream in Hv. cbn [map concat] in Hv. rewrite app_nil_r in Hv.
    rewrite Hv. cbn [geometries_of map]. rewrite app_nil_r.
    destruct fuel; cbn [readGeometries_loop]; rewrite Z.ltb_irrefl; reflexivity.
  - cbn [fst snd] in Ho, Hok.
    destruct fuel as [|fuel]; [simpl in Hfuel; lia|].
    cbn [readGeometries_loop]. unfold put_stream in Hv. cbn [map concat fst snd] in Hv.
    fold (put_stream rem) in Hv.
    pose proof (len_put_polygon_pos flag rings) as Hpos.
    pose proof (len_put_polygon_body flag rings) as Hbody.
    pose proof (len_nonneg (put_stream rem)) as Hrem.
    assert (Hlen : len bytes
                   = len prefix + len (put_polygon flag rings) + len (put_stream rem)).
    { rewrite Hv, !len_app. lia. }
    replace (len prefix <? len bytes) with true by (symmetry; apply Z.ltb_lt; lia).
    rewrite (slice_from_ok bytes prefix (put_polygon flag rings ++ put_stream rem))
      by (assumption || reflexivity).
    rewrite bind_ret_l.
    rewrite (readNextGeometry_put _ flag rings (put_stream rem ++ spare bytes));
      try assumption.
    + rewrite bind_ret_l.
      replace (len prefix + len (put_polygon flag rings))
        with (len (prefix ++ put_polygon flag rings)) by (rewrite len_app; reflexivity).
      rewrite (IH fuel bytes (prefix ++ put_polygon flag rings)
                  (geoms ++ [IsPolygon (polygon_of WKBPolygon.zero flag rings)])).
      * cbn [geometries_of map fst snd]. rewrite <- app_assoc. reflexivity.
      * simpl in Hfuel. lia.
      * rewrite Hv, <- app_assoc. reflexivity.
    + unfold array. cbn [view spare]. rewrite <- app_assoc. reflexivity.
    + cbn [view]. rewrite len_app. lia.
    + apply (counts_in_view_whole (b2z flag)). cbn [view]. rewrite len_app. lia.
Qed.

(** X6: on a buffer that is the concatenation of written polygons, each with
    its own byte-order flag, readGeometries returns the decoded polygons in
    the order they were written and the length of the buffer as the bytes
    consumed; it logs its info line and nothing else, whatever the capacity
    of the buffer holds after them. *)
Theorem readGeometries_concatenation :
  forall (polys : list (byte * list (list WKBPoint.t))) (extra : list byte),
    Forall polygon_ok polys ->
    readGeometries (Buf (put_stream polys) extra)
    = ([(Info, ReadingGeometries (len (put_stream polys)))],
       Ret (geometries_of polys, len (put_stream polys))).
Proof.
  intros polys extra Hok. unfold readGeometries. cbv zeta. cbn [view].
  assert (Hfuel : (length polys <= S (length (put_stream polys)))%nat).
  { clear Hok. induction polys as [|[flag rings] polys IH]; [simpl; lia|].
    unfold put_stream in *. cbn [map concat fst snd length].
    rewrite length_app. pose proof (len_put_polygon_pos flag rings) as Hpos.
    unfold len in Hpos. lia. }
  pose proof (readGeometries_loop_put polys Hok (S (length (put_stream polys)))
                (Buf (put_stream polys) extra) [] [] Hfuel eq_refl) as Hloop.
  change (len (@nil byte)) with 0 in Hloop. cbn [view] in Hloop.
  unfold logAt at 1. rewrite bind_Ret, Hloop. cbn [fst snd ret].
  rewrite bind_ret_l, Z.eqb_refl. cbn [negb]. rewrite bind_ret_l.
  reflexivity.
Qed.

Lemma readGeometries_concatenation_witness :
  readGeometries (Buf (put_stream [(x01, [[WKBPoint.zero]]); (x00, [])]) [x01]%byte)
  = ([(Info, ReadingGeometries 38)],
     Ret ([IsPolygon (WKBPolygon.mk x01 3 0 [WKBLinearRing.mk 1 [WKBPoint.zero]]);
           IsPolygon (WKBPolygon.mk x00 3 0 [])], 38)).
Proof.
  apply (readGeometries_concatenation [(x01, [[WKBPoint.zero]]); (x00, [])] [x01]%byte).
  repeat first
    [ apply Forall_cons | apply Forall_nil | split
    | left; reflexivity | right; reflexivity
    | vm_compute; reflexivity | vm_compute; discriminate ].
Defined.

(** ** What a decode that returns has read *)

Lemma digits_of_sum64 (a b c d e f g h : Z) :
  0 <= a < 256 -> 0 <= b < 256 -> 0 <= c < 256 -> 0 <= d < 256 ->
  0 <= e < 256 -> 0 <= f < 256 -> 0 <= g < 256 -> 0 <= h < 256 ->
  let n := a + b * 2 ^ 8 + c * 2 ^ 16 + d * 2 ^ 24
           + e * 2 ^ 32 + f * 2 ^ 40 + g * 2 ^ 48 + h * 2 ^ 56 in
  n mod 256 = a /\ (n / 2 ^ 8) mod 256 = b /\ (n / 2 ^ 16) mod 256 = c /\
  (n / 2 ^ 24) mod 256 = d /\ (n / 2 ^ 32) mod 256 = e /\
  (n / 2 ^ 40) mod 256 = f /\ (n / 2 ^ 48) mod 256 = g /\
  (n / 2 ^ 56) mod 256 = h /\ 0 <= n < 2 ^ 64.
Proof.
  intros Ha Hb Hc Hd He Hf Hg Hh n.
  assert (Hstep : forall x q, 0 <= x < 256 -> (x + q * 256) mod 256 = x /\ (x + q * 256) / 256 = q).
  { intros x q Hx. split.
    - rewrite Z.mod_add by lia. apply Z.mod_small. lia.
    - rewrite Z.div_add by lia. rewrite Z.div_small by lia. lia. }
  set (n7 := h). set (n6 := g + n7 * 256). set (n5 := f + n6 * 256).
  set (n4 := e + n5 * 256). set (n3 := d + n4 * 256). set (n2 := c + n3 * 256).
  set (n1 := b + n2 * 256).
  assert (Hn : n = a + n1 * 256) by (unfold n, n1, n2, n3, n4, n5, n6, n7; lia).
  assert (E1 : n / 2 ^ 8 = n1).
  { change (2 ^ 8) with 256. rewrite Hn. apply Hstep. assumption. }
  assert (E2 : n / 2 ^ 16 = n2).
  { replace (n / 2 ^ 16) with (n / 2 ^ 8 / 256)
      by (rewrite Z.div_div by lia; reflexivity).
    rewrite E1. apply Hstep. assumption. }
  assert (E3 : n / 2 ^ 24 = n3).
  { replace (n / 2 ^ 24) with (n / 2 ^ 16 / 256)
      by (rewrite Z.div_div by lia; reflexivity).
    rewrite E2. apply Hstep. assumption. }
  assert (E4 : n / 2 ^ 32 = n4).
  { replace (n / 2 ^ 32) with (n / 2 ^ 24 / 256)
      by (rewrite Z.div_div by lia; reflexivity).
    rewrite E3. apply Hstep. assumption. }
  assert (E5 : n / 2 ^ 40 = n5).
  { replace (n / 2 ^ 40) with (n / 2 ^ 32 / 256)
      by (rewrite Z.div_div by lia; reflexivity).
    rewrite E4. apply Hstep. assumption. }
  assert (E6 : n / 2 ^ 48 = n6).
  { replace (n / 2 ^ 48) with (n / 2 ^ 40 / 256)
      by (rewrite Z.div_div by lia; reflexivity).
    rewrite E5. apply Hstep. assumption. }
  assert (E7 : n / 2 ^ 56 = n7).
  { replace (n / 2 ^ 56) with (n / 2 ^ 48 / 256)
      by (rewrite Z.div_div by lia; reflexivity).
    rewrite E6. apply Hstep. assumption. }
  rewrite E1, E2, E3, E4, E5, E6, E7.
  repeat split; try (apply Hstep; assumption); try (unfold n; lia).
  - rewrite Hn. apply Hstep. assumption.
  - unfold n7. apply Z.mod_small. assumption.
Qed.

Lemma bytesToFloat64_inv (w : list byte) (order : Z) (l : list event) (v : float64) :
  bytesToFloat64 w order = (l, Ret v) ->
  l = [] /\ (order = wkbXDR \/ order = wkbNDR) /\ float64_ok v /\
  put_float64 order v = w.
Proof.
  unfold bytesToFloat64. intros H.
  destruct (len w =? 8) eqn:E; [|discriminate].
  apply Z.eqb_eq in E. cbn [negb] in H. rewrite bind_ret_l in H.
  inv_step H as o Ho. apply bitConversion_inv in Ho. destruct Ho as [-> Ho].
  destruct w as [|b0 [|b1 [|b2 [|b3 [|b4 [|b5 [|b6 [|b7 [|? ?]]]]]]]]];
    try (exfalso; unfold len in E; simpl length in E; lia).
  pose proof (b2z_range b0). pose proof (b2z_range b1). pose proof (b2z_range b2).
  pose proof (b2z_range b3). pose proof (b2z_range b4). pose proof (b2z_range b5).
  pose proof (b2z_range b6). pose proof (b2z_range b7).
  unfold put_float64, put_uint64, float64_ok.
  destruct Ho as [[-> ->] | [-> ->]]; cbn [Z.eqb wkbXDR wkbNDR Pos.eqb];
    unfold Uint64 in H; cbv zeta in H; rewrite uint64_join in H by assumption;
    rewrite bind_ret_l in H; apply ret_inv in H; destruct H as [-> <-];
    cbn [Float64bits app Z.mul Pos.mul]; rewrite Z.pow_0_r, Z.div_1_r.
  - destruct (digits_of_sum64 (b2z b7) (b2z b6) (b2z b5) (b2z b4)
                (b2z b3) (b2z b2) (b2z b1) (b2z b0))
      as (D0 & D1 & D2 & D3 & D4 & D5 & D6 & D7 & Hr); try assumption.
    cbv zeta in *. subst l.
    split; [reflexivity|]. split; [left; reflexivity|]. split; [exact Hr|].
    repeat (apply (f_equal2 (@cons byte)); [apply z2b_b2z_mod; assumption|]).
    reflexivity.
  - destruct (digits_of_sum64 (b2z b0) (b2z b1) (b2z b2) (b2z b3)
                (b2z b4) (b2z b5) (b2z b6) (b2z b7))
      as (D0 & D1 & D2 & D3 & D4 & D5 & D6 & D7 & Hr); try assumption.
    cbv zeta in *. subst l.
    split; [reflexivity|]. split; [right; reflexivity|]. split; [exact Hr|].
    repeat (apply (f_equal2 (@cons byte)); [apply z2b_b2z_mod; assumption|]).
    reflexivity.
Qed.

Lemma firstn_plus {A} (m n : nat) (s : list A) :
  firstn (m + n) s = firstn m s ++ firstn n (skipn m s).
Proof.
  revert s. induction m as [|m IH]; intros s; [reflexivity|].
  destruct s as [|a s]; [destruct n; reflexivity|].
  cbn [Nat.add firstn skipn app]. rewrite IH. reflexivity.
Qed.

Lemma window_split {A} (s a b : list A) (i j k : Z) :
  window s i j = Some a -> window s j k = Some b -> window s i k = Some (a ++ b).
Proof.
  intros Ha Hb. apply window_inv in Ha, Hb.
  destruct Ha as (Hij & Hj & -> & _), Hb as (Hjk & Hk & -> & _).
  rewrite window_ok by lia. f_equal.
  replace (Z.to_nat (k - i)) with (Z.to_nat (j - i) + Z.to_nat (k - j))%nat by lia.
  rewrite firstn_plus, skipn_skipn. do 3 f_equal. lia.
Qed.

Lemma window_empty {A} (s : list A) (i : Z) :
  0 <= i <= len s -> window s i i = Some [].
Proof.
  intros H. rewrite window_ok by lia. rewrite Z.sub_diag. reflexivity.
Qed.

(** A window of what is left after [i] elements is a window of the whole. *)
Lemma window_skipn {A} (s a : list A) (i c : Z) :
  0 <= i <= len s ->
  window (skipn (Z.to_nat i) s) 0 c = Some a -> window s i (i + c) = Some a.
Proof.
  intros Hi Ha. apply window_inv in Ha. destruct Ha as (Hc & Hcl & -> & _).
  assert (len (skipn (Z.to_nat i) s) = len s - i)
    by (unfold len in *; rewrite length_skipn; lia).
  rewrite window_ok by lia. f_equal.
  change (Z.to_nat 0) with 0%nat. cbn [skipn].
  replace (i + c - i) with (c - 0) by lia. reflexivity.
Qed.

Lemma window_prefix {A} (s a : list A) (n : Z) :
  window s 0 n = Some a -> s = a ++ skipn (Z.to_nat n) s.
Proof.
  intros H. apply window_inv in H. destruct H as (_ & _ & -> & _).
  change (skipn (Z.to_nat 0) s) with s. rewrite Z.sub_0_r.
  symmetry. apply firstn_skipn.
Qed.

Lemma window_firstn {A} (s a : list A) (n : Z) :
  window s 0 n = Some a -> a = firstn (Z.to_nat n) s.
Proof.
  intros H. apply window_inv in H. destruct H as (_ & _ & -> & _).
  change (skipn (Z.to_nat 0) s) with s. rewrite Z.sub_0_r. reflexivity.
Qed.

Lemma window_head {A} (s : list A) (a : A) :
  nth_error s 0 = Some a -> window s 0 1 = Some [a].
Proof.
  intros Hn. destruct s as [|a' s]; [discriminate|]. simpl in Hn. injection Hn as ->.
  rewrite window_ok; [reflexivity|lia|].
  rewrite len_cons. pose proof (len_nonneg s). lia.
Qed.

(** The view of a slice is the window of its backing array up to its length. *)
Lemma window_view (s : buf) : window (array s) 0 (len s) = Some (view s).
Proof. unfold array. apply window_app_l. Qed.

Lemma WKBPoint_Init_inv (p0 p : WKBPoint.t) (w : buf) (order n : Z)
      (l : list event) :
  WKBPoint.Init p0 w order = (l, Ret (p, n)) ->
  l = [] /\ n = 16 /\ (order = wkbXDR \/ order = wkbNDR) /\ point_ok p /\
  put_point order p = view w.
Proof.
  unfold WKBPoint.Init. intros H.
  destruct (len w =? 16) eqn:E; [|discriminate].
  apply Z.eqb_eq in E. cbn [negb] in H. rewrite bind_ret_l in H.
  inv_step H as w1 Hw1. inv_step H as vx Hx. inv_step H as w2 Hw2.
  inv_step H as vy Hy. apply ret_inv in H. destruct H as [-> H].
  injection H as <- <-.
  apply slice_inv in Hw1, Hw2.
  destruct Hw1 as (-> & _ & _ & Hw1 & _), Hw2 as (-> & _ & _ & Hw2 & _).
  apply bytesToFloat64_inv in Hx, Hy.
  destruct Hx as (-> & Ho & Hvx & Hpx), Hy as (-> & _ & Hvy & Hpy).
  subst. split; [reflexivity|]. split; [reflexivity|]. split; [assumption|].
  split; [split; assumption|].
  unfold put_point. cbn [WKBPoint.x WKBPoint.y WKBPoint.set_x WKBPoint.set_y].
  rewrite Hpx, Hpy.
  pose proof (window_split _ _ _ _ _ _ Hw1 Hw2) as Hboth.
  pose proof (window_view w) as Hview. rewrite E in Hview.
  congruence.
Qed.

Lemma set_points_set_points (v v' : list WKBPoint.t) (lr : WKBLinearRing.t) :
  WKBLinearRing.set_points v (WKBLinearRing.set_points v' lr)
  = WKBLinearRing.set_points v lr.
Proof. reflexivity. Qed.

Lemma WKBLinearRing_Init_loop_read (bytes : buf) (order : Z) (todo : nat) :
  forall (done pending : list WKBPoint.t) (i n : Z) (lr lr' : WKBLinearRing.t)
         (l : list event),
    length pending = todo ->
    WKBLinearRing.points lr = done ++ pending ->
    0 <= i <= cap bytes ->
    WKBLinearRing.Init_loop bytes order todo (len done) i lr = (l, Ret (lr', n)) ->
    exists new,
      l = [] /\
      lr' = WKBLinearRing.set_points (done ++ new) lr /\
      length new = todo /\ Forall point_ok new /\
      window (array bytes) i n = Some (concat (map (put_point order) new)) /\
      (todo <> O -> order = wkbXDR \/ order = wkbNDR).
Proof.
  induction todo as [|todo IH]; intros done pending i n lr lr' l Hlen Hpts Hi H.
  - destruct pending; [|discriminate]. rewrite app_nil_r in Hpts.
    apply ret_inv in H. destruct H as [-> H]. injection H as <- <-.
    exists []. rewrite app_nil_r, <- Hpts. destruct lr.
    repeat split; try constructor; try contradiction.
    apply window_empty. rewrite <- cap_array. assumption.
  - destruct pending as [|old pending]; [discriminate|]. injection Hlen as Hlen.
    cbn [WKBLinearRing.Init_loop] in H.
    rewrite Hpts, index_app, bind_ret_l in H.
    inv_step H as w Hw. inv_step H as r Hr. destruct r as [pt c].
    rewrite store_app, bind_ret_l in H.
    destruct (slice_inv _ _ _ _ _ Hw) as (-> & _ & Hhi & Hwin & _ & _).
    apply WKBPoint_Init_inv in Hr. destruct Hr as (-> & _ & Ho & Hpt & Hput).
    rewrite <- Hput in Hwin.
    replace (len done + 1) with (len (done ++ [pt])) in H
      by (rewrite len_app; reflexivity).
    apply (IH (done ++ [pt]) pending) in H; [|assumption| |lia].
    + destruct H as (new & -> & -> & Hnew & Hok & Hs & _).
      exists (pt :: new). subst. rewrite set_points_set_points, <- app_assoc.
      split; [reflexivity|]. split; [reflexivity|].
      split; [cbn [length]; rewrite Hnew; reflexivity|].
      split; [constructor; assumption|].
      split; [|intros _; assumption].
      cbn [map concat]. apply (window_split _ _ _ _ (i + 16)); assumption.
    + cbn [WKBLinearRing.set_points WKBLinearRing.points].
      rewrite <- app_assoc. reflexivity.
Qed.

Lemma WKBLinearRing_Init_read (lr0 lr' : WKBLinearRing.t) (bytes : buf)
      (order n : Z) (l : list event) :
  WKBLinearRing.Init lr0 bytes order = (l, Ret (lr', n)) ->
  exists pts,
    l = [] /\ lr' = ring_of pts /\ ring_ok pts /\
    (order = wkbXDR \/ order = wkbNDR) /\
    n = 4 + 16 * len pts /\
    window (array bytes) 0 n = Some (put_ring order pts) /\
    4 <= len bytes.
Proof.
  unfold WKBLinearRing.Init. intros H. cbv zeta in H.
  destruct (len bytes <? 4) eqn:E; [discriminate|]. apply Z.ltb_ge in E.
  rewrite bind_ret_l in H.
  inv_step H as w Hw. inv_step H as cnt Hcnt.
  destruct (slice_inv _ _ _ _ _ Hw) as (-> & _ & Hcap & Hwin & _ & _).
  destruct (bytesToUint32_inv _ _ _ _ Hcnt) as (-> & _ & Ho).
  destruct (bytesToUint32_facts _ _ _ Hcnt) as (Hrange & Hput & _).
  rewrite <- Hput in Hwin.
  cbn [WKBLinearRing.set_numPoints WKBLinearRing.set_points
       WKBLinearRing.numPoints WKBLinearRing.points] in H.
  change 0 with (len (@nil WKBPoint.t)) in H at 1.
  apply (WKBLinearRing_Init_loop_read bytes order (Z.to_nat cnt) []
           (make WKBPoint.zero cnt)) in H.
  - destruct H as (new & -> & -> & Hnew & Hok & Hs & _).
    assert (Hl : len new = cnt) by (unfold len; lia).
    exists new. subst cnt.
    pose proof (window_inv _ _ _ _ Hs) as (_ & _ & _ & Hn).
    rewrite len_points in Hn. subst.
    split; [reflexivity|]. split; [reflexivity|].
    split; [split; [lia|assumption]|]. split; [assumption|].
    split; [lia|]. split; [|assumption].
    unfold put_ring.
    apply (window_split _ _ _ _ (0 + 4)); assumption.
  - unfold make. apply repeat_length.
  - reflexivity.
  - lia.
Qed.

Lemma set_rings_set_rings (v v' : list WKBLinearRing.t) (p : WKBPolygon.t) :
  WKBPolygon.set_rings v (WKBPolygon.set_rings v' p) = WKBPolygon.set_rings v p.
Proof. reflexivity. Qed.

Lemma WKBPolygon_Init_loop_read (bytes : buf) (order : Z) (todo : nat) :
  forall (done pending : list WKBLinearRing.t) (i n : Z) (p p' : WKBPolygon.t)
         (l : list event),
    length pending = todo ->
    WKBPolygon.rings p = done ++ pending ->
    0 <= i <= cap bytes ->
    WKBPolygon.Init_loop bytes order todo (len done) i p = (l, Ret (p', n)) ->
    exists new,
      l = [] /\
      p' = WKBPolygon.set_rings (done ++ map ring_of new) p /\
      length new = todo /\ Forall ring_ok new /\
      window (array bytes) i n = Some (concat (map (put_ring order) new)) /\
      counts_in_view i new (len bytes).
Proof.
  induction todo as [|todo IH]; intros done pending i n p p' l Hlen Hrings Hi H.
  - destruct pending; [|discriminate]. rewrite app_nil_r in Hrings.
    apply ret_inv in H. destruct H as [-> H]. injection H as <- <-.
    exists []. cbn [map]. rewrite app_nil_r, <- Hrings. destruct p.
    repeat split; try constructor. apply window_empty.
    rewrite <- cap_array. assumption.
  - destruct pending as [|old pending]; [discriminate|]. injection Hlen as Hlen.
    cbn [WKBPolygon.Init_loop] in H.
    rewrite Hrings, index_app, bind_ret_l in H.
    inv_step H as w Hw. inv_step H as r Hr. destruct r as [r c].
    rewrite store_app, bind_ret_l in H.
    apply WKBLinearRing_Init_read in Hr.
    destruct Hr as (pts & -> & -> & Hpts & Ho & -> & Hs & H4).
    destruct (slice_from_inv _ _ _ _ Hw) as (-> & Hlo & _ & _ & Harr & Hlw & _).
    rewrite Harr in Hs.
    apply window_skipn in Hs; [|rewrite <- cap_array; lia].
    destruct (window_inv _ _ _ _ Hs) as (_ & Hhi & _ & _).
    rewrite <- cap_array in Hhi.
    replace (len done + 1) with (len (done ++ [ring_of pts])) in H
      by (rewrite len_app; reflexivity).
    pose proof (len_nonneg pts).
    apply (IH (done ++ [ring_of pts]) pending) in H; [|assumption| |lia].
    + destruct H as (new & -> & -> & Hnew & Hok & Hrest & Hview).
      exists (pts :: new). subst. rewrite set_rings_set_rings, <- app_assoc.
      split; [reflexivity|]. split; [reflexivity|].
      split; [cbn [length]; rewrite Hnew; reflexivity|].
      split; [constructor; assumption|].
      split.
      * cbn [map concat].
        apply (window_split _ _ _ _ (i + (4 + 16 * len pts))); assumption.
      * cbn [counts_in_view]. split; [lia|assumption].
    + cbn [WKBPolygon.set_rings WKBPolygon.rings].
      rewrite <- app_assoc. reflexivity.
Qed.

Lemma WKBPolygon_Init_read (p0 p : WKBPolygon.t) (bytes : buf) (n : Z)
      (l : list event) :
  WKBPolygon.Init p0 bytes = (l, Ret (p, n)) ->
  exists flag rings,
    l = [] /\
    (b2z flag = wkbXDR \/ b2z flag = wkbNDR) /\ rings_ok rings /\
    p = polygon_of p0 flag rings /\
    n = len (put_polygon flag rings) /\
    window (array bytes) 0 n = Some (put_polygon flag rings) /\
    1 <= len bytes /\ counts_in_view 9 rings (len bytes).
Proof.
  unfold WKBPolygon.Init. intros H. cbv zeta in H.
  inv_step H as flag Hflag. inv_step H as ty Hty. inv_step H as t Ht.
  inv_step H as u Hu. inv_step H as cnt Hcnt. inv_step H as k Hk.
  apply index_array_inv in Hflag. destruct Hflag as (-> & Hlen1 & Hflag).
  apply window_head in Hflag.
  destruct (slice_inv _ _ _ _ _ Hty) as (-> & _ & _ & Hwty & _ & _).
  destruct (slice_inv _ _ _ _ _ Hcnt) as (-> & _ & H9 & Hwcnt & _ & _).
  destruct (bytesToUint32_inv _ _ _ _ Ht) as (-> & _ & Ho).
  destruct (bytesToUint32_inv _ _ _ _ Hk) as (-> & _ & _).
  destruct (bytesToUint32_facts _ _ _ Ht) as (_ & Hput3 & _).
  destruct (bytesToUint32_facts _ _ _ Hk) as (Hrange & Hputk & _).
  rewrite <- Hput3 in Hwty. rewrite <- Hputk in Hwcnt.
  change (map_get WKBTypeFlags "WKBPolygon") with 3 in Hu.
  destruct (Z.eqb_spec t 3) as [->|]; [|discriminate].
  apply ret_inv in Hu. destruct Hu as [-> _].
  change 0 with (len (@nil WKBLinearRing.t)) in H at 1.
  apply (WKBPolygon_Init_loop_read bytes (b2z flag) (Z.to_nat k) []
           (make WKBLinearRing.zero k)) in H.
  - destruct H as (new & -> & -> & Hnew & Hok & Hs & Hview).
    assert (Hl : len new = k) by (unfold len; lia).
    exists flag, new. subst k.
    assert (Hall : window (array bytes) 0 n = Some (put_polygon flag new)).
    { unfold put_polygon. change (flag :: ?x) with ([flag] ++ x).
      apply (window_split _ _ _ _ (0 + 1)); [assumption|].
      apply (window_split _ _ _ _ (0 + 1 + 4)); [assumption|].
      apply (window_split _ _ _ _ (0 + 1 + 4 + 4)); assumption. }
    subst.
    split; [reflexivity|]. split; [assumption|].
    split; [split; [lia|assumption]|].
    split; [reflexivity|].
    split; [pose proof (window_inv _ _ _ _ Hall) as (_ & _ & _ & Hn); lia|].
    split; [assumption|]. split; [lia|exact Hview].
  - unfold make. apply repeat_length.
  - reflexivity.
  - lia.
Qed.

(** X7: WKBPolygon.Init returns exactly on the buffers whose backing array
    starts with a written polygon, the byte-order flag and the point count of
    every ring lying within the length of the buffer (the other bytes may lie
    between the length and the capacity).  It returns (p, n) if and only if
    the backing array is the bytes of some rings (flag 0 or 1, type code 3,
    counts below 2^32, points) followed by some rest, p holds those rings and
    n is the length of the written polygon; and a run that returns logs
    nothing. *)
Theorem WKBPolygon_Init_returns_iff :
  forall (p0 p : WKBPolygon.t) (bytes : buf) (n : Z) (l : list event),
    WKBPolygon.Init p0 bytes = (l, Ret (p, n)) <->
    (l = [] /\
     exists flag rings rest,
       array bytes = put_polygon flag rings ++ rest /\
       1 <= len bytes /\ counts_in_view 9 rings (len bytes) /\
       (b2z flag = wkbXDR \/ b2z flag = wkbNDR) /\ rings_ok rings /\
       p = WKBPolygon.mk flag 3 (WKBPolygon.numRings p0)
             (map (fun pts => WKBLinearRing.mk (len pts) pts) rings) /\
       n = len (put_polygon flag rings)).
Proof.
  intros p0 p bytes n l. split.
  - intros H. apply WKBPolygon_Init_read in H.
    destruct H as (flag & rings & -> & Ho & Hok & -> & -> & Hs & H1 & Hview).
    split; [reflexivity|].
    exists flag, rings, (skipn (Z.to_nat (len (put_polygon flag rings))) (array bytes)).
    split; [apply window_prefix; assumption|]. auto 10.
  - intros (-> & flag & rings & rest & Ha & H1 & Hview & Ho & Hok & -> & ->).
    apply (WKBPolygon_Init_put p0 bytes flag rings rest); assumption.
Qed.

Lemma WKBPolygon_Init_returns_iff_witness :
  WKBPolygon.Init WKBPolygon.zero (Buf (firstn 13 one_ring_polygon)
                                       (skipn 13 one_ring_polygon))
  = ([], Ret (WKBPolygon.mk x01 3 0
                [WKBLinearRing.mk 1
                   [WKBPoint.mk (Float64frombits 0)
                                (Float64frombits 4607182418800017408)]], 29)).
Proof.
  apply (proj2 (WKBPolygon_Init_returns_iff WKBPolygon.zero _ _ 29 [])).
  split; [reflexivity|].
  exists x01, [[WKBPoint.mk (Float64frombits 0) (Float64frombits 4607182418800017408)]],
         [].
  split; [reflexivity|]. split; [vm_compute; discriminate|].
  split; [split; [vm_compute; discriminate|exact I]|].
  split; [right; reflexivity|].
  split; [|split; reflexivity].
  split; [vm_compute; reflexivity|].
  repeat constructor; unfold float64_ok; cbn; lia.
Defined.

Lemma map_numPoints_ring_of (rings : list (list WKBPoint.t)) :
  map WKBLinearRing.numPoints (map ring_of rings) = map len rings.
Proof. rewrite map_map. reflexivity. Qed.

(** X8: whenever WKBPolygon.Init returns, the count it reports is
    9 + the sum of 4 + 16 * numPoints over the decoded rings, and it lies
    between 9 and the capacity of the buffer (it can exceed the length);
    every decoded ring holds as many points as its numPoints says, the stored
    type code is 3, and numRings is the receiver's, whatever the number of
    rings decoded. *)
Theorem WKBPolygon_Init_consumed :
  forall (p0 p : WKBPolygon.t) (bytes : buf) (n : Z) (l : list event),
    WKBPolygon.Init p0 bytes = (l, Ret (p, n)) ->
    n = blob_size (map WKBLinearRing.numPoints (WKBPolygon.rings p)) /\
    9 <= n <= cap bytes /\
    Forall (fun r => len (WKBLinearRing.points r) = WKBLinearRing.numPoints r)
           (WKBPolygon.rings p) /\
    WKBPolygon.Type' p = 3 /\
    WKBPolygon.numRings p = WKBPolygon.numRings p0.
Proof.
  intros p0 p bytes n l H. apply WKBPolygon_Init_read in H.
  destruct H as (flag & rings & -> & Ho & Hok & -> & -> & Hs & _ & _).
  unfold polygon_of. cbn [WKBPolygon.rings WKBPolygon.Type' WKBPolygon.wkbType
                          WKBPolygon.numRings].
  rewrite map_numPoints_ring_of, len_put_polygon.
  split; [reflexivity|]. split.
  - apply window_inv in Hs. rewrite <- cap_array in Hs.
    rewrite <- (len_put_polygon flag rings).
    pose proof (len_put_polygon_pos flag rings). lia.
  - split; [|split; reflexivity].
    apply Forall_map. apply Forall_forall. intros r _. reflexivity.
Qed.

Lemma WKBPolygon_Init_consumed_witness :
  29 = blob_size (map WKBLinearRing.numPoints
                      [WKBLinearRing.mk 1
                         [WKBPoint.mk (Float64frombits 0)
                                      (Float64frombits 4607182418800017408)]]) /\
  9 <= 29 <= cap (Buf (firstn 28 one_ring_polygon) (skipn 28 one_ring_polygon)).
Proof.
  refine ((fun H => conj (proj1 H) (proj1 (proj2 H)))
            (WKBPolygon_Init_consumed WKBPolygon.zero
               (WKBPolygon.mk x01 3 0
                  [WKBLinearRing.mk 1
                     [WKBPoint.mk (Float64frombits 0)
                                  (Float64frombits 4607182418800017408)]])
               (Buf (firstn 28 one_ring_polygon) (skipn 28 one_ring_polygon)) 29 [] _)).
  reflexivity.
Defined.

(** X9: a decode that returns depends on the consumed bytes only.  If
    WKBPolygon.Init returns (p, n) on a buffer, it returns the same on every
    buffer that is at least as long and whose backing array starts with the
    same n bytes, and it does not return on a buffer whose backing array is
    that of the first cut to a capacity below n. *)
Theorem WKBPolygon_Init_prefix :
  forall (p0 p : WKBPolygon.t) (bytes : buf) (n : Z) (l : list event),
    WKBPolygon.Init p0 bytes = (l, Ret (p, n)) ->
    (forall bytes' : buf,
        len bytes <= len bytes' ->
        firstn (Z.to_nat n) (array bytes') = firstn (Z.to_nat n) (array bytes) ->
        WKBPolygon.Init p0 bytes' = (l, Ret (p, n))) /\
    (forall bytes' : buf,
        cap bytes' < n ->
        array bytes' = firstn (Z.to_nat (cap bytes')) (array bytes) ->
        returned (WKBPolygon.Init p0 bytes') = None).
Proof.
  intros p0 p bytes n l H. apply WKBPolygon_Init_read in H.
  destruct H as (flag & rings & -> & Ho & Hok & -> & -> & Hs & H1 & Hview).
  set (blob := put_polygon flag rings) in *.
  pose proof (window_firstn _ _ _ Hs) as Hblob.
  pose proof (len_put_polygon_pos flag rings) as Hpos. fold blob in Hpos.
  (* the whole backing array as a buffer of its own parses to the same count *)
  assert (Hwhole : forall (b : buf) flag2 rings2 rest2,
             array b = put_polygon flag2 rings2 ++ rest2 ->
             (b2z flag2 = wkbXDR \/ b2z flag2 = wkbNDR) -> rings_ok rings2 ->
             WKBPolygon.Init p0 (Buf (array b) [])
             = ret (polygon_of p0 flag2 rings2, len (put_polygon flag2 rings2))).
  { intros b flag2 rings2 rest2 Hb Ho2 Hok2.
    pose proof (len_put_polygon_pos flag2 rings2) as Hpos2.
    pose proof (len_put_polygon_body flag2 rings2) as Hbody2.
    pose proof (len_nonneg rest2).
    apply (WKBPolygon_Init_put p0 _ flag2 rings2 rest2); try assumption.
    - unfold array at 1. cbn [view spare]. rewrite app_nil_r. exact Hb.
    - cbn [view]. rewrite Hb, len_app. lia.
    - apply (counts_in_view_whole (b2z flag2)). cbn [view]. rewrite Hb, len_app. lia. }
  split.
  - intros bytes' Hlen Hsame.
    apply (WKBPolygon_Init_put p0 bytes' flag rings
             (skipn (Z.to_nat (len blob)) (array bytes'))); try assumption.
    + fold blob.
      transitivity (firstn (Z.to_nat (len blob)) (array bytes')
                      ++ skipn (Z.to_nat (len blob)) (array bytes'));
        [symmetry; apply firstn_skipn|].
      f_equal. rewrite Hsame. symmetry. exact Hblob.
    + lia.
    + apply (counts_in_view_mono rings 9 (len bytes)); assumption.
  - intros bytes' Hcap Hcut.
    destruct (WKBPolygon.Init p0 bytes') as [l2 [[p2 n2]|s]] eqn:E; [|reflexivity].
    exfalso. apply WKBPolygon_Init_read in E.
    destruct E as (flag2 & rings2 & -> & Ho2 & Hok2 & -> & -> & Hs2 & _ & _).
    destruct (window_inv _ _ _ _ Hs2) as (_ & Hle & _ & _).
    rewrite <- cap_array in Hle.
    pose proof (window_prefix _ _ _ Hs2) as Hb2.
    pose proof (window_prefix _ _ _ Hs) as Hb1. fold blob in Hb1.
    assert (Hb12 : array bytes
                   = put_polygon flag2 rings2
                       ++ skipn (Z.to_nat (len (put_polygon flag2 rings2))) (array bytes')
                       ++ skipn (Z.to_nat (cap bytes')) (array bytes)).
    { rewrite app_assoc, <- Hb2, Hcut. symmetry. apply firstn_skipn. }
    pose proof (Hwhole bytes flag rings _ Hb1 Ho Hok) as R1.
    pose proof (Hwhole bytes flag2 rings2 _ Hb12 Ho2 Hok2) as R2.
    rewrite R1 in R2. apply ret_inv in R2. destruct R2 as [_ R2].
    apply (f_equal snd) in R2. cbn [snd] in R2. fold blob in R2. lia.
Qed.

Lemma WKBPolygon_Init_prefix_witness :
  returned (WKBPolygon.Init WKBPolygon.zero
              (Buf (firstn 20 one_ring_polygon)
                   (firstn 8 (skipn 20 one_ring_polygon))))
  = None.
Proof.
  refine (proj2 (WKBPolygon_Init_prefix WKBPolygon.zero _ (Buf one_ring_polygon [])
                   29 [] _)
            (Buf (firstn 20 one_ring_polygon) (firstn 8 (skipn 20 one_ring_polygon)))
            _ _).
  - reflexivity.
  - vm_compute. reflexivity.
  - reflexivity.
Defined.

(** ** What the stream reader returns *)

Lemma readNextGeometry_read (bytes : buf) (g : option WKBGeometry) (n : Z)
      (l : list event) :
  readNextGeometry bytes = (l, Ret (g, n)) ->
  len bytes <> 0 ->
  exists flag rings,
    l = [] /\
    (b2z flag = wkbXDR \/ b2z flag = wkbNDR) /\ rings_ok rings /\
    g = Some (IsPolygon (polygon_of WKBPolygon.zero flag rings)) /\
    n = len (put_polygon flag rings) /\
    window (array bytes) 0 n = Some (put_polygon flag rings) /\
    counts_in_view 9 rings (len bytes).
Proof.
  unfold readNextGeometry. intros H Hne.
  destruct (Z.eqb_spec (len bytes) 0) as [|_]; [contradiction|].
  inv_step H as b Hb. inv_step H as w Hw. inv_step H as t Ht.
  inv_step H as ng Hng.
  apply index_inv in Hb. destruct Hb as (-> & _ & _).
  destruct (slice_inv _ _ _ _ _ Hw) as (-> & _ & _ & _ & _ & _).
  destruct (bytesToUint32_inv _ _ _ _ Ht) as (-> & _ & _).
  assert (Ht3 : t = 3 /\ ng = Some (IsPolygon WKBPolygon.zero)).
  { destruct ng as [g0|]; [|discriminate].
    unfold newWKBGeometry in Hng.
    destruct t as [|[[[]|[]|]|[[]|[]|]|]|]; try discriminate.
    apply ret_inv in Hng. destruct Hng as [_ Hng]. injection Hng as <-. auto. }
  destruct Ht3 as (-> & ->).
  change (newWKBGeometry 3) with (ret (Some (IsPolygon WKBPolygon.zero))) in Hng.
  apply ret_inv in Hng. destruct Hng as [-> _].
  inv_step H as r Hr. destruct r as [g' c].
  apply ret_inv in H. destruct H as [-> H]. injection H as <- <-.
  cbn [geomInit WKBGeometry_methods WKBPolygon_methods] in Hr.
  inv_step Hr as r Hp. destruct r as [p' c'].
  apply ret_inv in Hr. destruct Hr as [-> Hr]. injection Hr as <- <-.
  apply WKBPolygon_Init_read in Hp.
  destruct Hp as (flag & rings & -> & Ho & Hok & -> & -> & Hs & _ & Hview).
  exists flag, rings. subst.
  split; [reflexivity|]. split; [assumption|]. split; [assumption|].
  split; [reflexivity|]. split; [reflexivity|]. split; assumption.
Qed.

Lemma readGeometries_loop_read (bytes : buf) (fuel : nat) :
  forall (i n : Z) (geoms gs : list WKBGeometry) (l : list event),
    0 <= i <= cap bytes ->
    readGeometries_loop fuel bytes (len bytes) i geoms = (l, Ret (gs, n)) ->
    exists polys,
      l = [] /\ Forall polygon_ok polys /\
      gs = geoms ++ geometries_of polys /\
      window (array bytes) i n = Some (put_stream polys) /\
      len bytes <= n.
Proof.
  induction fuel as [|fuel IH]; intros i n geoms gs l Hi H;
    cbn [readGeometries_loop] in H;
    destruct (Z.ltb_spec i (len bytes)) as [Hlt|Hge].
  - discriminate.
  - apply ret_inv in H. destruct H as [-> H]. injection H as <- <-.
    exists []. cbn [geometries_of map]. rewrite app_nil_r.
    split; [reflexivity|]. split; [constructor|]. split; [reflexivity|].
    split; [|assumption]. apply window_empty. rewrite <- cap_array. assumption.
  - inv_step H as w Hw. inv_step H as r Hr. destruct r as [g c].
    destruct (slice_from_inv _ _ _ _ Hw) as (-> & _ & _ & _ & Harr & Hlw & _).
    apply readNextGeometry_read in Hr; [|lia].
    destruct Hr as (flag & rings & -> & Ho & Hok & -> & -> & Hs & _).
    rewrite Harr in Hs.
    apply window_skipn in Hs; [|rewrite <- cap_array; lia].
    destruct (window_inv _ _ _ _ Hs) as (_ & Hhi & _ & _).
    rewrite <- cap_array in Hhi.
    pose proof (len_put_polygon_pos flag rings).
    apply IH in H; [|lia].
    destruct H as (polys & -> & Hpolys & -> & Hrest & Hn).
    exists ((flag, rings) :: polys). subst.
    split; [reflexivity|].
    split; [constructor; [split; assumption|assumption]|].
    split; [cbn [geometries_of map fst snd]; rewrite <- app_assoc; reflexivity|].
    split; [|assumption].
    unfold put_stream. cbn [map concat fst snd].
    apply (window_split _ _ _ _ (i + len (put_polygon flag rings))); assumption.
  - apply ret_inv in H. destruct H as [-> H]. injection H as <- <-.
    exists []. cbn [geometries_of map]. rewrite app_nil_r.
    split; [reflexivity|]. split; [constructor|]. split; [reflexivity|].
    split; [|assumption]. apply window_empty. rewrite <- cap_array. assumption.
Qed.

(** X10: readGeometries returns only when the backing array of the buffer
    starts with a sequence of written polygons that covers the length of the
    buffer.  If it returns (geoms, n), geoms are those polygons in order and n
    is the length of the sequence, at least the length of the buffer and at
    most its capacity: it never returns a part of the geometries of a buffer
    it cannot read to the end.  The consumed-bytes warning is logged exactly
    when the last polygon runs past the length into the capacity; when n is
    the length, the buffer is exactly the concatenation of the polygons and
    the log holds the info line alone. *)
Theorem readGeometries_returns_whole_stream :
  forall (bytes : buf) (geoms : list WKBGeometry) (n : Z) (l : list event),
    readGeometries bytes = (l, Ret (geoms, n)) ->
    exists polys rest,
      array bytes = put_stream polys ++ rest /\ Forall polygon_ok polys /\
      geoms = geometries_of polys /\ n = len (put_stream polys) /\
      len bytes <= n <= cap bytes /\
      l = (Info, ReadingGeometries (len bytes))
            :: (if n =? len bytes then []
                else [(Warn, ConsumedMismatch n (len bytes))]) /\
      (n = len bytes -> view bytes = put_stream polys).
Proof.
  intros bytes geoms n l H. unfold readGeometries in H. cbv zeta in H.
  unfold logAt at 1 in H. rewrite bind_Ret in H. cbn [fst snd] in H.
  destruct (readGeometries_loop (S (length bytes)) bytes (len bytes) 0 [])
    as [ll [[gs m]|s]] eqn:E; [|rewrite bind_Stop in H; discriminate].
  apply readGeometries_loop_read in E;
    [|pose proof (len_nonneg bytes); pose proof (len_le_cap bytes); lia].
  destruct E as (polys & -> & Hok & -> & Hs & Hm).
  rewrite bind_Ret in H.
  assert (Hl : l = (Info, ReadingGeometries (len bytes))
                     :: (if m =? len bytes then []
                         else [(Warn, ConsumedMismatch m (len bytes))]) /\
               geoms = geometries_of polys /\ n = m).
  { destruct (m =? len bytes); cbn in H; injection H as <- <- <-; auto. }
  destruct Hl as (-> & -> & ->).
  destruct (window_inv _ _ _ _ Hs) as (_ & Hcap & _ & Hlen).
  rewrite <- cap_array in Hcap.
  exists polys, (skipn (Z.to_nat m) (array bytes)).
  split; [apply window_prefix; assumption|]. split; [assumption|].
  split; [reflexivity|]. split; [lia|]. split; [lia|]. split; [reflexivity|].
  intros ->. pose proof (window_view bytes) as Hv. congruence.
Qed.

Lemma readGeometries_returns_whole_stream_witness :
  exists polys rest,
    one_ring_polygon ++ firstn 28 one_ring_polygon ++ [x3f]%byte
    = put_stream polys ++ rest /\
    length polys = 2%nat.
Proof.
  destruct (readGeometries_returns_whole_stream
              (Buf (one_ring_polygon ++ firstn 28 one_ring_polygon) [x3f]%byte)
              _ _ _ eq_refl)
    as (polys & rest & Hb & _ & Hg & _).
  exists polys, rest. split.
  - rewrite <- Hb. unfold array. cbn [view spare]. rewrite <- app_assoc. reflexivity.
  - apply (f_equal (@length _)) in Hg. unfold geometries_of in Hg.
    rewrite length_map in Hg. symmetry. exact Hg.
Defined.

(** X11: how readNextGeometry fails before it dispatches.  On a non-empty
    buffer whose capacity is below 5 bytes it panics on the slice of the type
    code, logging nothing, and readGeometries panics with it after its info
    line; on a non-empty buffer with a capacity of at least 5 bytes whose
    first byte is neither 0 nor 1 it ends the process through log.Fatal with
    the offending flag. *)
Theorem readNextGeometry_short_or_bad_flag :
  forall (bytes : buf) (flag : byte),
    nth_error bytes 0 = Some flag ->
    (cap bytes < 5 ->
     readNextGeometry bytes = ([], Stop Panic) /\
     readGeometries bytes
       = ([(Info, ReadingGeometries (len bytes))], Stop Panic)) /\
    (5 <= cap bytes -> b2z flag <> wkbXDR -> b2z flag <> wkbNDR ->
     readNextGeometry bytes
       = ([(Fatal, InvalidByteOrderFlag (b2z flag))], Stop Exit)).
Proof.
  intros bytes flag Hflag.
  assert (Hlen : 1 <= len bytes).
  { assert (0 < length (view bytes))%nat by (apply nth_error_Some; congruence).
    unfold len. lia. }
  assert (Hne : (len bytes =? 0) = false) by (apply Z.eqb_neq; lia).
  assert (Hidx : index bytes 0 = ret flag)
    by (apply index_ok; [lia|exact Hflag]).
  split.
  - intros Hshort.
    assert (Hnext : readNextGeometry bytes = ([], Stop Panic)).
    { unfold readNextGeometry. rewrite Hne, Hidx, bind_ret_l.
      rewrite slice_panics by lia. reflexivity. }
    split; [exact Hnext|].
    unfold readGeometries. cbv zeta. unfold logAt at 1. rewrite bind_Ret.
    cbn [readGeometries_loop].
    replace (0 <? len bytes) with true by (symmetry; apply Z.ltb_lt; lia).
    rewrite (slice_from_ok bytes [] (view bytes)) by reflexivity.
    rewrite bind_ret_l.
    replace (Buf (view bytes) (spare bytes)) with bytes by (destruct bytes; reflexivity).
    rewrite Hnext. reflexivity.
  - intros Hlong Hx Hn. unfold readNextGeometry. rewrite Hne, Hidx, bind_ret_l.
    rewrite slice_ok by lia. rewrite bind_ret_l.
    unfold bytesToUint32. cbn [view].
    match goal with
    | |- context [len ?w =? 4] =>
      replace (len w =? 4) with true
        by (symmetry; apply Z.eqb_eq; rewrite cap_array in Hlong; unfold len in *;
            rewrite length_firstn, length_skipn; lia)
    end.
    cbn [negb]. rewrite bind_ret_l. unfold bitConversion.
    destruct (Z.eqb_spec (b2z flag) wkbXDR); [contradiction|].
    destruct (Z.eqb_spec (b2z flag) wkbNDR); [contradiction|].
    reflexivity.
Qed.

Lemma readNextGeometry_short_or_bad_flag_witness :
  readNextGeometry (Buf [x01; x03; x00; x00]%byte []) = ([], Stop Panic) /\
  readNextGeometry (Buf [x02; x03; x00; x00]%byte [x00; x00]%byte)
    = ([(Fatal, InvalidByteOrderFlag 2)], Stop Exit).
Proof.
  split.
  - apply (proj1 (readNextGeometry_short_or_bad_flag
                    (Buf [x01; x03; x00; x00]%byte []) x01 eq_refl)).
    vm_compute. reflexivity.
  - apply (proj2 (readNextGeometry_short_or_bad_flag
                    (Buf [x02; x03; x00; x00]%byte [x00; x00]%byte) x02 eq_refl));
      vm_compute; discriminate.
Defined.

(** ** The header: what Init leaves behind *)

Lemma Init_srs_id_log (h : GeoPackageBinaryHeader.t) (geom : buf)
      (g0 g1 g2 g3 s0 s1 s2 s3 : byte) (rest : list byte) (o : Z) :
  array geom = g0 :: g1 :: g2 :: g3 :: s0 :: s1 :: s2 :: s3 :: rest ->
  GeoPackageBinaryHeader.Init_srs_id h geom o
  = (srs_log s0 s1 s2 s3 o,
     Ret (GeoPackageBinaryHeader.set_srs_id (srs_of s0 s1 s2 s3 o) h)).
Proof.
  intros Ha.
  unfold GeoPackageBinaryHeader.Init_srs_id, srs_of, srs_log, implausible, retry_order.
  rewrite (slice_srs _ _ _ _ _ _ _ _ _ _ Ha), bind_ret_l. cbn [view].
  rewrite bytesToInt32_four, bind_ret_l.
  cbn [GeoPackageBinaryHeader.srs_id GeoPackageBinaryHeader.set_srs_id].
  destruct ((int32_of s0 s1 s2 s3 wkbNDR <? 0) || (int32_of s0 s1 s2 s3 wkbNDR >? 9999)).
  - unfold logAt. rewrite !bind_Ret. cbn [fst snd].
    rewrite !bind_ret_l. cbn [view]. rewrite bytesToInt32_four, !bind_ret_l.
    destruct ((int32_of s0 s1 s2 s3 (if 1 =? o then 0 else 1) <? 0)
              || (int32_of s0 s1 s2 s3 (if 1 =? o then 0 else 1) >? 9999));
      rewrite !bind_Ret; cbn [fst snd]; reflexivity.
  - reflexivity.
Qed.

Lemma fill_read (geom : buf) (o k lo hi : Z) (h h' : GeoPackageBinaryHeader.t)
      (e : list float64) (l : list event) :
  GeoPackageBinaryHeader.envelope h = Some e ->
  GeoPackageBinaryHeader.fill geom o k lo hi h = (l, Ret h') ->
  exists v,
    l = [] /\
    window (array geom) lo hi = Some (put_float64 o v) /\
    float64_ok v /\
    v = float64_of o (firstn (Z.to_nat (hi - lo)) (skipn (Z.to_nat lo) (array geom))) /\
    h' = GeoPackageBinaryHeader.set_envelope (Some (set_nth e (Z.to_nat k) v)) h.
Proof.
  intros He H. unfold GeoPackageBinaryHeader.fill in H.
  inv_step H as w Hw. inv_step H as v Hv. rewrite He in H.
  inv_step H as e' He'. apply ret_inv in H. destruct H as [-> <-].
  destruct (slice_inv _ _ _ _ _ Hw) as (-> & _ & _ & Hwin & _ & _).
  pose proof (window_inv _ _ _ _ Hwin) as (_ & _ & Hwe & _).
  pose proof Hv as Hv'. apply bytesToFloat64_inv in Hv'.
  destruct Hv' as (-> & _ & Hok & Hput).
  unfold store in He'.
  destruct ((0 <=? k) && (k <? len e)); [|discriminate].
  apply ret_inv in He'. destruct He' as [-> <-].
  exists v. subst. split; [reflexivity|]. split; [rewrite Hput; exact Hwin|].
  split; [assumption|]. split; [|reflexivity].
  unfold float64_of. rewrite <- Hwe, Hv. reflexivity.
Qed.

Ltac fill_read_step F :=
  let v := fresh "v" in
  let Hs := fresh "Hs" in
  let Hok := fresh "Hok" in
  let Hv := fresh "Hv" in
  eapply fill_read in F; [|reflexivity];
  destruct F as (v & -> & Hs & Hok & Hv & ->).

Ltac fill_chain H :=
  repeat (let hk := fresh "hk" in
          let Fk := fresh "F" in
          apply bind_Ret_inv in H; destruct H as (? & hk & ? & Fk & H & ?));
  repeat match goal with
         | F : GeoPackageBinaryHeader.fill _ _ _ _ _
                 (GeoPackageBinaryHeader.set_envelope (Some _) _) = _ |- _ =>
           fill_read_step F
         end.

Lemma Init_envelope_read (h h' : GeoPackageBinaryHeader.t) (geom : buf)
      (o eType sz : Z) (l : list event) :
  GeoPackageBinaryHeader.Init_envelope h geom o eType = (l, Ret (h', sz)) ->
  8 <= cap geom ->
  exists e,
    l = envelope_log eType /\
    sz = 8 + 8 * envelope_count eType /\
    h' = GeoPackageBinaryHeader.set_envelope (Some e) h /\
    e = envelope_of (array geom) o (Z.to_nat (envelope_count eType)) /\
    Forall float64_ok e /\
    window (array geom) 8 sz = Some (concat (map (put_float64 o) e)).
Proof.
  unfold GeoPackageBinaryHeader.Init_envelope, GeoPackageBinaryHeader.make_envelope.
  intros H H8. rewrite cap_array in H8.
  destruct eType as [|[[[]|[]|]|[[]|[]|]|]|]; cbv zeta in H;
    fill_chain H; apply ret_inv in H; destruct H as [-> H]; injection H as <- <-.
  all: try match goal with
           | F : logAt _ _ = _ |- _ => unfold logAt in F; injection F as <- _
           end.
  all: subst.
  all: eexists; split; [reflexivity|]; split; [reflexivity|];
       split; [reflexivity|]; split; [reflexivity|]; split;
       [ try unfold make; cbn [Z.to_nat repeat];
         repeat (apply Forall_cons; [assumption|]); apply Forall_nil
       | try unfold make; cbn [Z.to_nat repeat map concat];
         repeat (eapply window_split; [eassumption|]);
         apply window_empty;
         repeat match goal with
                | Hs : window _ _ _ = _ |- _ => apply window_inv in Hs
                end; lia ].
Qed.

(** Everything a run of [Init] that returns has produced, as a function of
    the backing array and the length of the blob. *)
Lemma Init_read (h0 h : GeoPackageBinaryHeader.t) (geom : buf) (l : list event) :
  GeoPackageBinaryHeader.Init h0 geom = (l, Ret h) ->
  exists g0 g1 g2 g3 s0 s1 s2 s3 rest,
    array geom = g0 :: g1 :: g2 :: g3 :: s0 :: s1 :: s2 :: s3 :: rest /\
    4 <= len geom /\
    let o := Z.land (b2z g3) 1 in
    let count := envelope_count (eType_of g3) in
    let e := envelope_of (array geom) o (Z.to_nat count) in
    l = srs_log s0 s1 s2 s3 o ++ envelope_log (eType_of g3)
          ++ [(Debug, HeaderSizes (8 + 8 * count) (len geom))] /\
    h = decoded g0 g1 g2 g3 s0 s1 s2 s3 e /\
    Forall float64_ok e /\
    window (array geom) 8 (8 + 8 * count) = Some (concat (map (put_float64 o) e)).
Proof.
  intros H. unfold GeoPackageBinaryHeader.Init in H.
  inv_step H as b Hb. inv_step H as m Hmagic. inv_step H as b2 Hb2.
  inv_step H as h1 Hsrs. inv_step H as eType HeType.
  inv_step H as r Henv. destruct r as [h2 sz].
  pose proof (Init_srs_id_inv _ _ _ _ _ Hsrs) as H8.
  destruct (shape8 (array geom) ltac:(rewrite <- cap_array; exact H8))
    as (g0 & g1 & g2 & g3 & s0 & s1 & s2 & s3 & rest & Hgeom).
  exists g0, g1, g2, g3, s0, s1, s2, s3, rest. split; [exact Hgeom|].
  apply index_array_inv in Hb. destruct Hb as (-> & Hlen4 & Hb).
  rewrite Hgeom in Hb. simpl in Hb. injection Hb as <-.
  apply index_array_inv in Hb2. destruct Hb2 as (-> & _ & Hb2).
  rewrite Hgeom in Hb2. simpl in Hb2. injection Hb2 as <-.
  split; [lia|].
  cbn [GeoPackageBinaryHeader.flags GeoPackageBinaryHeader.set_flags
       GeoPackageBinaryHeader.set_flagsReady] in *.
  rewrite (Init_magic_ok geom g0 g1 _ _ Hgeom) in Hmagic by lia.
  apply ret_inv in Hmagic. destruct Hmagic as [-> <-].
  rewrite (Init_srs_id_log _ geom g0 g1 g2 g3 s0 s1 s2 s3 rest _ Hgeom) in Hsrs.
  injection Hsrs as <- <-.
  unfold GeoPackageBinaryHeader.EnvelopeType in HeType.
  cbn [GeoPackageBinaryHeader.flagsReady GeoPackageBinaryHeader.set_srs_id
       GeoPackageBinaryHeader.set_version GeoPackageBinaryHeader.set_magic
       GeoPackageBinaryHeader.set_flags GeoPackageBinaryHeader.set_flagsReady
       GeoPackageBinaryHeader.flags] in HeType.
  apply ret_inv in HeType. destruct HeType as [-> <-]. fold (eType_of g3) in Henv.
  apply Init_envelope_read in Henv; [|assumption].
  destruct Henv as (e & -> & -> & -> & He & Hok & Hs).
  unfold logAt in H. rewrite bind_Ret in H. cbn [fst snd ret] in H.
  injection H as <- <-. subst. cbv zeta.
  split; [rewrite !app_nil_l; reflexivity|]. split; [reflexivity|].
  split; assumption.
Qed.

Lemma implausible_false (x : Z) : implausible x = false -> 0 <= x <= 9999.
Proof.
  unfold implausible. intros H. apply orb_false_elim in H. destruct H as [H1 H2].
  apply Z.ltb_ge in H1. rewrite Z.gtb_ltb in H2. apply Z.ltb_ge in H2. lia.
Qed.

Lemma srs_of_range (s0 s1 s2 s3 : byte) (o : Z) : 0 <= srs_of s0 s1 s2 s3 o <= 9999.
Proof.
  unfold srs_of.
  destruct (implausible (int32_of s0 s1 s2 s3 wkbNDR)) eqn:E1.
  - destruct (implausible (int32_of s0 s1 s2 s3 (retry_order o))) eqn:E2; [lia|].
    apply implausible_false. assumption.
  - apply implausible_false. assumption.
Qed.

Lemma eType_of_range (g : byte) : 0 <= eType_of g <= 7.
Proof. destruct g; vm_compute; split; intro; discriminate. Qed.

Lemma magic_of_big_endian (g0 g1 : byte) :
  magic_of g0 g1 0 = b2z g1 * 256 + b2z g0.
Proof.
  unfold magic_of. cbn [Z.eqb].
  pose proof (b2z_range g0). pose proof (b2z_range g1).
  unfold to_uint16. rewrite Z.shiftl_mul_pow2 by lia. change (2 ^ 8) with 256.
  rewrite Z.mod_small by lia. apply lor_low_byte. assumption.
Qed.

(** A byte of the backing array that lies within the length is a byte of the
    view. *)
Lemma nth_error_in_view (s : buf) (i : nat) (a : byte) :
  Z.of_nat i < len s -> nth_error (array s) i = Some a -> nth_error (view s) i = Some a.
Proof.
  intros Hi Hn. unfold array in Hn. rewrite nth_error_app1 in Hn; [assumption|].
  unfold len in Hi. lia.
Qed.

(** X12: after every Init that returns, SRSId() lies in 0 .. 9999 (the value
    decoded little-endian, else the retried one, else 0), Version() is byte 2
    of the blob and EnvelopeType() is bits 1..3 of byte 3, a code in 0 .. 7. *)
Theorem Init_fields_in_range :
  forall (h0 h : GeoPackageBinaryHeader.t) (geom : buf) (l : list event),
    GeoPackageBinaryHeader.Init h0 geom = (l, Ret h) ->
    exists g2 g3 s,
      nth_error geom 2 = Some g2 /\ nth_error geom 3 = Some g3 /\
      GeoPackageBinaryHeader.Version h = ret (b2z g2) /\
      GeoPackageBinaryHeader.EnvelopeType h = ret (eType_of g3) /\
      0 <= eType_of g3 <= 7 /\
      GeoPackageBinaryHeader.SRSId h = ret s /\ 0 <= s <= 9999.
Proof.
  intros h0 h geom l H. apply Init_inv in H.
  destruct H as (g0 & g1 & g2 & g3 & s0 & s1 & s2 & s3 & rest & e & Ha & H4 & _ & -> & _).
  exists g2, g3, (srs_of s0 s1 s2 s3 (Z.land (b2z g3) 1)).
  destruct (accessors_initialized (decoded g0 g1 g2 g3 s0 s1 s2 s3 e))
    as (_ & -> & -> & _); [reflexivity|].
  split; [apply nth_error_in_view; [simpl; lia|rewrite Ha; reflexivity]|].
  split; [apply nth_error_in_view; [simpl; lia|rewrite Ha; reflexivity]|].
  split; [reflexivity|]. split; [reflexivity|].
  split; [apply eType_of_range|]. split; [reflexivity|apply srs_of_range].
Qed.

Lemma Init_fields_in_range_witness :
  exists s, GeoPackageBinaryHeader.SRSId
              (GeoPackageBinaryHeader.mk true 20551 0 0 true 0 (Some []) 8) = ret s /\
            0 <= s <= 9999.
Proof.
  destruct (Init_fields_in_range GeoPackageBinaryHeader.zero
              (GeoPackageBinaryHeader.mk true 20551 0 0 true 0 (Some []) 8)
              (Buf [x47; x50; x00; x00]%byte [x00; x00; x10; xe6]%byte)
              [(Error, SrsIdLooksInvalid (-435159040) 0);
               (Error, SrsIdTryingAgain 1);
               (Error, SrsIdStillInvalid (-435159040));
               (Debug, HeaderSizes 8 4)] eq_refl)
    as (_ & _ & s & _ & _ & _ & _ & _ & Hs & Hr).
  exists s. split; assumption.
Defined.

(** X13: on a header whose byte-order bit is clear, Magic() after Init is
    256 * byte 1 + byte 0: the two bytes are joined the other way round than
    with the bit set, so the bytes 0x47 0x50 give 0x5047, not the 0x4750 the
    field comment expects. *)
Theorem Init_magic_big_endian_header :
  forall (h0 h : GeoPackageBinaryHeader.t) (g0 g1 version flagsByte : byte)
         (rest extra : list byte) (l : list event),
    Z.land (b2z flagsByte) 1 = 0 ->
    GeoPackageBinaryHeader.Init h0 (Buf (g0 :: g1 :: version :: flagsByte :: rest) extra)
      = (l, Ret h) ->
    GeoPackageBinaryHeader.Magic h = ret (b2z g1 * 256 + b2z g0) /\
    (g0 = x47 -> g1 = x50 -> GeoPackageBinaryHeader.Magic h = ret 0x5047).
Proof.
  intros h0 h g0 g1 version flagsByte rest extra l Hbit Hinit.
  apply Init_inv in Hinit.
  destruct Hinit as (g0' & g1' & g2' & g3' & s0 & s1 & s2 & s3 & rest' & e
                     & Hgeom & _ & _ & -> & _).
  injection Hgeom as <- <- <- <- _.
  assert (HM : GeoPackageBinaryHeader.Magic (decoded g0 g1 version flagsByte s0 s1 s2 s3 e)
               = ret (b2z g1 * 256 + b2z g0)).
  { destruct (accessors_initialized (decoded g0 g1 version flagsByte s0 s1 s2 s3 e))
      as (-> & _); [reflexivity|].
    cbn [decoded GeoPackageBinaryHeader.magic]. rewrite Hbit.
    rewrite magic_of_big_endian. reflexivity. }
  split; [exact HM|].
  intros -> ->. rewrite HM. reflexivity.
Qed.

Lemma Init_magic_big_endian_header_witness :
  exists l h,
    GeoPackageBinaryHeader.Init GeoPackageBinaryHeader.zero
      (Buf [x47; x50; x00; x00; x00; x00; x10; xe6]%byte []) = (l, Ret h) /\
    GeoPackageBinaryHeader.Magic h = ret 0x5047.
Proof.
  eexists. eexists. split; [reflexivity|].
  refine (proj2 (Init_magic_big_endian_header GeoPackageBinaryHeader.zero _
                   x47 x50 x00 x00 [x00; x00; x10; xe6]%byte [] _ _ _) _ _);
    reflexivity.
Defined.

Lemma index_panics {A} (s : list A) (i : Z) : len s <= i -> index s i = panic.
Proof.
  intros H. unfold index.
  replace (i <? len s) with false by (symmetry; apply Z.ltb_ge; lia).
  rewrite andb_false_r. reflexivity.
Qed.

Lemma fill_panics (geom : buf) (o k lo hi : Z) (h : GeoPackageBinaryHeader.t) :
  cap geom < hi -> GeoPackageBinaryHeader.fill geom o k lo hi h = panic.
Proof.
  intros H. unfold GeoPackageBinaryHeader.fill. rewrite slice_panics by lia.
  reflexivity.
Qed.

Ltac fill_or_panic :=
  match goal with
  | |- context [GeoPackageBinaryHeader.fill ?geom ?o ?k ?lo ?hi ?h] =>
    destruct (Z.le_gt_cases hi (cap geom));
    [ fill_step | rewrite (fill_panics geom o k lo hi h) by lia; reflexivity ]
  end.

Lemma Init_envelope_panics (h : GeoPackageBinaryHeader.t) (geom : buf)
      (o eType : Z) :
  o = wkbXDR \/ o = wkbNDR ->
  8 <= cap geom ->
  cap geom < 8 + 8 * envelope_count eType ->
  GeoPackageBinaryHeader.Init_envelope h geom o eType = ([], Stop Panic).
Proof.
  intros Ho H8 Hlen. unfold GeoPackageBinaryHeader.Init_envelope.
  destruct eType as [|[[[]|[]|]|[[]|[]|]|]|]; cbn [envelope_count] in *;
    try (exfalso; lia).
  all: match goal with
       | |- context [GeoPackageBinaryHeader.set_envelope
                       (GeoPackageBinaryHeader.make_envelope ?n) ?h0] =>
         assert (He : envelope_set n h0
                        (GeoPackageBinaryHeader.set_envelope
                           (GeoPackageBinaryHeader.make_envelope n) h0))
           by (apply envelope_set_make; lia)
       end;
       cbv zeta; repeat fill_or_panic; exfalso; lia.
Qed.

Lemma Init_panics (h0 : GeoPackageBinaryHeader.t) (geom : buf) :
  (forall g3, nth_error geom 3 = Some g3 ->
              cap geom < 8 + 8 * envelope_count (eType_of g3)) ->
  exists l, GeoPackageBinaryHeader.Init h0 geom = (l, Stop Panic).
Proof.
  intros Hshort. unfold GeoPackageBinaryHeader.Init.
  destruct (Z.lt_ge_cases (len geom) 4) as [H4|H4].
  { exists []. rewrite index_panics by lia. reflexivity. }
  pose proof (len_le_cap geom) as Hcap.
  destruct (array geom) as [|g0 [|g1 [|g2 [|g3 tl]]]] eqn:Ha;
    try (exfalso; rewrite cap_array, Ha in Hcap; unfold len in Hcap, H4;
         simpl length in Hcap; lia).
  assert (Hg3 : nth_error geom 3 = Some g3)
    by (apply nth_error_in_view; [simpl; lia|rewrite Ha; reflexivity]).
  specialize (Hshort g3 Hg3).
  rewrite (index_ok _ 3 g3) by (assumption || lia). rewrite bind_ret_l.
  cbn [GeoPackageBinaryHeader.flags GeoPackageBinaryHeader.set_flags
       GeoPackageBinaryHeader.set_flagsReady].
  rewrite (Init_magic_ok geom g0 g1 _ _ Ha) by lia. rewrite bind_ret_l.
  rewrite (index_array geom 2 g2) by (lia || (rewrite Ha; reflexivity)).
  rewrite bind_ret_l.
  destruct (Z.lt_ge_cases (cap geom) 8) as [H8|H8].
  - exists []. unfold GeoPackageBinaryHeader.Init_srs_id.
    rewrite slice_panics by lia. reflexivity.
  - destruct tl as [|s0 [|s1 [|s2 [|s3 rest]]]];
      try (exfalso; rewrite cap_array, Ha in H8; unfold len in H8;
           simpl length in H8; lia).
    rewrite (Init_srs_id_log _ geom g0 g1 g2 g3 s0 s1 s2 s3 rest _ Ha), bind_Ret.
    unfold GeoPackageBinaryHeader.EnvelopeType at 1 2.
    cbn [GeoPackageBinaryHeader.flagsReady GeoPackageBinaryHeader.set_srs_id
         GeoPackageBinaryHeader.set_version GeoPackageBinaryHeader.set_magic
         GeoPackageBinaryHeader.set_flagsReady GeoPackageBinaryHeader.set_flags
         GeoPackageBinaryHeader.flags].
    rewrite !bind_ret_l. fold (eType_of g3).
    rewrite Init_envelope_panics by (apply land_1_cases || assumption).
    eexists. reflexivity.
Qed.

(** X14: Init returns exactly when byte 3 of the blob lies within its length
    and its capacity holds the whole header, 8 + 8 * (envelope doubles of the
    type code of byte 3) bytes; then Size() is between 8 and the capacity of
    the blob, and can exceed its length.  On every other blob it stops with a
    run-time panic (index or slice out of range).  It never ends the process
    through log.Fatal. *)
Theorem Init_returns_or_panics :
  forall (h0 : GeoPackageBinaryHeader.t) (geom : buf),
    ((exists l h, GeoPackageBinaryHeader.Init h0 geom = (l, Ret h)) <->
     (exists g3, nth_error geom 3 = Some g3 /\
                 8 + 8 * envelope_count (eType_of g3) <= cap geom)) /\
    (forall l h, GeoPackageBinaryHeader.Init h0 geom = (l, Ret h) ->
                 exists sz, GeoPackageBinaryHeader.Size h = ret sz /\
                            8 <= sz <= cap geom) /\
    ((exists l h, GeoPackageBinaryHeader.Init h0 geom = (l, Ret h)) \/
     (exists l, GeoPackageBinaryHeader.Init h0 geom = (l, Stop Panic))) /\
    (forall l, GeoPackageBinaryHeader.Init h0 geom <> (l, Stop Exit)).
Proof.
  intros h0 geom.
  assert (Hfwd : forall l h,
             GeoPackageBinaryHeader.Init h0 geom = (l, Ret h) ->
             exists g3, nth_error geom 3 = Some g3 /\
                        8 + 8 * envelope_count (eType_of g3) <= cap geom /\
                        GeoPackageBinaryHeader.Size h
                        = ret (8 + 8 * envelope_count (eType_of g3))).
  { intros l h H. apply Init_inv in H.
    destruct H as (g0 & g1 & g2 & g3 & s0 & s1 & s2 & s3 & rest & e
                   & Ha & H4 & Hlen & -> & _).
    exists g3.
    split; [apply nth_error_in_view; [simpl; lia|rewrite Ha; reflexivity]|].
    split; [assumption|].
    destruct (accessors_initialized (decoded g0 g1 g2 g3 s0 s1 s2 s3 e))
      as (_ & _ & _ & _ & ->); reflexivity. }
  assert (Hbwd : forall g3,
             nth_error geom 3 = Some g3 ->
             8 + 8 * envelope_count (eType_of g3) <= cap geom ->
             exists l h, GeoPackageBinaryHeader.Init h0 geom = (l, Ret h)).
  { intros g3 Hg Hlen. pose proof (envelope_count_nonneg (eType_of g3)).
    assert (H4 : 4 <= len geom).
    { assert (3 < length (view geom))%nat by (apply nth_error_Some; congruence).
      unfold len. lia. }
    destruct (shape8 (array geom) ltac:(rewrite <- cap_array; lia))
      as (g0 & g1 & g2 & g3' & s0 & s1 & s2 & s3 & rest & Ha).
    apply nth_error_array in Hg. rewrite Ha in Hg.
    simpl in Hg. injection Hg as ->.
    destruct (Init_ok h0 geom g0 g1 g2 g3 s0 s1 s2 s3 rest Ha H4 Hlen)
      as (l & e & Hok & _).
    eauto. }
  assert (Hcases :
    (exists l h, GeoPackageBinaryHeader.Init h0 geom = (l, Ret h)) \/
    (exists l, GeoPackageBinaryHeader.Init h0 geom = (l, Stop Panic))).
  { destruct (nth_error geom 3) as [g3|] eqn:Hg.
    - destruct (Z.le_gt_cases (8 + 8 * envelope_count (eType_of g3)) (cap geom)).
      + left. apply (Hbwd g3); [reflexivity|assumption].
      + right. apply Init_panics. rewrite Hg. intros g Hg'. injection Hg' as <-. lia.
    - right. apply Init_panics. rewrite Hg. discriminate. }
  split; [|split; [|split]].
  - split.
    + intros (l & h & H). destruct (Hfwd l h H) as (g3 & Hg & Hlen & _). eauto.
    + intros (g3 & Hg & Hlen). eauto.
  - intros l h H. destruct (Hfwd l h H) as (g3 & _ & Hlen & Hsz).
    pose proof (envelope_count_nonneg (eType_of g3)). eexists. split; [exact Hsz|lia].
  - exact Hcases.
  - intros l H. destruct Hcases as [(l' & h & H') | (l' & H')];
      rewrite H' in H; discriminate.
Qed.

Lemma Init_returns_or_panics_witness :
  (exists l,
      GeoPackageBinaryHeader.Init GeoPackageBinaryHeader.zero
        (Buf (firstn 39 header_type1) []) = (l, Stop Panic)) /\
  (exists l h,
      GeoPackageBinaryHeader.Init GeoPackageBinaryHeader.zero
        (Buf (firstn 8 header_type1) (skipn 8 header_type1)) = (l, Ret h)).
Proof.
  split.
  - destruct (Init_returns_or_panics GeoPackageBinaryHeader.zero
                (Buf (firstn 39 header_type1) []))
      as (Hiff & _ & [(l & h & H) | Hp] & _).
    + exfalso. destruct (proj1 Hiff (ex_intro _ l (ex_intro _ h H))) as (g3 & Hg & Hlen).
      injection Hg as <-. vm_compute in Hlen. apply Hlen. reflexivity.
    + exact Hp.
  - apply (proj2 (proj1 (Init_returns_or_panics GeoPackageBinaryHeader.zero
                           (Buf (firstn 8 header_type1) (skipn 8 header_type1))))).
    exists x03. split; [reflexivity|]. vm_compute. discriminate.
Defined.

(** X15: Init overwrites the whole header.  If Init returns a header on a
    blob from one receiver, it returns the same header with the same log
    from every other receiver: nothing of what the receiver held before,
    initialized or not, is left in the result. *)
Theorem Init_forgets_receiver :
  forall (h0 h0' h : GeoPackageBinaryHeader.t) (geom : buf) (l : list event),
    GeoPackageBinaryHeader.Init h0 geom = (l, Ret h) ->
    GeoPackageBinaryHeader.Init h0' geom = (l, Ret h).
Proof.
  intros h0 h0' h geom l H.
  pose proof (Init_read _ _ _ _ H)
    as (g0 & g1 & g2 & g3 & s0 & s1 & s2 & s3 & rest & Hgeom & _ & Hl & Hh & _).
  cbv zeta in Hl, Hh.
  apply Init_inv in H.
  destruct H as (g0' & g1' & g2' & g3' & s0' & s1' & s2' & s3' & rest' & e
                 & Hgeom' & H4 & Hlen & _ & _).
  rewrite Hgeom in Hgeom'.
  injection Hgeom' as <- <- <- <- <- <- <- <- <-.
  destruct (Init_ok h0' geom g0 g1 g2 g3 s0 s1 s2 s3 rest Hgeom H4 Hlen)
    as (l' & e' & Hok & _).
  pose proof (Init_read _ _ _ _ Hok)
    as (g0' & g1' & g2' & g3' & s0' & s1' & s2' & s3' & rest' & Hgeom' & _ & Hl' & Hh' & _).
  cbv zeta in Hl', Hh'. rewrite Hgeom in Hgeom'.
  injection Hgeom' as <- <- <- <- <- <- <- <- <-.
  rewrite Hok. f_equal; [|f_equal]; congruence.
Qed.

Lemma Init_forgets_receiver_witness :
  returned (GeoPackageBinaryHeader.Init
              (GeoPackageBinaryHeader.mk true 1 2 3 true 4 None 5) (Buf header_type1 []))
  = returned (GeoPackageBinaryHeader.Init GeoPackageBinaryHeader.zero
                (Buf header_type1 [])).
Proof.
  rewrite (Init_forgets_receiver GeoPackageBinaryHeader.zero
             (GeoPackageBinaryHeader.mk true 1 2 3 true 4 None 5) _
             (Buf header_type1 []) _ eq_refl).
  reflexivity.
Defined.

(** X16: the envelope Init stores is read from the backing array of the blob.
    After an Init that returns, Envelope() holds (Size() - 8) / 8 doubles, and
    writing them back in the header byte order gives the bytes of the slice
    geom[8:Size()], which may reach past the length of the blob into its
    capacity: double k is decoded from bytes 8 + 8k .. 16 + 8k in the byte
    order of bit 0 of the flags byte. *)
Theorem Init_envelope_written_back :
  forall (h0 h : GeoPackageBinaryHeader.t) (geom : buf) (l : list event),
    GeoPackageBinaryHeader.Init h0 geom = (l, Ret h) ->
    exists g3 e,
      nth_error geom 3 = Some g3 /\
      GeoPackageBinaryHeader.Envelope h = ret (Some e) /\
      GeoPackageBinaryHeader.Size h = ret (8 + 8 * len e) /\
      Forall float64_ok e /\
      8 + 8 * len e <= cap geom /\
      slice geom 8 (8 + 8 * len e)
      = ret (Buf (concat (map (put_float64 (Z.land (b2z g3) 1)) e))
                 (skipn (Z.to_nat (8 + 8 * len e)) (array geom))).
Proof.
  intros h0 h geom l H.
  pose proof (Init_read _ _ _ _ H)
    as (g0 & g1 & g2 & g3 & s0 & s1 & s2 & s3 & rest & Hgeom & H4 & _ & Hh & Hok & Hs).
  cbv zeta in Hh, Hok, Hs.
  set (e := envelope_of (array geom) (Z.land (b2z g3) 1)
              (Z.to_nat (envelope_count (eType_of g3)))) in *.
  assert (He : len e = envelope_count (eType_of g3)).
  { unfold e, envelope_of, len. rewrite length_map, length_seq.
    pose proof (envelope_count_nonneg (eType_of g3)). lia. }
  exists g3, e.
  split; [apply nth_error_in_view; [simpl; lia|rewrite Hgeom; reflexivity]|].
  destruct (accessors_initialized h) as (_ & _ & _ & -> & ->);
    [rewrite Hh; reflexivity|].
  rewrite Hh. cbn [decoded GeoPackageBinaryHeader.envelope
                   GeoPackageBinaryHeader.headerSize].
  rewrite He.
  split; [reflexivity|]. split; [reflexivity|]. split; [assumption|].
  split.
  - apply window_inv in Hs. rewrite cap_array. lia.
  - apply slice_window. assumption.
Qed.

Lemma Init_envelope_written_back_witness :
  exists e,
    Forall float64_ok e /\
    slice (Buf (firstn 8 header_type1) (skipn 8 header_type1)) 8 (8 + 8 * len e)
    = ret (Buf (concat (map (put_float64 1) e)) []).
Proof.
  destruct (Init_envelope_written_back GeoPackageBinaryHeader.zero _
              (Buf (firstn 8 header_type1) (skipn 8 header_type1)) _
              eq_refl) as (g3 & e & Hg & He & _ & Hok & _ & Hs).
  injection Hg as <-. exists e. split; [exact Hok|].
  rewrite Hs. do 2 f_equal.
  apply ret_inv in He. destruct He as [_ He]. injection He as <-. reflexivity.
Defined.

(** ** More on failures *)

Lemma WKBLinearRing_Init_loop_panics (bytes : buf) (order : Z) (todo : nat) :
  order = wkbXDR \/ order = wkbNDR ->
  forall (p i : Z) (lr : WKBLinearRing.t),
    0 <= p -> 0 <= i <= cap bytes ->
    p + Z.of_nat todo = len (WKBLinearRing.points lr) ->
    cap bytes < i + 16 * Z.of_nat todo ->
    WKBLinearRing.Init_loop bytes order todo p i lr = ([], Stop Panic).
Proof.
  intros Ho. induction todo as [|todo IH]; intros p i lr Hp Hi Hpts Hshort; [lia|].
  cbn [WKBLinearRing.Init_loop].
  destruct (index_some (WKBLinearRing.points lr) p) as [pt Hpt]; [lia|].
  rewrite Hpt, bind_ret_l.
  destruct (Z.le_gt_cases (i + 16) (cap bytes)) as [Hfit|Hcut].
  - rewrite slice_ok by lia. rewrite bind_ret_l.
    match goal with
    | |- context [WKBPoint.Init pt ?w order] =>
      destruct (WKBPoint_Init_ok pt w order) as [pt' Hpt']; [|assumption|]
    end.
    { cbn [view]. rewrite cap_array in Hfit.
      unfold len in *. rewrite length_firstn, length_skipn. lia. }
    rewrite Hpt', bind_ret_l. rewrite store_ok by lia. rewrite bind_ret_l.
    apply IH; try lia.
    cbn [WKBLinearRing.set_points WKBLinearRing.points].
    unfold len in *. rewrite set_nth_length. lia.
  - rewrite slice_panics by lia. reflexivity.
Qed.

(** X17: a ring whose count promises more points than the capacity of the
    window holds is not returned by WKBLinearRing.Init.  The count is not
    checked against the bytes present: the points are allocated, those that
    are there are decoded, and the slice of the first missing point is out of
    range; a run time that refuses the allocation ends the process before
    that.  Either way no ring and no count come back. *)
Theorem WKBLinearRing_Init_count_too_large :
  forall (lr : WKBLinearRing.t) (bytes : buf) (order m : Z),
    4 <= len bytes ->
    bytesToUint32 (firstn 4 bytes) order = ret m ->
    cap bytes < 4 + 16 * m ->
    returned (WKBLinearRing.Init lr bytes order) = None.
Proof.
  intros lr bytes order m H4 Hm Hshort.
  destruct (bytesToUint32_inv _ _ _ _ Hm) as (_ & Hl4 & Ho).
  destruct (bytesToUint32_facts _ _ _ Hm) as (Hrange & _ & _).
  pose proof (len_le_cap bytes) as Hcap.
  assert (Hrun : WKBLinearRing.Init lr bytes order = ([], Stop Panic)).
  { unfold WKBLinearRing.Init.
    replace (len bytes <? 4) with false by (symmetry; apply Z.ltb_ge; lia).
    rewrite bind_ret_l. cbv zeta. rewrite slice_ok by lia. rewrite bind_ret_l.
    cbn [view]. change (Z.to_nat (4 - 0)) with 4%nat. change (Z.to_nat 0) with 0%nat.
    cbn [skipn]. unfold array. rewrite firstn_app.
    replace (4 - length (view bytes))%nat with 0%nat by (unfold len in H4; lia).
    rewrite firstn_O, app_nil_r.
    rewrite Hm, bind_ret_l.
    cbn [WKBLinearRing.set_numPoints WKBLinearRing.set_points
         WKBLinearRing.numPoints WKBLinearRing.points].
    apply WKBLinearRing_Init_loop_panics; try assumption; try lia.
    cbn [WKBLinearRing.points WKBLinearRing.set_points].
    unfold make, len. rewrite repeat_length. lia. }
  rewrite Hrun. reflexivity.
Qed.

Lemma WKBLinearRing_Init_count_too_large_witness :
  returned (WKBLinearRing.Init WKBLinearRing.zero
              (Buf ([x00; x00; x00; x02]%byte ++ put_point wkbXDR WKBPoint.zero)
                   [x00; x00; x00; x00; x00; x00; x00; x00]%byte) wkbXDR)
  = None.
Proof.
  apply (WKBLinearRing_Init_count_too_large WKBLinearRing.zero
           (Buf ([x00; x00; x00; x02]%byte ++ put_point wkbXDR WKBPoint.zero)
                [x00; x00; x00; x00; x00; x00; x00; x00]%byte)
           wkbXDR 2).
  - vm_compute. discriminate.
  - reflexivity.
  - vm_compute. reflexivity.
Defined.

(** X18: WKBPolygon.Init called on its own.  On a buffer of length 0 it
    panics on the read of the byte-order flag, whatever its capacity, and on
    a buffer whose type code is not 3 it ends the process through log.Fatal
    with the expected code 3 and the code found; neither can happen through
    readNextGeometry, which returns on the empty buffer and dispatches on
    code 3 only. *)
Theorem WKBPolygon_Init_direct_failures :
  forall (p0 : WKBPolygon.t) (extra : list byte),
    WKBPolygon.Init p0 (Buf [] extra) = ([], Stop Panic) /\
    forall (flag : byte) (ty rest : list byte) (t : Z),
      bytesToUint32 ty (b2z flag) = ret t ->
      t <> 3 ->
      WKBPolygon.Init p0 (Buf (flag :: ty ++ rest) extra)
      = ([(Fatal, ExpectedPolygonFlag 3 t)], Stop Exit).
Proof.
  intros p0 extra. split; [reflexivity|].
  intros flag ty rest t Ht Hne.
  destruct (bytesToUint32_inv _ _ _ _ Ht) as (_ & Hl4 & _).
  unfold WKBPolygon.Init. cbv zeta. cbn [view].
  rewrite (index_ok _ 0 flag) by (reflexivity || lia). rewrite bind_ret_l.
  rewrite (slice_array _ [flag] ty (rest ++ extra) (0 + 1) (0 + 1 + 4))
    by first [ reflexivity
             | rewrite Hl4; reflexivity
             | unfold array; cbn [view spare app]; rewrite <- app_assoc; reflexivity ].
  rewrite bind_ret_l. cbn [view]. rewrite Ht, bind_ret_l.
  change (map_get WKBTypeFlags "WKBPolygon") with 3.
  destruct (Z.eqb_spec t 3); [contradiction|]. reflexivity.
Qed.

Lemma WKBPolygon_Init_direct_failures_witness :
  WKBPolygon.Init WKBPolygon.zero
    (Buf ([x01] ++ [x06; x00; x00; x00] ++ [x00]) [x00])%byte
  = ([(Fatal, ExpectedPolygonFlag 3 6)], Stop Exit).
Proof.
  apply (proj2 (WKBPolygon_Init_direct_failures WKBPolygon.zero [x00]%byte) x01
           [x06; x00; x00; x00]%byte [x00]%byte 6).
  - reflexivity.
  - discriminate.
Defined.

(** ** Scalars again: exactness and the two byte orders *)

(** X19: bytesToFloat64 is exact.  It returns v on a window in a byte order
    if and only if the order is 0 or 1 and the window is the 8 bytes of the
    bit pattern of v written in that order; such a run logs nothing.  No bit
    of the pattern is changed, NaN payloads included. *)
Theorem bytesToFloat64_returns_iff :
  forall (w : list byte) (order : Z) (v : float64) (l : list event),
    bytesToFloat64 w order = (l, Ret v) <->
    (l = [] /\ (order = wkbXDR \/ order = wkbNDR) /\ float64_ok v /\
     w = put_float64 order v).
Proof.
  intros w order v l. split.
  - intros H. apply bytesToFloat64_inv in H.
    destruct H as (-> & Ho & Hok & <-). auto.
  - intros (-> & Ho & Hok & ->). apply bytesToFloat64_put; assumption.
Qed.

Lemma rev_len {A} (s : list A) : len (rev s) = len s.
Proof. unfold len. rewrite length_rev. reflexivity. Qed.

(** X20: the two byte orders mirror each other.  Reading a window big-endian
    gives what reading the reversed window little-endian gives, for
    bytesToUint32, bytesToInt32 and bytesToFloat64 alike, value, log and
    failure included. *)
Theorem byte_orders_mirror :
  forall w : list byte,
    bytesToUint32 (rev w) wkbXDR = bytesToUint32 w wkbNDR /\
    bytesToInt32 (rev w) wkbXDR = bytesToInt32 w wkbNDR /\
    bytesToFloat64 (rev w) wkbXDR = bytesToFloat64 w wkbNDR.
Proof.
  intros w. split; [|split].
  - destruct (Z.eq_dec (len w) 4) as [H4|H4].
    + destruct w as [|b0 [|b1 [|b2 [|b3 [|b4 tl]]]]];
        try (exfalso; unfold len in H4; simpl length in H4; lia).
      cbn [rev app].
      rewrite !bytesToUint32_four by (auto).
      cbn [Z.eqb wkbXDR wkbNDR Pos.eqb]. reflexivity.
    + rewrite !bytesToUint32_wrong_length, rev_len by (rewrite ?rev_len; assumption).
      reflexivity.
  - destruct (Z.eq_dec (len w) 4) as [H4|H4].
    + destruct w as [|b0 [|b1 [|b2 [|b3 [|b4 tl]]]]];
        try (exfalso; unfold len in H4; simpl length in H4; lia).
      cbn [rev app].
      rewrite !bytesToInt32_four. unfold int32_of.
      cbn [Z.eqb wkbXDR wkbNDR Pos.eqb]. reflexivity.
    + rewrite !bytesToInt32_wrong_length, rev_len by (rewrite ?rev_len; assumption).
      reflexivity.
  - destruct (Z.eq_dec (len w) 8) as [H8|H8].
    + destruct w as [|b0 [|b1 [|b2 [|b3 [|b4 [|b5 [|b6 [|b7 [|b8 tl]]]]]]]]];
        try (exfalso; unfold len in H8; simpl length in H8; lia).
      cbn [rev app].
      unfold bytesToFloat64. rewrite !H8.
      change (negb (8 =? 8)) with false. cbv iota. rewrite !bind_ret_l.
      unfold bitConversion. cbn [Z.eqb wkbXDR wkbNDR Pos.eqb].
      rewrite !bind_ret_l. unfold Uint64. cbv beta zeta. reflexivity.
    + rewrite !bytesToFloat64_wrong_length, rev_len by (rewrite ?rev_len; assumption).
      reflexivity.
Qed.

Lemma implausible_true (x : Z) : ~ 0 <= x <= 9999 -> implausible x = true.
Proof.
  intros H. unfold implausible. apply orb_true_iff.
  rewrite Z.gtb_ltb. destruct (Z.ltb_spec x 0); [left; reflexivity|].
  right. apply Z.ltb_lt. lia.
Qed.

Lemma implausible_plausible (x : Z) : 0 <= x <= 9999 -> implausible x = false.
Proof.
  intros H. unfold implausible. apply orb_false_iff.
  rewrite Z.gtb_ltb. split; [apply Z.ltb_ge|apply Z.ltb_ge]; lia.
Qed.

(** X21: SRSId() after Init, by the byte-order bit of the flags.  With le
    and be the little- and big-endian readings of bytes 4..7: a plausible le
    (0 .. 9999) is returned whatever the bit; otherwise, with the bit set, be
    is returned if plausible and 0 if not; with the bit clear the result is 0
    even when be is plausible, since the second reading is little-endian
    again. *)
Theorem Init_SRSId_by_byte_order :
  forall (h0 h : GeoPackageBinaryHeader.t) (g0 g1 g2 g3 s0 s1 s2 s3 : byte)
         (rest extra : list byte) (l : list event),
    GeoPackageBinaryHeader.Init h0
      (Buf (g0 :: g1 :: g2 :: g3 :: s0 :: s1 :: s2 :: s3 :: rest) extra)
      = (l, Ret h) ->
    exists le be,
      bytesToInt32 [s0; s1; s2; s3] wkbNDR = ret le /\
      bytesToInt32 [s0; s1; s2; s3] wkbXDR = ret be /\
      (0 <= le <= 9999 -> GeoPackageBinaryHeader.SRSId h = ret le) /\
      (~ 0 <= le <= 9999 -> Z.land (b2z g3) 1 = 1 -> 0 <= be <= 9999 ->
       GeoPackageBinaryHeader.SRSId h = ret be) /\
      (~ 0 <= le <= 9999 -> Z.land (b2z g3) 1 = 1 -> ~ 0 <= be <= 9999 ->
       GeoPackageBinaryHeader.SRSId h = ret 0) /\
      (~ 0 <= le <= 9999 -> Z.land (b2z g3) 1 = 0 ->
       GeoPackageBinaryHeader.SRSId h = ret 0).
Proof.
  intros h0 h g0 g1 g2 g3 s0 s1 s2 s3 rest extra l H.
  apply Init_SRSId in H. rewrite H.
  exists (int32_of s0 s1 s2 s3 wkbNDR), (int32_of s0 s1 s2 s3 wkbXDR).
  split; [apply bytesToInt32_four|]. split; [apply bytesToInt32_four|].
  unfold srs_of. cbv zeta. split; [|split; [|split]].
  - intros Hle. rewrite (implausible_plausible _ Hle). reflexivity.
  - intros Hle Hbit Hbe. rewrite (implausible_true _ Hle), Hbit.
    change (retry_order 1) with wkbXDR.
    rewrite (implausible_plausible _ Hbe). reflexivity.
  - intros Hle Hbit Hbe. rewrite (implausible_true _ Hle), Hbit.
    change (retry_order 1) with wkbXDR.
    rewrite (implausible_true _ Hbe). reflexivity.
  - intros Hle Hbit. rewrite (implausible_true _ Hle), Hbit.
    change (retry_order 0) with wkbNDR.
    rewrite (implausible_true _ Hle). reflexivity.
Qed.

Lemma Init_SRSId_by_byte_order_witness :
  exists l h,
    GeoPackageBinaryHeader.Init GeoPackageBinaryHeader.zero
      (Buf [x47; x50; x00; x01; x00; x00; x10; xe6]%byte []) = (l, Ret h) /\
    GeoPackageBinaryHeader.SRSId h = ret 4326.
Proof.
  eexists. eexists. split; [reflexivity|].
  destruct (Init_SRSId_by_byte_order GeoPackageBinaryHeader.zero _
              x47 x50 x00 x01 x00 x00 x10 xe6 [] [] _ eq_refl)
    as (le & be & Hle & Hbe & _ & H2 & _).
  apply ret_inv in Hle, Hbe. destruct Hle as [_ <-], Hbe as [_ <-].
  apply H2; [vm_compute; intros [H _]; apply H; reflexivity|reflexivity|].
  vm_compute. split; discriminate.
Defined.

(** X22: the loop of readGeometries ends.  readNextGeometry on a non-empty
    buffer returns only with a polygon and a count of at least 9 and at most
    the capacity of the buffer, so every pass of the loop moves the cursor
    forward by 9 bytes or more; the fuel of the model never runs out, on any
    buffer. *)
Theorem readGeometries_terminates :
  forall bytes : buf,
    fuel_free (readGeometries bytes) /\
    forall (g : option WKBGeometry) (n : Z) (l : list event),
      readNextGeometry bytes = (l, Ret (g, n)) ->
      len bytes <> 0 ->
      9 <= n <= cap bytes /\ exists p, g = Some (IsPolygon p).
Proof.
  intros bytes. split.
  - apply readGeometries_total.
  - intros g n l H Hne. apply readNextGeometry_read in H; [|assumption].
    destruct H as (flag & rings & _ & _ & _ & -> & -> & Hs & _).
    pose proof (len_put_polygon_pos flag rings).
    apply window_inv in Hs. rewrite <- cap_array in Hs.
    split; [lia|]. eexists. reflexivity.
Qed.

Lemma readGeometries_terminates_witness :
  9 <= 29 <= cap (Buf (firstn 28 one_ring_polygon) [x3f; x07]%byte).
Proof.
  refine (proj1 (proj2 (readGeometries_terminates
                          (Buf (firstn 28 one_ring_polygon) [x3f; x07]%byte))
                   _ 29 [] _ _)).
  - reflexivity.
  - vm_compute. discriminate.
Defined.
